(** * FinancialGuiApp: the signal-driven auto-trading core

    A shallow embedding of
      - [src/core/utils.py]       ([find_peaks_and_valleys], and further
                                   [crossover], [crossunder], [handle_nan],
                                   [macd_features], [rsi_features]),
      - [src/core/models.py]      ([TradeModel]),
      - [src/core/controllers.py] ([TradeController]),
      - [src/gui/widgets/plot_view.py] (the call of [auto_trade] in
                                   [increment_plot]),
      - [src/data/config_manager.py] ([ConfigManager]),
    together with the parts of pandas, scikit-learn and scipy.signal that
    these functions call.

    Conventions of the embedding.
      - Python floats are idealised as exact rationals ([Q]); no NaN price
        occurs.  A NaN or absent 'Signal' cell is [None].
      - Timestamps (and the date strings pandas compares them with) are
        points of [Z]; a Python value that may be [None] is an [option].
      - A DataFrame is a list of rows carrying the default 0..n-1 index
        (the caller builds the window with [reset_index(drop=True)]), so a
        row's label is its position.
      - DataFrames are mutable objects: they live in a store and are named
        by locations; [copy()] allocates.
      - Exceptions are values of a [result] type; [print] is not modelled. *)

From Stdlib Require Import String Ascii.
From Stdlib Require Import List ZArith QArith Bool Arith Lia Lqa.
Import ListNotations.

Set Implicit Arguments.
Local Open Scope Z_scope.
Local Open Scope nat_scope.

(* ================================================================== *)
(** ** Exceptions *)

Inductive exn : Type :=
| KeyError
| IndexError
| ValueError
| AttributeError.

Inductive result (A : Type) : Type :=
| Ok (a : A)
| Raise (e : exn).
Arguments Ok {A} a.
Arguments Raise {A} e.

(* ================================================================== *)
(** ** Rational comparisons and positional list update *)

Definition Qltb (a b : Q) : bool := negb (Qle_bool b a).

Definition nthQ (x : list Q) (i : nat) : Q := nth i x 0%Q.

(** [a[i] = v] for an in-range position; out of range the list is returned
    as it is (the callers below only write in range). *)
Fixpoint set_nth {A : Type} (a : list A) (i : nat) (v : A) : list A :=
  match a, i with
  | [], _ => []
  | _ :: t, O => v :: t
  | x :: t, S i' => x :: set_nth t i' v
  end.

(** [a[mask]] for a boolean mask. *)
Fixpoint select {A : Type} (a : list A) (keep : list bool) : list A :=
  match a, keep with
  | x :: a', b :: keep' => if b then x :: select a' keep' else select a' keep'
  | _, _ => []
  end.

(* ================================================================== *)
(** ** sklearn.preprocessing.MinMaxScaler(feature_range=(0, 1)) *)

Module MinMaxScaler.

Definition Qmin (a b : Q) : Q := if Qle_bool a b then a else b.
Definition Qmax (a b : Q) : Q := if Qle_bool a b then b else a.

(** Machine epsilon of a 64-bit float, 2^-52. *)
Definition eps : Q := (1 # 4503599627370496)%Q.

(** [_handle_zeros_in_scale]: a (near) constant column is scaled by 1. *)
Definition handle_zeros_in_scale (scale : Q) : Q :=
  if Qltb scale (10 * eps)%Q then 1%Q else scale.

(** [fit_transform] on one column; an array without samples is rejected
    by the input validation of [fit]. *)
Definition fit_transform (X : list Q) : result (list Q) :=
  match X with
  | [] => Raise ValueError
  | x0 :: rest =>
      let data_min := fold_left Qmin rest x0 in
      let data_max := fold_left Qmax rest x0 in
      let data_range := (data_max - data_min)%Q in
      let scale_ := (1 / handle_zeros_in_scale data_range)%Q in
      let min_ := (0 - data_min * scale_)%Q in
      Ok (map (fun x => x * scale_ + min_)%Q X)
  end.

End MinMaxScaler.

(* ================================================================== *)
(** ** scipy.signal.find_peaks(x, distance=..., prominence=...) *)

Module Scipy.

(** Inner loop of [_local_maxima_1d]:
    [while i_ahead < i_max and x[i_ahead] == x[i]: i_ahead += 1]. *)
Fixpoint look_ahead (fuel : nat) (x : list Q) (xi : Q) (i_ahead i_max : nat)
  : nat :=
  match fuel with
  | O => i_ahead
  | S fuel' =>
      if (i_ahead <? i_max) && Qeq_bool (nthQ x i_ahead) xi
      then look_ahead fuel' x xi (S i_ahead) i_max
      else i_ahead
  end.

(** Outer loop of [_local_maxima_1d], returning the midpoints. *)
Fixpoint local_maxima_loop (fuel : nat) (x : list Q) (i i_max : nat)
  : list nat :=
  match fuel with
  | O => []
  | S fuel' =>
      if i <? i_max then
        if Qltb (nthQ x (i - 1)) (nthQ x i) then
          let i_ahead := look_ahead (i_max - S i) x (nthQ x i) (S i) i_max in
          if Qltb (nthQ x i_ahead) (nthQ x i) then
            let left_edge := i in
            let right_edge := i_ahead - 1 in
            ((left_edge + right_edge) / 2)
              :: local_maxima_loop fuel' x (S i_ahead) i_max
          else local_maxima_loop fuel' x (S i) i_max
        else local_maxima_loop fuel' x (S i) i_max
      else []
  end.

(** [i = 1] (the first sample cannot be a maximum) and
    [i_max = x.shape[0] - 1] (nor can the last). *)
Definition local_maxima_1d (x : list Q) : list nat :=
  local_maxima_loop (length x) x 1 (length x - 1).

(** [np.argsort(priority)]: positions in ascending order of priority.
    Ties are kept in positional order, as numpy's sort does on the short
    arrays met here. *)
Fixpoint insert_by (priority : list Q) (j : nat) (l : list nat) : list nat :=
  match l with
  | [] => [j]
  | k :: l' =>
      if Qle_bool (nthQ priority j) (nthQ priority k)
      then j :: l
      else k :: insert_by priority j l'
  end.

Definition argsort (priority : list Q) : list nat :=
  fold_right (insert_by priority) [] (seq 0 (length priority)).

Definition gap (peaks : list nat) (a b : nat) : Z :=
  (Z.of_nat (nth a peaks O) - Z.of_nat (nth b peaks O))%Z.

(** [k = j - 1; while 0 <= k and peaks[j] - peaks[k] < distance_: ...];
    the argument [k1] is [k + 1]. *)
Fixpoint flag_earlier (peaks : list nat) (distance_ : Z) (j k1 : nat)
         (keep : list bool) : list bool :=
  match k1 with
  | O => keep
  | S k =>
      if (gap peaks j k <? distance_)%Z
      then flag_earlier peaks distance_ j k (set_nth keep k false)
      else keep
  end.

(** [k = j + 1; while k < peaks_size and peaks[k] - peaks[j] < distance_]. *)
Fixpoint flag_later (fuel : nat) (peaks : list nat) (distance_ : Z)
         (j k : nat) (keep : list bool) : list bool :=
  match fuel with
  | O => keep
  | S fuel' =>
      if (k <? length peaks) && (gap peaks k j <? distance_)%Z
      then flag_later fuel' peaks distance_ j (S k) (set_nth keep k false)
      else keep
  end.

(** [_select_by_peak_distance]: highest priority first. *)
Definition select_by_peak_distance (peaks : list nat) (priority : list Q)
           (distance : Z) : list bool :=
  let peaks_size := length peaks in
  let priority_to_position := argsort priority in
  fold_left
    (fun keep j =>
       if nth j keep false then
         let keep := flag_earlier peaks distance j j keep in
         flag_later (peaks_size - S j) peaks distance j (S j) keep
       else keep)
    (rev priority_to_position)
    (repeat true peaks_size).

(** [_peak_prominences] with [wlen = -1]: the lowest sample on each side
    before a sample higher than the peak
    ([while i_min <= i and x[i] <= x[peak]] to the left, with [i1] for
    [i + 1], and [while i <= i_max and x[i] <= x[peak]] to the right). *)
Fixpoint left_min_scan (x : list Q) (xpeak : Q) (i1 : nat) (left_min : Q)
  : Q :=
  match i1 with
  | O => left_min
  | S i =>
      if Qle_bool (nthQ x i) xpeak
      then left_min_scan x xpeak i
             (if Qltb (nthQ x i) left_min then nthQ x i else left_min)
      else left_min
  end.

Fixpoint right_min_scan (fuel : nat) (x : list Q) (xpeak : Q) (i : nat)
         (right_min : Q) : Q :=
  match fuel with
  | O => right_min
  | S fuel' =>
      if (i <? length x) && Qle_bool (nthQ x i) xpeak
      then right_min_scan fuel' x xpeak (S i)
             (if Qltb (nthQ x i) right_min then nthQ x i else right_min)
      else right_min
  end.

Definition peak_prominence (x : list Q) (peak : nat) : Q :=
  let xpeak := nthQ x peak in
  let left_min := left_min_scan x xpeak (S peak) xpeak in
  let right_min := right_min_scan (length x - peak) x xpeak peak xpeak in
  (xpeak - MinMaxScaler.Qmax left_min right_min)%Q.

Definition peak_prominences (x : list Q) (peaks : list nat) : list Q :=
  map (peak_prominence x) peaks.

(** [_select_by_property(prominences, pmin, None)]. *)
Definition select_by_property (prominences : list Q) (pmin : Q) : list bool :=
  map (fun p => Qle_bool pmin p) prominences.

Definition find_peaks (x : list Q) (distance : Z) (prominence : Q)
  : result (list nat) :=
  if (distance <? 1)%Z then Raise ValueError
  else
    let peaks := local_maxima_1d x in
    let keep :=
      select_by_peak_distance peaks (map (nthQ x) peaks) distance in
    let peaks := select peaks keep in
    let prominences := peak_prominences x peaks in
    let keep := select_by_property prominences prominence in
    Ok (select peaks keep).

End Scipy.

(* ================================================================== *)
(** ** pandas DataFrames of price bars, and the object store *)

(** The 'Signal' column holds 0.0 (valley, buy), 1.0 (neutral) or
    2.0 (peak, sell). *)
Inductive SignalValue : Type :=
| Buy      (* 0.0 *)
| Neutral  (* 1.0 *)
| Sell.    (* 2.0 *)

Definition SignalValue_eqb (a b : SignalValue) : bool :=
  match a, b with
  | Buy, Buy | Neutral, Neutral | Sell, Sell => true
  | _, _ => false
  end.

(** One row of the window. [bar_Others] stands for the remaining columns
    (Open, High, Low, Volume and the indicator columns). *)
Record Bar : Type := mkBar {
  bar_Time : Z;
  bar_Close : Q;
  bar_Signal : option SignalValue;
  bar_Others : list Q
}.

(** A frame: which of the columns 'Time' and 'Close' exist, and the rows.
    A frame without a 'Signal' column is one whose 'Signal' cells are all
    [None]. *)
Record DataFrame : Type := mkDataFrame {
  has_Time : bool;
  has_Close : bool;
  rows : list Bar
}.

Definition loc : Type := nat.
Definition heap : Type := list DataFrame.

Definition deref (h : heap) (l : loc) : option DataFrame := nth_error h l.

(** A new object gets the next free location. *)
Definition alloc (h : heap) (df : DataFrame) : heap * loc :=
  (h ++ [df], length h).

(** In-place update of the object at [l]. *)
Definition store (h : heap) (l : loc) (df : DataFrame) : heap :=
  set_nth h l df.

(** [df.copy()]. *)
Definition copy (h : heap) (l : loc) : result (heap * loc) :=
  match deref h l with
  | Some df => Ok (alloc h df)
  | None => Raise AttributeError
  end.

(** [df['Close']] and [df['Time']]. *)
Definition column_Close (df : DataFrame) : result (list Q) :=
  if has_Close df then Ok (map bar_Close (rows df)) else Raise KeyError.

Definition column_Time (df : DataFrame) : result (list Z) :=
  if has_Time df then Ok (map bar_Time (rows df)) else Raise KeyError.

(** [df.loc[i, 'Signal'] = v] for a label [i] of the index. *)
Definition set_Signal (b : Bar) (v : option SignalValue) : Bar :=
  mkBar (bar_Time b) (bar_Close b) v (bar_Others b).

Fixpoint loc_set_Signal_rows (rs : list Bar) (i : nat) (v : option SignalValue)
  : list Bar :=
  match rs, i with
  | [], _ => []
  | b :: t, O => set_Signal b v :: t
  | b :: t, S i' => b :: loc_set_Signal_rows t i' v
  end.

Definition loc_set_Signal (df : DataFrame) (i : nat) (v : option SignalValue)
  : DataFrame :=
  mkDataFrame (has_Time df) (has_Close df) (loc_set_Signal_rows (rows df) i v).

(* ================================================================== *)
(** ** src/core/utils.py: find_peaks_and_valleys *)

(** The function returns the whole signal array, or its last entry when
    [rolling] is set. *)
Inductive Signals : Type :=
| SignalArray (signal : list SignalValue)
| SignalLast (s : SignalValue).

(** [signal[indices] = v]. *)
Definition assign (signal : list SignalValue) (indices : list nat)
           (v : SignalValue) : list SignalValue :=
  fold_left (fun s i => set_nth s i v) indices signal.

(** Lines 96-98: neutral everywhere, then the peaks, then the valleys. *)
Definition signal_array (n : nat) (peak_indices valley_indices : list nat)
  : list SignalValue :=
  let signal := repeat Neutral n in
  let signal := assign signal peak_indices Sell in
  let signal := assign signal valley_indices Buy in
  signal.

(** The computation on the copied frame (lines 79-100). *)
Definition detect (df : DataFrame) (distance : Z) (prominence : Q)
           (rolling : bool) : result Signals :=
  match column_Close df with
  | Raise e => Raise e
  | Ok close =>
  match column_Time df with
  | Raise e => Raise e
  | Ok _ =>
  match MinMaxScaler.fit_transform close with
  | Raise e => Raise e
  | Ok close_scaled =>
  match Scipy.find_peaks close_scaled distance prominence with
  | Raise e => Raise e
  | Ok peak_indices =>
  match Scipy.find_peaks (map Qopp close_scaled) distance prominence with
  | Raise e => Raise e
  | Ok valley_indices =>
      let signal :=
        signal_array (length close_scaled) peak_indices valley_indices in
      if rolling then
        match rev signal with
        | s :: _ => Ok (SignalLast s)
        | [] => Raise IndexError
        end
      else Ok (SignalArray signal)
  end end end end end.

(** [df = df_window.copy()] allocates; everything else reads the copy. *)
Definition find_peaks_and_valleys (h : heap) (df_window : loc) (distance : Z)
           (prominence : Q) (rolling : bool) : heap * result Signals :=
  match copy h df_window with
  | Raise e => (h, Raise e)
  | Ok (h', df) =>
      match deref h' df with
      | Some d => (h', detect d distance prominence rolling)
      | None => (h', Raise AttributeError)
      end
  end.


(* ================================================================== *)
(** ** src/core/models.py: TradeModel *)

Inductive TradeType : Type := buy | sell.
Inductive Status : Type := open | closed.

(** A row of the frames [trades] and [current_trade]. The exit columns are
    NaN ([None]) until the trade is closed. *)
Record Trade : Type := mkTrade {
  type : TradeType;
  entry_date : option Z;
  entry_price : Q;
  status : Status;
  exit_date : option Z;
  exit_price : option Q;
  profit : option Q
}.

Record TradeModel : Type := mkTradeModel {
  trades : list Trade;
  current_trade : list Trade;
  current_date : option Z;
  data : option loc
}.

(** [TradeModel.__init__]. *)
Definition TradeModel_init : TradeModel := mkTradeModel [] [] None None.

Definition with_current_trade (m : TradeModel) (ct : list Trade) : TradeModel :=
  mkTradeModel (trades m) ct (current_date m) (data m).

(** [set_data]: [self.data = data.copy()]. *)
Definition set_data (h : heap) (m : TradeModel) (df : loc) : heap * TradeModel :=
  match copy h df with
  | Ok (h', l) =>
      (h', mkTradeModel (trades m) (current_trade m) (current_date m) (Some l))
  | Raise _ => (h, m)
  end.

Definition Time_is (date : option Z) (b : Bar) : bool :=
  match date with
  | Some d => (bar_Time b =? d)%Z
  | None => false
  end.

(** [self.data.loc[self.data['Time'] == date, 'Close'].iloc[0]]: the 'Close'
    of the first row whose 'Time' is [date]. A missing column is a KeyError,
    a missing row an IndexError. *)
Definition loc_Close_at (df : DataFrame) (date : option Z) : result Q :=
  if has_Time df then
    if has_Close df then
      match filter (Time_is date) (rows df) with
      | b :: _ => Ok (bar_Close b)
      | [] => Raise IndexError
      end
    else Raise KeyError
  else Raise KeyError.

(** [get_close_price]: IndexError and KeyError are caught and give [None];
    [self.data is None] escapes as an AttributeError. *)
Definition get_close_price (h : heap) (m : TradeModel) (date : option Z)
  : result (option Q) :=
  match data m with
  | None => Raise AttributeError
  | Some l =>
      match deref h l with
      | None => Raise AttributeError
      | Some df =>
          match loc_Close_at df date with
          | Ok price => Ok (Some price)
          | Raise IndexError => Ok None
          | Raise KeyError => Ok None
          | Raise e => Raise e
          end
      end
  end.

(* ================================================================== *)
(** ** src/core/controllers.py: TradeController *)

Definition set_current_date (m : TradeModel) (date : Z) : TradeModel :=
  mkTradeModel (trades m) (current_trade m) (Some date) (data m).

Definition is_empty {A : Type} (l : list A) : bool :=
  match l with [] => true | _ => false end.

Definition is_open (t : Trade) : bool :=
  match status t with open => true | closed => false end.

(** Lines 77-81: the row of [current_trade] after the exit columns are set. *)
Definition closed_row (t : Trade) (date : option Z) (exit : Q) : Trade :=
  let pnl :=
    match type t with
    | buy => (exit - entry_price t)%Q
    | sell => (entry_price t - exit)%Q
    end in
  mkTrade (type t) (entry_date t) (entry_price t) closed
          date (Some exit) (Some pnl).

(** [close_trade]. Every exception is caught and printed, which leaves the
    model as it was. *)
Definition close_trade (h : heap) (m : TradeModel) : TradeModel :=
  match current_trade m with
  | t0 :: rest =>
      if is_open t0 then
        match get_close_price h m (current_date m) with
        | Ok (Some exit) =>
            mkTradeModel
              (trades m ++ closed_row t0 (current_date m) exit :: rest)
              [] (current_date m) (data m)
        | Ok None => m
        | Raise _ => m
        end
      else m
  | [] => m
  end.

Definition opened_row (ty : TradeType) (date : option Z) (price : Q) : Trade :=
  mkTrade ty date price open None None None.

Definition open_trade (ty : TradeType) (h : heap) (m : TradeModel)
  : TradeModel :=
  let m := if negb (is_empty (current_trade m)) then close_trade h m else m in
  match get_close_price h m (current_date m) with
  | Ok (Some entry) =>
      with_current_trade m [opened_row ty (current_date m) entry]
  | Ok None => m
  | Raise _ => m
  end.

(** [buy_trade] and [sell_trade] differ in the 'type' written only. *)
Definition buy_trade : heap -> TradeModel -> TradeModel := open_trade buy.
Definition sell_trade : heap -> TradeModel -> TradeModel := open_trade sell.

(** [frame.iloc[-1]]. *)
Definition iloc_last {A : Type} (l : list A) : option A :=
  match rev l with
  | a :: _ => Some a
  | [] => None
  end.

(** Line 114. *)
Definition latest_trade_date (m : TradeModel) : option Z :=
  match iloc_last (current_trade m) with
  | Some t => entry_date t
  | None => None
  end.

(** Rows paired with their index label. *)
Definition indexed (rs : list Bar) : list (nat * Bar) :=
  combine (seq 0 (length rs)) rs.

(** Line 116; a [latest_trade_date] of [None] is falsy. *)
Definition signals_since_last_trade (rs : list Bar)
           (latest_trade_date : option Z) (current_date : Z)
  : list (nat * Bar) :=
  match latest_trade_date with
  | Some d =>
      filter (fun ib => (d <? bar_Time (snd ib))%Z
                        && (bar_Time (snd ib) <=? current_date)%Z)
             (indexed rs)
  | None =>
      filter (fun ib => (bar_Time (snd ib) <=? current_date)%Z) (indexed rs)
  end.

(** Line 117: [Signal.isin([0.0, 2.0])]. *)
Definition isin_0_2 (c : option SignalValue) : bool :=
  match c with
  | Some Buy | Some Sell => true
  | _ => false
  end.

Definition valid_signals (l : list (nat * Bar)) : list (nat * Bar) :=
  filter (fun ib => isin_0_2 (bar_Signal (snd ib))) l.

(** Lines 126-142. *)
Definition trade_on_signal (h : heap) (m : TradeModel)
           (new_signal : option SignalValue) (recent_signal_condition : bool)
  : TradeModel :=
  match new_signal with
  | None => m
  | Some Neutral => m
  | Some s =>
      let reopen (m : TradeModel) :=
        if SignalValue_eqb s Buy && recent_signal_condition then buy_trade h m
        else if SignalValue_eqb s Sell && recent_signal_condition
             then sell_trade h m
             else m in
      match iloc_last (current_trade m) with
      | Some t =>
          let current_trade_type := type t in
          match s, current_trade_type with
          | Buy, buy => m
          | Sell, sell => m
          | _, _ => reopen (close_trade h m)
          end
      | None => reopen m
      end
  end.

(** Lines 113-142, on the window as it is after line 112. *)
Definition trade_on_window (h : heap) (m : TradeModel) (rs : list Bar)
           (current_date : Z) (furthest_index : Z) : TradeModel :=
  let since :=
    signals_since_last_trade rs (latest_trade_date m) current_date in
  let valid := valid_signals since in
  match iloc_last valid with
  | None => m
  | Some (signal_index, b) =>
      let new_signal := bar_Signal b in
      let index_difference :=
        (Z.of_nat (length rs - 1) - Z.of_nat signal_index)%Z in
      let recent_signal_condition := (index_difference <=? furthest_index)%Z in
      trade_on_signal h m new_signal recent_signal_condition
  end.

(** Line 112: [df.loc[len(df) - 1, 'Signal'] = current_signal], a write
    into the caller's object. *)
Definition write_last_Signal (h : heap) (df : loc) (v : option SignalValue)
  : heap :=
  match deref h df with
  | Some d => store h df (loc_set_Signal d (length (rows d) - 1) v)
  | None => h
  end.

(** [auto_trade]. The argument [current_datetime] is not read: the current
    date is the 'Time' of the window's last row. An exception anywhere
    ends the call with what was done so far. *)
Definition auto_trade (h : heap) (m : TradeModel) (df : loc)
           (current_datetime : Z) (furthest_index : Z) (peaks_distance : Z)
           (peaks_prominence : Q) : heap * TradeModel :=
  let (h, m) := set_data h m df in
  match deref h df with
  | None => (h, m)
  | Some d0 =>
      match iloc_last (rows d0) with
      | None => (h, m)
      | Some new_data_point =>
          match find_peaks_and_valleys h df peaks_distance peaks_prominence
                                       true with
          | (h, Ok (SignalLast current_signal)) =>
              let h := write_last_Signal h df (Some current_signal) in
              let current_date := bar_Time new_data_point in
              match deref h df with
              | Some d =>
                  (h, trade_on_window h m (rows d) current_date furthest_index)
              | None => (h, m)
              end
          | (h, Ok (SignalArray _)) => (h, m)
          | (h, Raise _) => (h, m)
          end
      end
  end.

(** *** The operator's commands and the replay driver *)

Inductive Op : Type :=
| OpSetCurrentDate (date : Z)
| OpBuy
| OpSell
| OpClose
| OpAutoTrade (window : DataFrame) (current_datetime furthest_index
               peaks_distance : Z) (peaks_prominence : Q).

(** The driver hands [auto_trade] a fresh window
    ([self.df.tail(50).copy().reset_index(drop=True)]). *)
Definition step (s : heap * TradeModel) (op : Op) : heap * TradeModel :=
  let (h, m) := s in
  match op with
  | OpSetCurrentDate date => (h, set_current_date m date)
  | OpBuy => (h, buy_trade h m)
  | OpSell => (h, sell_trade h m)
  | OpClose => (h, close_trade h m)
  | OpAutoTrade window cd fi pd pp =>
      let (h1, l) := alloc h window in
      auto_trade h1 m l cd fi pd pp
  end.

Definition run (ops : list Op) : heap * TradeModel :=
  fold_left step ops ([], TradeModel_init).

(** The positions whose status is 'open', live or in the ledger. *)
Definition open_positions (m : TradeModel) : list Trade :=
  filter is_open (current_trade m ++ trades m).

(** The boundary as the specification words it: the entry time of the
    most recent trade ever opened, still open or already closed. *)
Definition spec_last_trade_time (m : TradeModel) : option Z :=
  match iloc_last (current_trade m) with
  | Some t => entry_date t
  | None =>
      match iloc_last (trades m) with
      | Some t => entry_date t
      | None => None
      end
  end.

(** The window of six bars at times 0..5 used in the examples: a spike at
    index 3, already marked as a sell signal. *)
Definition spike_window : DataFrame :=
  mkDataFrame true true
    [ mkBar 0 1 (Some Neutral) []; mkBar 1 1 (Some Neutral) [];
      mkBar 2 1 (Some Neutral) []; mkBar 3 2 (Some Sell) [];
      mkBar 4 1 (Some Neutral) []; mkBar 5 1 (Some Neutral) [] ].

(* ================================================================== *)
(** ** Notions used in the statements *)

(** What a midpoint returned by [_local_maxima_1d] is: a position inside a
    flat run [l..r] that is entered by a strict rise and left by a strict
    fall. *)
Definition plateau_max (x : list Q) (m : nat) : Prop :=
  exists l r : nat,
    1 <= l /\ l <= m /\ m <= r /\
    (nthQ x (l - 1) < nthQ x l)%Q /\
    (forall k : nat, l <= k <= r -> (nthQ x k == nthQ x l)%Q) /\
    (nthQ x (S r) < nthQ x l)%Q.

(** The shape every reachable model has: [current_trade] holds at most one
    row, which is 'open', and every ledger row is 'closed'. *)
Definition well_formed (m : TradeModel) : Prop :=
  length (current_trade m) <= 1
  /\ Forall (fun t => status t = open) (current_trade m)
  /\ Forall (fun t => status t = closed) (trades m).

(** The ledger of [m'] extends the ledger of [m]. *)
Definition ledger_extends (m m' : TradeModel) : Prop :=
  exists added : list Trade, trades m' = trades m ++ added.

(** The caller's frame after the call: the frame as passed, with the
    signal written when the window has a row and the detector returned. *)
Definition window_after (df : DataFrame) (dist : Z) (prom : Q) : DataFrame :=
  match iloc_last (rows df), detect df dist prom true with
  | Some _, Ok (SignalLast s) =>
      loc_set_Signal df (length (rows df) - 1) (Some s)
  | _, _ => df
  end.

(** Three bars at times 1, 2, 3 closing at 1.2500, 1.2550 and 1.2480, with
    no signal marked. *)
Definition price_window : DataFrame :=
  mkDataFrame true true
    [ mkBar 1 1.2500 None []; mkBar 2 1.2550 None [];
      mkBar 3 1.2480 None [] ].

(** A ledger row as [close_trade] leaves it: 'closed', with an exit price
    and the profit that goes with the type. *)
Definition ledger_row_ok (t : Trade) : Prop :=
  status t = closed
  /\ exists exit : Q,
      exit_price t = Some exit
      /\ profit t = Some (match type t with
                          | buy => exit - entry_price t
                          | sell => entry_price t - exit
                          end)%Q.

(** A live row as [buy_trade] and [sell_trade] make it: 'open', with its
    exit columns still empty. *)
Definition live_row_ok (t : Trade) : Prop :=
  status t = open /\ exit_date t = None /\ exit_price t = None
  /\ profit t = None.

(* ================================================================== *)
(** ** src/core/utils.py: the indicator functions *)

(** A pandas Series of floats on the default index: [None] is NaN. *)
Definition Series : Type := list (option Q).

(** [x.shift(n)]: the value [n] rows earlier (later, for a negative [n]),
    NaN where there is none. *)
Definition shift (x : Series) (n : Z) : Series :=
  map (fun i : nat =>
         let j := (Z.of_nat i - n)%Z in
         if (0 <=? j)%Z && (j <? Z.of_nat (length x))%Z
         then nth (Z.to_nat j) x None
         else None)
      (seq 0 (length x)).

(** A comparison with NaN is False. *)
Definition cell_lt (a b : option Q) : bool :=
  match a, b with
  | Some u, Some v => Qltb u v
  | _, _ => false
  end.

Definition cell_gt (a b : option Q) : bool := cell_lt b a.

(** An element-wise operation on two Series; pandas refuses to compare
    Series whose labels differ. *)
Fixpoint zip_with {A B C : Type} (f : A -> B -> C) (x : list A) (y : list B)
  : list C :=
  match x, y with
  | a :: x', b :: y' => f a b :: zip_with f x' y'
  | _, _ => []
  end.

Definition series_op {A B : Type} (f : A -> A -> B) (x y : list A)
  : result (list B) :=
  if length x =? length y then Ok (zip_with f x y) else Raise ValueError.

(** [crossover]: [(x > y) & (x.shift(s) < y.shift(s))], with [s = 1] when
    [cross_distance] is [None]. *)
Definition crossover (x y : Series) (cross_distance : option Z)
  : result (list bool) :=
  let shift_value := match cross_distance with
                     | None => 1%Z
                     | Some d => d
                     end in
  match series_op cell_gt x y with
  | Raise e => Raise e
  | Ok now =>
      match series_op cell_lt (shift x shift_value) (shift y shift_value) with
      | Raise e => Raise e
      | Ok before => series_op andb now before
      end
  end.

(** [crossunder]: [(x < y) & (x.shift(s) > y.shift(s))]. *)
Definition crossunder (x y : Series) (cross_distance : option Z)
  : result (list bool) :=
  let shift_value := match cross_distance with
                     | None => 1%Z
                     | Some d => d
                     end in
  match series_op cell_lt x y with
  | Raise e => Raise e
  | Ok now =>
      match series_op cell_gt (shift x shift_value) (shift y shift_value) with
      | Raise e => Raise e
      | Ok before => series_op andb now before
      end
  end.

(** The shift that [crossover] and [crossunder] use. *)
Definition shift_value_of (cross_distance : option Z) : Z :=
  match cross_distance with
  | None => 1%Z
  | Some d => d
  end.

(** *** handle_nan *)

(** A frame of float cells, row by row; pandas frames are rectangular. *)
Definition Cells : Type := list (list (option Q)).

Definition rectangular (w : nat) (df : Cells) : Prop :=
  Forall (fun r => length r = w) df.

Definition is_valid (c : option Q) : bool :=
  match c with Some _ => true | None => false end.

Definition complete (r : list (option Q)) : bool := forallb is_valid r.

(** A NaN cell takes the last valid value above it, if there is one. *)
Definition fill_cell (prev cur : option Q) : option Q :=
  match cur with
  | Some v => Some v
  | None => prev
  end.

Fixpoint fill_row (prev cur : list (option Q)) : list (option Q) :=
  match cur with
  | [] => []
  | c :: cur' => fill_cell (hd None prev) c :: fill_row (tl prev) cur'
  end.

Fixpoint ffill_from (prev : list (option Q)) (df : Cells) : Cells :=
  match df with
  | [] => []
  | r :: df' => let r' := fill_row prev r in r' :: ffill_from r' df'
  end.

(** [df.ffill()]. *)
Definition ffill (df : Cells) : Cells := ffill_from [] df.

(** [df.dropna()]: the rows without NaN. *)
Definition dropna (df : Cells) : Cells := filter complete df.

(** [handle_nan]: forward fill, drop what is still incomplete, renumber. *)
Definition handle_nan (df : Cells) : Cells := dropna (ffill df).

(** *** Exponentially weighted means, MACD and RSI *)

(** pandas' [get_center_of_mass]: the decay given as [com] must not be
    negative, given as [span] it must be at least 1 and stands for the
    centre of mass [(span - 1) / 2]. *)
Definition com_of_com (comass : Q) : result Q :=
  if Qltb comass 0 then Raise ValueError else Ok comass.

Definition com_of_span (span : Z) : result Q :=
  if (span <? 1)%Z then Raise ValueError
  else Ok ((inject_Z span - 1) / 2)%Q.

(** [ewm(..., adjust=False).mean()] on a series without NaN: the first
    value is kept, and each later one is
    [(1 - alpha) * previous + alpha * current] with
    [alpha = 1 / (1 + com)]. *)
Fixpoint ewm_from (alpha weighted : Q) (xs : list Q) : list Q :=
  match xs with
  | [] => []
  | cur :: xs' =>
      let weighted' := ((1 - alpha) * weighted + alpha * cur)%Q in
      weighted' :: ewm_from alpha weighted' xs'
  end.

Definition ewm_mean (com : Q) (xs : list Q) : list Q :=
  match xs with
  | [] => []
  | x0 :: xs' => x0 :: ewm_from (1 / (1 + com))%Q x0 xs'
  end.

(** [macd_features]; it works on a copy of [df], whose 'Close' holds
    numbers. *)
Definition macd_features (df : DataFrame)
    (short_window long_window signal_window : Z) : result (list Q) :=
  match column_Close df with
  | Raise e => Raise e
  | Ok Close =>
      match com_of_span short_window with
      | Raise e => Raise e
      | Ok c_short =>
          let Short_EMA := ewm_mean c_short Close in
          match com_of_span long_window with
          | Raise e => Raise e
          | Ok c_long =>
              let Long_EMA := ewm_mean c_long Close in
              let MACD_ := zip_with Qminus Short_EMA Long_EMA in
              match com_of_span signal_window with
              | Raise e => Raise e
              | Ok c_signal => Ok (ewm_mean c_signal MACD_)
              end
          end
      end
  end.

(** [price_data.diff()]: NaN first, then each value minus the one before. *)
Fixpoint diff_from (prev : Q) (xs : list Q) : Series :=
  match xs with
  | [] => []
  | x :: xs' => Some (x - prev)%Q :: diff_from x xs'
  end.

Definition diff (price_data : list Q) : Series :=
  match price_data with
  | [] => []
  | x0 :: xs => None :: diff_from x0 xs
  end.

(** [delta.where(delta > 0, 0)] and [-delta.where(delta < 0, 0)]: the cell
    is kept where the comparison holds and replaced by 0 elsewhere; a
    comparison with NaN is false, so no NaN is left. *)
Definition gain_of (d : option Q) : Q :=
  if cell_gt d (Some 0%Q) then match d with Some v => v | None => 0%Q end
  else 0%Q.

Definition loss_of (d : option Q) : Q :=
  (- (if cell_lt d (Some 0%Q) then match d with Some v => v | None => 0%Q end
      else 0%Q))%Q.

(** Float results that need not be finite.  [Inf] is an infinity of either
    sign: it only arises from a division by a zero, whose sign the
    rationals do not record, and the operations below treat both signs
    alike. *)
Inductive xfloat : Type :=
| Fin (q : Q)
| Inf
| NaN.

(** [a / b] on floats. *)
Definition xdiv (a b : Q) : xfloat :=
  if Qeq_bool b 0 then (if Qeq_bool a 0 then NaN else Inf)
  else Fin (a / b)%Q.

(** [c + v], [c / v] and [c - v] for a finite [c]. *)
Definition add_const (c : Q) (v : xfloat) : xfloat :=
  match v with
  | Fin q => Fin (c + q)%Q
  | Inf => Inf
  | NaN => NaN
  end.

Definition div_const (c : Q) (v : xfloat) : xfloat :=
  match v with
  | Fin q => xdiv c q
  | Inf => Fin 0%Q
  | NaN => NaN
  end.

Definition sub_const (c : Q) (v : xfloat) : xfloat :=
  match v with
  | Fin q => Fin (c - q)%Q
  | Inf => Inf
  | NaN => NaN
  end.

Definition rsi_features (price_data : list Q) (period : Z)
  : result (list xfloat) :=
  let delta := diff price_data in
  let gain := map gain_of delta in
  let loss := map loss_of delta in
  match com_of_com (inject_Z period - 1)%Q with
  | Raise e => Raise e
  | Ok com =>
      let avg_gain := ewm_mean com gain in
      let avg_loss := ewm_mean com loss in
      let rs := zip_with xdiv avg_gain avg_loss in
      Ok (map (fun r => sub_const 100 (div_const 100 (add_const 1 r))) rs)
  end.

(** *** The replay driver's call (plot_view.py, [increment_plot]) *)

(** [df.tail(n)]: the last [n] rows, all of them when there are fewer. *)
Definition tail (n : nat) (rs : list Bar) : list Bar :=
  skipn (length rs - n) rs.

(** The last step of [increment_plot], on the frame [self.df] that the
    step before has built: when auto trading is on and some row of
    [self.df] carries [current_datetime], [auto_trade] is called with its
    default parameters on a fresh copy of the last 50 rows.  A missing
    'Time' column raises KeyError, which the callback catches. *)
Definition increment_plot_auto_trade (h : heap) (m : TradeModel)
           (self_df : DataFrame) (auto_trade_on : bool)
           (current_datetime : Z) : heap * TradeModel :=
  if auto_trade_on then
    match column_Time self_df with
    | Raise _ => (h, m)
    | Ok Time =>
        let new_data_point_empty :=
          negb (existsb (Z.eqb current_datetime) Time) in
        if new_data_point_empty then (h, m)
        else
          let df_window :=
            mkDataFrame (has_Time self_df) (has_Close self_df)
                        (tail 50 (rows self_df)) in
          let (h1, l) := alloc h df_window in
          auto_trade h1 m l current_datetime 100 5 0.1%Q
    end
  else (h, m).

(** *** ConfigManager (src/data/config_manager.py) *)

(** JSON values as [json.load] returns them; an object is a [dict], kept
    here in insertion order. *)
#[warnings="-register-all"] Inductive json : Type :=
| JNull
| JBool (b : bool)
| JNumber (n : Q)
| JString (s : string)
| JArray (items : list json)
| JObject (fields : list (string * json)).

(** What is at [config_path]: no file, a file that cannot be read as JSON
    (an empty file is one), or a file holding a JSON value; [json.dump]
    followed by [json.load] gives the value back. *)
Inductive file : Type :=
| Absent
| Unreadable
| Holds (v : json).

(** [d.get(k)] and [d[k] = v] on a dict. *)
Fixpoint dict_get (d : list (string * json)) (k : string) : option json :=
  match d with
  | [] => None
  | (k', v) :: d' => if String.eqb k' k then Some v else dict_get d' k
  end.

Fixpoint dict_set (d : list (string * json)) (k : string) (v : json)
  : list (string * json) :=
  match d with
  | [] => [(k, v)]
  | (k', v') :: d' =>
      if String.eqb k' k then (k, v) :: d' else (k', v') :: dict_set d' k v
  end.

(** [s.startswith(p)] and POSIX [os.path.join] of two components. *)
Definition startswith (s p : string) : bool := String.prefix p s.

Fixpoint endswith_sep (s : string) : bool :=
  match s with
  | EmptyString => false
  | String c EmptyString => Ascii.eqb c "/"%char
  | String _ s' => endswith_sep s'
  end.

Definition os_path_join (a b : string) : string :=
  if startswith b "/" then b
  else if String.eqb a "" || endswith_sep a then String.append a b
       else String.append a (String.append "/" b).

(** [_load_config]: the value in the file, or the default dict when there
    is no file or reading it raises. *)
Definition _load_config (f : file) : json :=
  match f with
  | Holds v => v
  | Absent => JObject [("data_path"%string,
                        JString "src/data/GBP_USD_M15.pkl")]
  | Unreadable => JObject [("data_path"%string,
                            JString "src/data/GBP_USD_M15.pkl")]
  end.

(** [get_data_path]: [self.config.get("data_path", default)]; only a dict
    has [get]. *)
Definition get_data_path (config : json) : result json :=
  match config with
  | JObject d =>
      Ok (match dict_get d "data_path" with
          | Some v => v
          | None => JString "src/data/GBP_USD_M15.pkl"
          end)
  | _ => Raise AttributeError
  end.

(** [save_config].  Opening the file for writing empties it; when [open]
    fails nothing is changed.  Assigning into a config that is not a dict
    raises TypeError, which is caught with the file left empty. *)
Definition save_config (writable : bool) (config : json) (f : file)
           (data_path : string) : json * file :=
  if writable then
    let data_path :=
      if negb (startswith data_path "src" || startswith data_path "..")
      then os_path_join "src" data_path
      else data_path in
    match config with
    | JObject d =>
        let config := JObject (dict_set d "data_path" (JString data_path)) in
        (config, Holds config)
    | _ => (config, Unreadable)
    end
  else (config, f).

(* ================================================================== *)
(** * Properties *)

(** ** Rational comparison *)

Lemma Qltb_lt (a b : Q) : Qltb a b = true <-> (a < b)%Q.
Proof.
  unfold Qltb. rewrite negb_true_iff. split; intro H.
  - destruct (Qlt_le_dec a b) as [L | L]; [exact L |].
    apply Qle_bool_iff in L. congruence.
  - destruct (Qle_bool b a) eqn:E; [| reflexivity].
    apply Qle_bool_iff in E. exfalso. exact (Qlt_not_le _ _ H E).
Qed.

(** ** The object store *)

Lemma deref_Some_lt (h : heap) (l : loc) (df : DataFrame) :
  deref h l = Some df -> l < length h.
Proof.
  unfold deref. intro H. apply nth_error_Some. congruence.
Qed.

Lemma deref_app_old (h : heap) (l : loc) (df : DataFrame) :
  l < length h -> deref (h ++ [df]) l = deref h l.
Proof.
  unfold deref. intro H. now apply nth_error_app1.
Qed.

Lemma deref_app_new (h : heap) (df : DataFrame) :
  deref (h ++ [df]) (length h) = Some df.
Proof.
  unfold deref. rewrite nth_error_app2 by lia. now rewrite Nat.sub_diag.
Qed.

Lemma length_set_nth {A : Type} (a : list A) (i : nat) (v : A) :
  length (set_nth a i v) = length a.
Proof.
  revert i. induction a as [| x a IH]; intros [| i]; simpl; auto.
Qed.

Lemma nth_error_set_nth_same {A : Type} (a : list A) (i : nat) (v : A) :
  i < length a -> nth_error (set_nth a i v) i = Some v.
Proof.
  revert i. induction a as [| x a IH]; intros [| i]; simpl; intro H;
    try lia; auto. apply IH. lia.
Qed.

Lemma nth_error_set_nth_other {A : Type} (a : list A) (i j : nat) (v : A) :
  i <> j -> nth_error (set_nth a i v) j = nth_error a j.
Proof.
  revert i j. induction a as [| x a IH]; intros [| i] [| j]; simpl; intro H;
    auto; try congruence.
Qed.

Lemma deref_store_same (h : heap) (l : loc) (df : DataFrame) :
  l < length h -> deref (store h l df) l = Some df.
Proof. apply nth_error_set_nth_same. Qed.

Lemma deref_store_other (h : heap) (l l' : loc) (df : DataFrame) :
  l <> l' -> deref (store h l df) l' = deref h l'.
Proof. apply nth_error_set_nth_other. Qed.

(** The detector allocates its private copy and computes on it. *)
Lemma find_peaks_and_valleys_eq (h : heap) (l : loc) (df : DataFrame)
      (distance : Z) (prominence : Q) (rolling : bool) :
  deref h l = Some df ->
  find_peaks_and_valleys h l distance prominence rolling
  = (h ++ [df], detect df distance prominence rolling).
Proof.
  intro H. unfold find_peaks_and_valleys, copy, alloc. rewrite H.
  now rewrite deref_app_new.
Qed.

Lemma set_data_eq (h : heap) (m : TradeModel) (l : loc) (df : DataFrame) :
  deref h l = Some df ->
  set_data h m l
  = (h ++ [df],
     mkTradeModel (trades m) (current_trade m) (current_date m)
                  (Some (length h))).
Proof.
  intro H. unfold set_data, copy, alloc. now rewrite H.
Qed.

(** ** The detector on the spike scenario (C9) *)

(** C9. For every window whose closes are [1.0, 1.0, 1.0, 2.0, 1.0, 1.0],
    the detector run with [distance = 1] and [prominence = 0.1] marks
    index 3 as a sell signal and every other index as neutral, so no index
    is a buy signal. *)
Theorem spike_scenario_detect :
  forall (h : heap) (l : loc) (df : DataFrame),
    deref h l = Some df ->
    has_Time df = true ->
    has_Close df = true ->
    map bar_Close (rows df) = [1; 1; 1; 2; 1; 1]%Q ->
    snd (find_peaks_and_valleys h l 1 0.1%Q false)
    = Ok (SignalArray [Neutral; Neutral; Neutral; Sell; Neutral; Neutral]).
Proof.
  intros h l df Hl HT HC Hcl.
  rewrite find_peaks_and_valleys_eq with (df := df) by assumption.
  simpl snd.
  unfold detect, column_Close, column_Time. rewrite HT, HC, Hcl.
  vm_compute. reflexivity.
Qed.

Lemma spike_scenario_detect_witness :
  snd (find_peaks_and_valleys [spike_window] 0 1 0.1%Q false)
  = Ok (SignalArray [Neutral; Neutral; Neutral; Sell; Neutral; Neutral]).
Proof.
  apply (@spike_scenario_detect [spike_window] 0 spike_window);
    reflexivity.
Defined.

(** ** Peaks and valleys never share an index (C8) *)

Lemma look_ahead_spec (x : list Q) (xi : Q) (i_max : nat) :
  forall (fuel a : nat),
    a <= Scipy.look_ahead fuel x xi a i_max /\
    forall k : nat,
      a <= k < Scipy.look_ahead fuel x xi a i_max -> (nthQ x k == xi)%Q.
Proof.
  induction fuel as [| fuel IH]; intro a; simpl.
  - split; [lia | intros k Hk; lia].
  - destruct ((a <? i_max) && Qeq_bool (nthQ x a) xi) eqn:E.
    + apply andb_true_iff in E. destruct E as [_ E].
      apply Qeq_bool_iff in E.
      destruct (IH (S a)) as [Hle Heq]. split; [lia |].
      intros k Hk. destruct (Nat.eq_dec k a) as [-> | Hne]; [exact E |].
      apply Heq. lia.
    + split; [lia | intros k Hk; lia].
Qed.

(** The loops are given enough fuel: each one stops because its own
    condition fails, and more fuel changes nothing. *)
Lemma look_ahead_exit (x : list Q) (xi : Q) (i_max : nat) :
  forall (fuel a : nat),
    i_max - a <= fuel ->
    (Scipy.look_ahead fuel x xi a i_max <? i_max)
    && Qeq_bool (nthQ x (Scipy.look_ahead fuel x xi a i_max)) xi = false.
Proof.
  induction fuel as [| fuel IH]; intros a Ha; simpl.
  - replace (a <? i_max) with false; [reflexivity |].
    symmetry. apply Nat.ltb_ge. lia.
  - destruct ((a <? i_max) && Qeq_bool (nthQ x a) xi) eqn:E.
    + apply IH. lia.
    + exact E.
Qed.

Lemma local_maxima_loop_fuel (x : list Q) (i_max : nat) :
  forall (fuel fuel' i : nat),
    i_max - i <= fuel -> i_max - i <= fuel' ->
    Scipy.local_maxima_loop fuel x i i_max
    = Scipy.local_maxima_loop fuel' x i i_max.
Proof.
  induction fuel as [| fuel IH]; intros fuel' i H H'.
  - destruct fuel' as [| fuel']; simpl; [reflexivity |].
    replace (i <? i_max) with false; [reflexivity |].
    symmetry. apply Nat.ltb_ge. lia.
  - destruct fuel' as [| fuel']; simpl.
    + replace (i <? i_max) with false; [reflexivity |].
      symmetry. apply Nat.ltb_ge. lia.
    + destruct (i <? i_max); [| reflexivity].
      destruct (Qltb (nthQ x (i - 1)) (nthQ x i)).
      * pose proof (look_ahead_spec x (nthQ x i) i_max (i_max - S i) (S i))
          as [Hle _].
        destruct (Qltb _ (nthQ x i)).
        -- f_equal. apply IH; lia.
        -- apply IH; lia.
      * apply IH; lia.
Qed.

Lemma flag_later_fuel (peaks : list nat) (distance_ : Z) (j : nat) :
  forall (fuel fuel' k : nat) (keep : list bool),
    length peaks - k <= fuel -> length peaks - k <= fuel' ->
    Scipy.flag_later fuel peaks distance_ j k keep
    = Scipy.flag_later fuel' peaks distance_ j k keep.
Proof.
  induction fuel as [| fuel IH]; intros fuel' k keep H H'.
  - destruct fuel' as [| fuel']; simpl; [reflexivity |].
    replace (k <? length peaks) with false; [reflexivity |].
    symmetry. apply Nat.ltb_ge. lia.
  - destruct fuel' as [| fuel']; simpl.
    + replace (k <? length peaks) with false; [reflexivity |].
      symmetry. apply Nat.ltb_ge. lia.
    + destruct ((k <? length peaks) && _); [| reflexivity].
      apply IH; lia.
Qed.

Lemma right_min_scan_fuel (x : list Q) (xpeak : Q) :
  forall (fuel fuel' i : nat) (right_min : Q),
    length x - i <= fuel -> length x - i <= fuel' ->
    Scipy.right_min_scan fuel x xpeak i right_min
    = Scipy.right_min_scan fuel' x xpeak i right_min.
Proof.
  induction fuel as [| fuel IH]; intros fuel' i right_min H H'.
  - destruct fuel' as [| fuel']; simpl; [reflexivity |].
    replace (i <? length x) with false; [reflexivity |].
    symmetry. apply Nat.ltb_ge. lia.
  - destruct fuel' as [| fuel']; simpl.
    + replace (i <? length x) with false; [reflexivity |].
      symmetry. apply Nat.ltb_ge. lia.
    + destruct ((i <? length x) && _); [| reflexivity].
      apply IH; lia.
Qed.

Lemma local_maxima_loop_plateau (x : list Q) (i_max : nat) :
  forall (fuel i m : nat),
    1 <= i ->
    In m (Scipy.local_maxima_loop fuel x i i_max) ->
    plateau_max x m.
Proof.
  induction fuel as [| fuel IH]; intros i m Hi Hin; simpl in Hin.
  - contradiction.
  - destruct (i <? i_max); [| contradiction].
    destruct (Qltb (nthQ x (i - 1)) (nthQ x i)) eqn:Erise.
    + set (ia := Scipy.look_ahead (i_max - S i) x (nthQ x i) (S i) i_max)
        in *.
      destruct (Qltb (nthQ x ia) (nthQ x i)) eqn:Efall.
      * destruct (look_ahead_spec x (nthQ x i) i_max (i_max - S i) (S i))
          as [Hle Heq]. fold ia in Hle, Heq.
        destruct Hin as [<- | Hin].
        -- exists i, (ia - 1).
           apply Qltb_lt in Erise. apply Qltb_lt in Efall.
           assert (Hmid : i <= (i + (ia - 1)) / 2 <= ia - 1).
           { split.
             - apply Nat.div_le_lower_bound; lia.
             - apply Nat.Div0.div_le_upper_bound; lia. }
           split; [exact Hi |].
           split; [apply Hmid |].
           split; [apply Hmid |].
           split; [exact Erise |].
           split.
           ++ intros k Hk. destruct (Nat.eq_dec k i) as [-> | Hne].
              ** reflexivity.
              ** apply Heq. lia.
           ++ replace (S (ia - 1)) with ia by lia. exact Efall.
        -- apply (IH (S ia) m); [lia | exact Hin].
      * apply (IH (S i) m); [lia | exact Hin].
    + apply (IH (S i) m); [lia | exact Hin].
Qed.

Lemma In_select {A : Type} (a : list A) (keep : list bool) (v : A) :
  In v (select a keep) -> In v a.
Proof.
  revert keep. induction a as [| x a IH]; intros [| b keep]; simpl;
    try contradiction.
  destruct b; simpl; intros H.
  - destruct H as [-> | H]; [now left | right; eauto].
  - right; eauto.
Qed.

(** Every index that [find_peaks] returns is a midpoint of a plateau: the
    distance and prominence conditions only remove candidates. *)
Lemma find_peaks_plateau (x : list Q) (distance : Z) (prominence : Q)
      (peaks : list nat) (m : nat) :
  Scipy.find_peaks x distance prominence = Ok peaks ->
  In m peaks ->
  plateau_max x m.
Proof.
  unfold Scipy.find_peaks. destruct (distance <? 1)%Z; [discriminate |].
  intros H Hin. injection H as <-.
  apply In_select in Hin. apply In_select in Hin.
  unfold Scipy.local_maxima_1d in Hin.
  eapply local_maxima_loop_plateau; [| exact Hin]. lia.
Qed.

Lemma look_ahead_le (x : list Q) (xi : Q) (i_max : nat) :
  forall (fuel a : nat),
    a <= i_max -> Scipy.look_ahead fuel x xi a i_max <= i_max.
Proof.
  induction fuel as [| fuel IH]; intros a Ha; simpl; [exact Ha |].
  destruct (a <? i_max) eqn:E; simpl; [| exact Ha].
  apply Nat.ltb_lt in E.
  destruct (Qeq_bool (nthQ x a) xi); [| exact Ha].
  apply IH. lia.
Qed.

Lemma local_maxima_loop_lt (x : list Q) (i_max : nat) :
  forall (fuel i m : nat),
    In m (Scipy.local_maxima_loop fuel x i i_max) -> m < i_max.
Proof.
  induction fuel as [| fuel IH]; intros i m Hin; simpl in Hin.
  - contradiction.
  - destruct (i <? i_max) eqn:Ei; [| contradiction].
    apply Nat.ltb_lt in Ei.
    destruct (Qltb (nthQ x (i - 1)) (nthQ x i)); [| now apply IH in Hin].
    set (ia := Scipy.look_ahead (i_max - S i) x (nthQ x i) (S i) i_max)
      in *.
    destruct (Qltb (nthQ x ia) (nthQ x i)); [| now apply IH in Hin].
    destruct Hin as [<- | Hin]; [| now apply IH in Hin].
    pose proof (look_ahead_le x (nthQ x i) (i_max - S i) (a := S i) Ei)
      as Hle. fold ia in Hle.
    destruct (look_ahead_spec x (nthQ x i) i_max (i_max - S i) (S i))
      as [Hge _]. fold ia in Hge.
    assert ((i + (ia - 1)) / 2 <= ia - 1)
      by (apply Nat.Div0.div_le_upper_bound; lia).
    apply Nat.le_lt_trans with (ia - 1); [exact H | lia].
Qed.

(** The last sample, like the first, is never returned. *)
Lemma find_peaks_lt (x : list Q) (distance : Z) (prominence : Q)
      (peaks : list nat) (m : nat) :
  Scipy.find_peaks x distance prominence = Ok peaks ->
  In m peaks ->
  m < length x - 1.
Proof.
  unfold Scipy.find_peaks. destruct (distance <? 1)%Z; [discriminate |].
  intros H Hin. injection H as <-.
  apply In_select in Hin. apply In_select in Hin.
  unfold Scipy.local_maxima_1d in Hin.
  now apply local_maxima_loop_lt in Hin.
Qed.

Lemma nthQ_map_Qopp (x : list Q) (k : nat) :
  nthQ (map Qopp x) k = Qopp (nthQ x k).
Proof.
  unfold nthQ. change 0%Q with (Qopp 0) at 1. apply map_nth.
Qed.

Lemma plateau_max_not_min (x : list Q) (m : nat) :
  plateau_max x m -> plateau_max (map Qopp x) m -> False.
Proof.
  intros (l & r & Hl & Hlm & Hmr & Hrise & Hflat & _)
         (l' & r' & Hl' & Hlm' & Hmr' & Hrise' & Hflat' & _).
  rewrite !nthQ_map_Qopp in Hrise'.
  destruct (lt_eq_lt_dec l l') as [[Hlt | Heq] | Hgt].
  - pose proof (Hflat (l' - 1) ltac:(lia)) as E1.
    pose proof (Hflat l' ltac:(lia)) as E2.
    lra.
  - subst l'. lra.
  - pose proof (Hflat' (l - 1) ltac:(lia)) as E1.
    pose proof (Hflat' l ltac:(lia)) as E2.
    rewrite !nthQ_map_Qopp in E1, E2.
    lra.
Qed.

Lemma length_assign (signal : list SignalValue) (indices : list nat)
      (v : SignalValue) :
  length (assign signal indices v) = length signal.
Proof.
  unfold assign. revert signal.
  induction indices as [| j indices IH]; intro signal; simpl; auto.
  rewrite IH. apply length_set_nth.
Qed.

Lemma nth_set_nth_same {A : Type} (a : list A) (i : nat) (v d : A) :
  i < length a -> nth i (set_nth a i v) d = v.
Proof.
  revert i. induction a as [| x a IH]; intros [| i]; simpl; intro H;
    try lia; auto. apply IH. lia.
Qed.

Lemma nth_set_nth_other {A : Type} (a : list A) (i j : nat) (v d : A) :
  i <> j -> nth j (set_nth a i v) d = nth j a d.
Proof.
  revert i j. induction a as [| x a IH]; intros [| i] [| j]; simpl; intro H;
    auto; try congruence.
Qed.

Lemma nth_assign_in (indices : list nat) (v d : SignalValue) (i : nat) :
  forall signal : list SignalValue,
    i < length signal ->
    (In i indices \/ nth i signal d = v) ->
    nth i (assign signal indices v) d = v.
Proof.
  unfold assign.
  induction indices as [| j indices IH]; intros signal Hlen H; simpl.
  - destruct H as [[] | H]; exact H.
  - apply IH; [now rewrite length_set_nth |].
    destruct (Nat.eq_dec j i) as [-> | Hne].
    + right. now apply nth_set_nth_same.
    + destruct H as [[Hj | Hin] | H]; [congruence | now left |].
      right. now rewrite nth_set_nth_other.
Qed.

Lemma nth_assign_notin (indices : list nat) (v d : SignalValue) (i : nat) :
  forall signal : list SignalValue,
    ~ In i indices ->
    nth i (assign signal indices v) d = nth i signal d.
Proof.
  unfold assign.
  induction indices as [| j indices IH]; intros signal H; simpl; auto.
  rewrite IH by (intro Hin; apply H; now right).
  apply nth_set_nth_other. intro E. apply H. now left.
Qed.

Lemma signal_array_classifies (n : nat) (peak_indices valley_indices : list nat) :
  (forall i : nat, In i peak_indices -> i < n) ->
  (forall i : nat, In i valley_indices -> i < n) ->
  (forall i : nat, In i peak_indices -> ~ In i valley_indices) ->
  forall i : nat,
    (nth i (signal_array n peak_indices valley_indices) Neutral = Sell
     <-> In i peak_indices)
    /\ (nth i (signal_array n peak_indices valley_indices) Neutral = Buy
        <-> In i valley_indices).
Proof.
  intros Hp Hv Hdis i. unfold signal_array.
  destruct (in_dec Nat.eq_dec i valley_indices) as [Iv | Nv].
  - rewrite nth_assign_in;
      [| rewrite length_assign, repeat_length; auto | now left].
    split; split; intro H; try discriminate; auto.
    exfalso. exact (Hdis i H Iv).
  - rewrite nth_assign_notin by assumption.
    destruct (in_dec Nat.eq_dec i peak_indices) as [Ip | Np].
    + rewrite nth_assign_in; [| rewrite repeat_length; auto | now left].
      split; split; intro H; try discriminate; auto. contradiction.
    + rewrite nth_assign_notin by assumption. rewrite nth_repeat.
      split; split; intro H; try discriminate; contradiction.
Qed.

Lemma detect_array_inv (df : DataFrame) (distance : Z) (prominence : Q)
      (signal : list SignalValue) :
  detect df distance prominence false = Ok (SignalArray signal) ->
  exists (close_scaled : list Q) (peak_indices valley_indices : list nat),
    length close_scaled = length (rows df)
    /\ Scipy.find_peaks close_scaled distance prominence = Ok peak_indices
    /\ Scipy.find_peaks (map Qopp close_scaled) distance prominence
       = Ok valley_indices
    /\ signal
       = signal_array (length (rows df)) peak_indices valley_indices.
Proof.
  unfold detect, column_Close, column_Time.
  destruct (has_Close df); [| discriminate].
  destruct (has_Time df); [| discriminate].
  destruct (MinMaxScaler.fit_transform (map bar_Close (rows df)))
    as [cs |] eqn:Ef; [| discriminate].
  assert (Hlen : length cs = length (rows df)).
  { unfold MinMaxScaler.fit_transform in Ef.
    destruct (map bar_Close (rows df)) as [| x0 rest] eqn:Em;
      [discriminate |].
    injection Ef as <-.
    apply (f_equal (@length Q)) in Em. rewrite length_map in Em.
    simpl in *. rewrite length_map. lia. }
  destruct (Scipy.find_peaks cs distance prominence) as [pk |] eqn:Ep;
    [| discriminate].
  destruct (Scipy.find_peaks (map Qopp cs) distance prominence)
    as [vl |] eqn:Ev; [| discriminate].
  intros [= <-]. exists cs, pk, vl. rewrite Hlen. auto.
Qed.

(** C8, as the code has it. The indices that [find_peaks] returns for the
    scaled closes and for their negation are disjoint, and in the signal
    array the sell cells are exactly the peak indices and the buy cells
    exactly the valley indices. The claim's second half fails: the valleys
    are written after the peaks (lines 97-98), so an index in both lists
    would end as a buy signal, not a sell signal; an index in the peak list
    alone is a sell signal. *)
Theorem peaks_valleys_disjoint_valley_written_last :
  (forall (x : list Q) (distance : Z) (prominence : Q)
          (peak_indices valley_indices : list nat) (i : nat),
      Scipy.find_peaks x distance prominence = Ok peak_indices ->
      Scipy.find_peaks (map Qopp x) distance prominence = Ok valley_indices ->
      In i peak_indices -> ~ In i valley_indices)
  /\ (forall (df : DataFrame) (distance : Z) (prominence : Q)
             (signal : list SignalValue),
         detect df distance prominence false = Ok (SignalArray signal) ->
         exists (close_scaled : list Q) (peak_indices valley_indices : list nat),
           Scipy.find_peaks close_scaled distance prominence = Ok peak_indices
           /\ Scipy.find_peaks (map Qopp close_scaled) distance prominence
              = Ok valley_indices
           /\ length signal = length (rows df)
           /\ forall i : nat,
               (nth i signal Neutral = Sell <-> In i peak_indices)
               /\ (nth i signal Neutral = Buy <-> In i valley_indices))
  /\ (forall (n : nat) (peak_indices valley_indices : list nat) (i : nat),
         i < n -> In i valley_indices ->
         nth i (signal_array n peak_indices valley_indices) Neutral = Buy)
  /\ (forall (n : nat) (peak_indices valley_indices : list nat) (i : nat),
         i < n -> In i peak_indices -> ~ In i valley_indices ->
         nth i (signal_array n peak_indices valley_indices) Neutral = Sell).
Proof.
  assert (D : forall (x : list Q) (distance : Z) (prominence : Q)
                     (peaks valleys : list nat) (i : nat),
             Scipy.find_peaks x distance prominence = Ok peaks ->
             Scipy.find_peaks (map Qopp x) distance prominence = Ok valleys ->
             In i peaks -> ~ In i valleys).
  { intros x distance prominence peaks valleys i Hp Hv Hip Hiv.
    apply (@plateau_max_not_min x i).
    - eapply find_peaks_plateau; eauto.
    - eapply find_peaks_plateau; eauto. }
  split; [exact D | split; [| split]].
  - intros df distance prominence signal Hdet.
    destruct (detect_array_inv _ _ _ Hdet)
      as (cs & pk & vl & Hlen & Hp & Hv & ->).
    exists cs, pk, vl. split; [exact Hp |]. split; [exact Hv |].
    split.
    + unfold signal_array. now rewrite !length_assign, repeat_length.
    + apply signal_array_classifies.
      * intros i Hi.
        pose proof (@find_peaks_lt _ _ _ _ i Hp Hi) as Hlt. lia.
      * intros i Hi.
        pose proof (@find_peaks_lt _ _ _ _ i Hv Hi) as Hlt.
        rewrite length_map in Hlt. lia.
      * intros i. now apply D with (x := cs) (distance := distance)
                                   (prominence := prominence).
  - intros n peaks valleys i Hi Hin. unfold signal_array.
    apply nth_assign_in; [| now left].
    now rewrite length_assign, repeat_length.
  - intros n peaks valleys i Hi Hip Hiv. unfold signal_array.
    rewrite nth_assign_notin by assumption.
    apply nth_assign_in; [| now left].
    now rewrite repeat_length.
Qed.

Lemma peaks_valleys_disjoint_valley_written_last_witness :
  (Scipy.find_peaks [0; 1; 0]%Q 1 0.1%Q = Ok [1]
   /\ Scipy.find_peaks (map Qopp [0; 1; 0]%Q) 1 0.1%Q = Ok []
   /\ ~ In 1 (@nil nat))
  /\ nth 1 (signal_array 3 [1] [1]) Neutral = Buy
  /\ nth 1 (signal_array 3 [1] []) Neutral = Sell.
Proof.
  destruct peaks_valleys_disjoint_valley_written_last as (D & _ & B & S).
  split; [| split].
  - split; [reflexivity | split; [reflexivity |]].
    apply (D [0; 1; 0]%Q 1%Z 0.1%Q [1] [] 1); try reflexivity.
    simpl. now left.
  - apply B; [lia | simpl; now left].
  - apply S; [lia | simpl; now left | simpl; tauto].
Defined.

(** The claim's tie-break, sell wins, fails on the index lists [1] / [1]. *)
Lemma sell_wins_counterexample :
  ~ (forall (n : nat) (peak_indices valley_indices : list nat) (i : nat),
        i < n -> In i peak_indices -> In i valley_indices ->
        nth i (signal_array n peak_indices valley_indices) Neutral = Sell).
Proof.
  intro H. specialize (H 3 [1] [1] 1).
  assert (E : nth 1 (signal_array 3 [1] [1]) Neutral = Buy) by reflexivity.
  rewrite E in H. discriminate H; [lia | simpl; now left | simpl; now left].
Qed.

(** ** Empty windows and windows without 'Close' (C3) *)

Lemma detect_no_Close (df : DataFrame) (distance : Z) (prominence : Q)
      (rolling : bool) :
  has_Close df = false ->
  detect df distance prominence rolling = Raise KeyError.
Proof.
  intro H. unfold detect, column_Close. now rewrite H.
Qed.

Lemma detect_empty (df : DataFrame) (distance : Z) (prominence : Q)
      (rolling : bool) :
  rows df = [] ->
  exists e : exn, detect df distance prominence rolling = Raise e.
Proof.
  intro H. unfold detect, column_Close, column_Time. rewrite H. simpl.
  destruct (has_Close df); [| now exists KeyError].
  destruct (has_Time df); [| now exists KeyError].
  now exists ValueError.
Qed.

Lemma auto_trade_unfold (h : heap) (m : TradeModel) (l : loc)
      (df : DataFrame) (cdt fi dist : Z) (prom : Q) :
  deref h l = Some df ->
  let m1 := mkTradeModel (trades m) (current_trade m) (current_date m)
                         (Some (length h)) in
  auto_trade h m l cdt fi dist prom
  = match iloc_last (rows df) with
    | None => (h ++ [df], m1)
    | Some new_data_point =>
        match detect df dist prom true with
        | Ok (SignalLast current_signal) =>
            let d1 := loc_set_Signal df (length (rows df) - 1)
                                     (Some current_signal) in
            let h3 := store (h ++ [df] ++ [df]) l d1 in
            (h3, trade_on_window h3 m1 (rows d1) (bar_Time new_data_point) fi)
        | Ok (SignalArray _) => (h ++ [df] ++ [df], m1)
        | Raise _ => (h ++ [df] ++ [df], m1)
        end
    end.
Proof.
  intros H m1. pose proof (deref_Some_lt _ _ H) as Hlt.
  unfold auto_trade. rewrite set_data_eq with (df := df) by assumption.
  fold m1.
  assert (H1 : deref (h ++ [df]) l = Some df)
    by (rewrite deref_app_old; assumption).
  rewrite H1.
  destruct (iloc_last (rows df)) as [ndp |]; [| reflexivity].
  rewrite find_peaks_and_valleys_eq with (df := df) by assumption.
  rewrite <- app_assoc.
  destruct (detect df dist prom true) as [[sig | s] | e]; try reflexivity.
  assert (H2 : deref (h ++ [df] ++ [df]) l = Some df).
  { unfold deref. rewrite nth_error_app1 by assumption. exact H. }
  unfold write_last_Signal. rewrite H2.
  rewrite deref_store_same by (rewrite length_app; lia).
  reflexivity.
Qed.

(** C3, as the code has it. On a window without a 'Close' column the
    detector raises KeyError, and on an empty window it raises too (the
    scaler's ValueError when both columns exist); it never returns a
    neutral result there. The degradation is [auto_trade]'s: it returns
    before the detector on an empty window and swallows the exception
    otherwise, so the ledger, the live position and the current date are
    left as they were. *)
Theorem detector_raises_auto_trade_skips :
  forall (h : heap) (m : TradeModel) (l : loc) (df : DataFrame)
         (cdt fi distance : Z) (prominence : Q) (rolling : bool),
    deref h l = Some df ->
    has_Close df = false \/ rows df = [] ->
    (exists e : exn,
        snd (find_peaks_and_valleys h l distance prominence rolling)
        = Raise e)
    /\ (has_Close df = false ->
        snd (find_peaks_and_valleys h l distance prominence rolling)
        = Raise KeyError)
    /\ (has_Close df = true -> has_Time df = true ->
        snd (find_peaks_and_valleys h l distance prominence rolling)
        = Raise ValueError)
    /\ trades (snd (auto_trade h m l cdt fi distance prominence)) = trades m
    /\ current_trade (snd (auto_trade h m l cdt fi distance prominence))
       = current_trade m
    /\ current_date (snd (auto_trade h m l cdt fi distance prominence))
       = current_date m.
Proof.
  intros h m l df cdt fi distance prominence rolling Hl Hbad.
  rewrite find_peaks_and_valleys_eq with (df := df) by assumption.
  simpl snd.
  split; [| split; [| split]].
  - destruct Hbad as [Hc | He].
    + exists KeyError. now apply detect_no_Close.
    + now apply detect_empty.
  - intro Hc. now apply detect_no_Close.
  - intros Hc Ht. destruct Hbad as [Hc' | He]; [congruence |].
    unfold detect, column_Close, column_Time. now rewrite Hc, Ht, He.
  - rewrite auto_trade_unfold with (df := df) by assumption.
    destruct Hbad as [Hc | He].
    + destruct (iloc_last (rows df)); [| simpl; auto].
      rewrite detect_no_Close by assumption. simpl; auto.
    + rewrite He. simpl; auto.
Qed.

Lemma detector_raises_auto_trade_skips_witness :
  let df := mkDataFrame true true [] in
  snd (find_peaks_and_valleys [df] 0 5 0.1%Q false) = Raise ValueError
  /\ trades (snd (auto_trade [df] TradeModel_init 0 0 100 5 0.1%Q)) = [].
Proof.
  intro df.
  destruct (@detector_raises_auto_trade_skips [df] TradeModel_init 0 df
              0%Z 100%Z 5%Z 0.1%Q false eq_refl (or_intror eq_refl))
    as (_ & _ & HV & HT & _).
  split; [apply HV; reflexivity | exact HT].
Defined.

(** The claim itself fails: the detector raises on an empty window and on
    a window without 'Close'. *)
Lemma detector_neutral_counterexample :
  snd (find_peaks_and_valleys [mkDataFrame true true []] 0 5 0.1%Q false)
  = Raise ValueError
  /\ snd (find_peaks_and_valleys [mkDataFrame true true []] 0 5 0.1%Q true)
     = Raise ValueError
  /\ snd (find_peaks_and_valleys
            [mkDataFrame true false [mkBar 0 1 None []; mkBar 1 2 None []]]
            0 5 0.1%Q false)
     = Raise KeyError.
Proof. repeat split. Qed.

(** ** Closing a position (C4) *)

Lemma get_close_price_data (h : heap) (m m' : TradeModel) (date : option Z) :
  data m = data m' -> get_close_price h m date = get_close_price h m' date.
Proof. unfold get_close_price. now intros ->. Qed.

Lemma close_trade_success (h : heap) (m : TradeModel) (t : Trade)
      (rest : list Trade) (p : Q) :
  current_trade m = t :: rest ->
  status t = open ->
  get_close_price h m (current_date m) = Ok (Some p) ->
  close_trade h m
  = mkTradeModel (trades m ++ closed_row t (current_date m) p :: rest)
                 [] (current_date m) (data m).
Proof.
  intros Hct Hst Hp. unfold close_trade, is_open. now rewrite Hct, Hst, Hp.
Qed.

(** C4. When the open position is closed at the available price [p], the
    ledger gains one row: the position, now 'closed', with exit price [p]
    and profit [p - entry_price] for type 'buy' (Long) and
    [entry_price - p] for type 'sell' (Short). *)
Theorem close_trade_realized_pnl :
  forall (h : heap) (m : TradeModel) (t : Trade) (p : Q),
    current_trade m = [t] ->
    status t = open ->
    get_close_price h m (current_date m) = Ok (Some p) ->
    exists c : Trade,
      trades (close_trade h m) = trades m ++ [c]
      /\ current_trade (close_trade h m) = []
      /\ type c = type t
      /\ entry_date c = entry_date t
      /\ entry_price c = entry_price t
      /\ status c = closed
      /\ exit_date c = current_date m
      /\ exit_price c = Some p
      /\ profit c = Some (match type t with
                          | buy => p - entry_price t
                          | sell => entry_price t - p
                          end)%Q.
Proof.
  intros h m t p Hct Hst Hp.
  rewrite (close_trade_success _ _ Hct Hst Hp).
  exists (closed_row t (current_date m) p). simpl.
  repeat split.
Qed.

(** The two examples of the specification: Long 1.2500 -> 1.2550 earns
    0.0050, Short 1.2500 -> 1.2480 earns 0.0020. *)
Lemma close_trade_realized_pnl_witness :
  let long := run [OpAutoTrade price_window 1 100 5 0.1%Q;
                   OpSetCurrentDate 1; OpBuy; OpSetCurrentDate 2] in
  let short := run [OpAutoTrade price_window 1 100 5 0.1%Q;
                    OpSetCurrentDate 1; OpSell; OpSetCurrentDate 3] in
  (exists c : Trade,
      trades (close_trade (fst long) (snd long)) = [c]
      /\ entry_price c = 1.2500%Q /\ exit_price c = Some 1.2550%Q
      /\ exists q : Q, profit c = Some q /\ (q == 0.0050)%Q)
  /\ (exists c : Trade,
         trades (close_trade (fst short) (snd short)) = [c]
         /\ entry_price c = 1.2500%Q /\ exit_price c = Some 1.2480%Q
         /\ exists q : Q, profit c = Some q /\ (q == 0.0020)%Q).
Proof.
  intros long short. split.
  - destruct (@close_trade_realized_pnl (fst long) (snd long)
                (opened_row buy (Some 1%Z) 1.2500%Q) 1.2550%Q
                eq_refl eq_refl eq_refl)
      as (c & Ht & _ & _ & _ & He & _ & _ & Hx & Hp).
    exists c. split; [exact Ht |]. split; [exact He |].
    split; [exact Hx |].
    eexists. split; [exact Hp |]. reflexivity.
  - destruct (@close_trade_realized_pnl (fst short) (snd short)
                (opened_row sell (Some 1%Z) 1.2500%Q) 1.2480%Q
                eq_refl eq_refl eq_refl)
      as (c & Ht & _ & _ & _ & He & _ & _ & Hx & Hp).
    exists c. split; [exact Ht |]. split; [exact He |].
    split; [exact Hx |].
    eexists. split; [exact Hp |]. reflexivity.
Defined.

(** ** At most one open position (C5) and the append-only ledger (C6) *)

Lemma ledger_extends_refl (m : TradeModel) : ledger_extends m m.
Proof. exists []. now rewrite app_nil_r. Qed.

Lemma ledger_extends_trans (m1 m2 m3 : TradeModel) :
  ledger_extends m1 m2 -> ledger_extends m2 m3 -> ledger_extends m1 m3.
Proof.
  intros [a Ha] [b Hb]. exists (a ++ b). now rewrite Hb, Ha, app_assoc.
Qed.

Lemma ledger_extends_length (m m' : TradeModel) :
  ledger_extends m m' -> length (trades m) <= length (trades m').
Proof. intros [a Ha]. rewrite Ha, length_app. lia. Qed.

Lemma close_trade_cases (h : heap) (m : TradeModel) :
  close_trade h m = m
  \/ exists (t : Trade) (rest : list Trade) (p : Q),
      current_trade m = t :: rest /\ status t = open
      /\ get_close_price h m (current_date m) = Ok (Some p)
      /\ close_trade h m
         = mkTradeModel (trades m ++ closed_row t (current_date m) p :: rest)
                        [] (current_date m) (data m).
Proof.
  unfold close_trade, is_open.
  destruct (current_trade m) as [| t rest] eqn:Hct; [now left |].
  destruct (status t) eqn:Hst; [| now left].
  destruct (get_close_price h m (current_date m)) as [[p |] | e] eqn:Hp;
    try (now left).
  right. exists t, rest, p. repeat split; auto.
Qed.

Lemma well_formed_close_trade (h : heap) (m : TradeModel) :
  well_formed m -> well_formed (close_trade h m).
Proof.
  intros (Hlen & Hopen & Hclosed).
  destruct (close_trade_cases h m)
    as [-> | (t & rest & p & Hct & Hst & _ & ->)].
  - now repeat split.
  - rewrite Hct in Hlen. simpl in Hlen.
    assert (rest = []) as -> by (destruct rest; simpl in *; [auto | lia]).
    repeat split; simpl; auto.
    apply Forall_app. split; [exact Hclosed |].
    constructor; [reflexivity | constructor].
Qed.

Lemma ledger_extends_close_trade (h : heap) (m : TradeModel) :
  ledger_extends m (close_trade h m).
Proof.
  destruct (close_trade_cases h m)
    as [-> | (t & rest & p & _ & _ & _ & ->)].
  - apply ledger_extends_refl.
  - eexists. simpl. reflexivity.
Qed.

Lemma open_trade_cases (ty : TradeType) (h : heap) (m : TradeModel) :
  let m0 := if negb (is_empty (current_trade m)) then close_trade h m else m in
  open_trade ty h m = m0
  \/ exists p : Q,
      get_close_price h m0 (current_date m0) = Ok (Some p)
      /\ open_trade ty h m
         = with_current_trade m0 [opened_row ty (current_date m0) p].
Proof.
  intro m0. unfold open_trade. fold m0.
  destruct (get_close_price h m0 (current_date m0)) as [[p |] | e];
    try (now left).
  right. now exists p.
Qed.

Lemma well_formed_open_trade (ty : TradeType) (h : heap) (m : TradeModel) :
  well_formed m -> well_formed (open_trade ty h m).
Proof.
  intro Hwf.
  assert (Hwf0 : well_formed
            (if negb (is_empty (current_trade m)) then close_trade h m else m))
    by (destruct (negb (is_empty (current_trade m)));
        [now apply well_formed_close_trade | exact Hwf]).
  destruct (open_trade_cases ty h m) as [-> | (p & _ & ->)];
    [exact Hwf0 |].
  destruct Hwf0 as (_ & _ & Hclosed).
  repeat split; simpl; auto.
Qed.

Lemma ledger_extends_open_trade (ty : TradeType) (h : heap) (m : TradeModel) :
  ledger_extends m (open_trade ty h m).
Proof.
  assert (H0 : ledger_extends m
            (if negb (is_empty (current_trade m)) then close_trade h m else m))
    by (destruct (negb (is_empty (current_trade m)));
        [apply ledger_extends_close_trade | apply ledger_extends_refl]).
  destruct (open_trade_cases ty h m) as [-> | (p & _ & ->)];
    [exact H0 |].
  exact H0.
Qed.

(** What [trade_on_signal] can do: nothing, a close, an opening, or a close
    followed by an opening. *)
Lemma trade_on_signal_cases (h : heap) (m : TradeModel)
      (new_signal : option SignalValue) (recent : bool) :
  let r := trade_on_signal h m new_signal recent in
  r = m \/ r = close_trade h m
  \/ (exists ty, r = open_trade ty h m)
  \/ (exists ty, r = open_trade ty h (close_trade h m)).
Proof.
  unfold trade_on_signal, buy_trade, sell_trade.
  destruct new_signal as [[| |] |]; try (now left);
    destruct (iloc_last (current_trade m)) as [t |];
    try destruct (type t); destruct recent; simpl; eauto 6.
Qed.

Section Preservation.

(** A property of models kept by closing and by opening is kept by every
    command and by [auto_trade]. *)
Variable P : TradeModel -> Prop.
Hypothesis P_fields :
  forall m m' : TradeModel,
    trades m' = trades m -> current_trade m' = current_trade m ->
    P m -> P m'.
Hypothesis P_close : forall h m, P m -> P (close_trade h m).
Hypothesis P_open : forall ty h m, P m -> P (open_trade ty h m).

Lemma preserved_trade_on_signal h m s recent :
  P m -> P (trade_on_signal h m s recent).
Proof.
  intro H.
  destruct (trade_on_signal_cases h m s recent)
    as [-> | [-> | [[ty ->] | [ty ->]]]]; auto.
Qed.

Lemma preserved_trade_on_window h m rs cd fi :
  P m -> P (trade_on_window h m rs cd fi).
Proof.
  intro H. unfold trade_on_window.
  destruct (iloc_last _) as [[i b] |]; [| exact H].
  now apply preserved_trade_on_signal.
Qed.

Lemma preserved_set_data h m l : P m -> P (snd (set_data h m l)).
Proof.
  intro H. unfold set_data.
  destruct (copy h l) as [[h' l'] | e]; simpl; [| exact H].
  now apply P_fields with (m := m).
Qed.

Lemma preserved_auto_trade h m l cdt fi dist prom :
  P m -> P (snd (auto_trade h m l cdt fi dist prom)).
Proof.
  intro H. unfold auto_trade.
  pose proof (preserved_set_data h l H) as H1.
  destruct (set_data h m l) as [h1 m1]. simpl in H1.
  destruct (deref h1 l) as [d0 |]; [| exact H1].
  destruct (iloc_last (rows d0)) as [ndp |]; [| exact H1].
  destruct (find_peaks_and_valleys h1 l dist prom true)
    as [h2 [[sig | s] | e]]; try exact H1.
  destruct (deref (write_last_Signal h2 l (Some s)) l) as [d |];
    [| exact H1].
  simpl. now apply preserved_trade_on_window.
Qed.

Lemma preserved_step s op : P (snd s) -> P (snd (step s op)).
Proof.
  destruct s as [h m]. simpl. intro H.
  destruct op as [date | | | | w cdt fi pd pp]; simpl.
  - now apply P_fields with (m := m).
  - now apply P_open.
  - now apply P_open.
  - now apply P_close.
  - now apply preserved_auto_trade.
Qed.

End Preservation.

Lemma well_formed_step (s : heap * TradeModel) (op : Op) :
  well_formed (snd s) -> well_formed (snd (step s op)).
Proof.
  apply preserved_step.
  - unfold well_formed. intros m m' -> ->. auto.
  - apply well_formed_close_trade.
  - apply well_formed_open_trade.
Qed.

Lemma well_formed_init : well_formed TradeModel_init.
Proof. repeat split; simpl; auto. Qed.

Lemma well_formed_run (ops : list Op) : well_formed (snd (run ops)).
Proof.
  unfold run.
  assert (G : forall s, well_formed (snd s) ->
                        well_formed (snd (fold_left step ops s))).
  { induction ops as [| op ops IH]; intros s Hs; simpl; [exact Hs |].
    apply IH. now apply well_formed_step. }
  apply G. exact well_formed_init.
Qed.

Lemma well_formed_open_positions (m : TradeModel) :
  well_formed m -> length (open_positions m) <= 1.
Proof.
  intros (Hlen & _ & Hclosed). unfold open_positions.
  rewrite filter_app, length_app.
  assert (E : filter is_open (trades m) = []).
  { induction Hclosed as [| t ts Ht _ IH]; simpl; [reflexivity |].
    unfold is_open at 1. now rewrite Ht. }
  rewrite E. simpl.
  pose proof (filter_length_le is_open (current_trade m)). lia.
Qed.

(** C5. In every state reached from a new [TradeModel] by any sequence of
    set-date, buy, sell, close and auto-trade calls, at most one position
    has status 'open'; each call keeps the shape that guarantees it; and
    opening (buy or sell) while a position is open, with a price at hand,
    first moves that position, closed, to the ledger and leaves the new
    position as the only open one. *)
Theorem at_most_one_open_position :
  (forall ops : list Op, length (open_positions (snd (run ops))) <= 1)
  /\ (forall (s : heap * TradeModel) (op : Op),
         well_formed (snd s) ->
         well_formed (snd (step s op))
         /\ length (open_positions (snd (step s op))) <= 1)
  /\ (forall (h : heap) (m : TradeModel) (ty : TradeType) (t : Trade) (p : Q),
         current_trade m = [t] ->
         status t = open ->
         get_close_price h m (current_date m) = Ok (Some p) ->
         trades (open_trade ty h m)
         = trades m ++ [closed_row t (current_date m) p]
         /\ current_trade (open_trade ty h m)
            = [opened_row ty (current_date m) p]).
Proof.
  split; [| split].
  - intro ops. apply well_formed_open_positions, well_formed_run.
  - intros s op Hwf. pose proof (well_formed_step s op Hwf) as H.
    split; [exact H | now apply well_formed_open_positions].
  - intros h m ty t p Hct Hst Hp.
    unfold open_trade. rewrite Hct. simpl negb. cbv iota.
    rewrite (close_trade_success _ _ Hct Hst Hp). simpl current_date.
    rewrite get_close_price_data with (m' := m) by reflexivity.
    rewrite Hp. split; reflexivity.
Qed.

Lemma at_most_one_open_position_witness :
  let s := run [OpAutoTrade price_window 1 100 5 0.1%Q;
                OpSetCurrentDate 1; OpBuy; OpSetCurrentDate 2] in
  trades (sell_trade (fst s) (snd s))
  = [closed_row (opened_row buy (Some 1%Z) 1.2500%Q) (Some 2%Z) 1.2550%Q]
  /\ current_trade (sell_trade (fst s) (snd s))
     = [opened_row sell (Some 2%Z) 1.2550%Q].
Proof.
  intro s.
  destruct at_most_one_open_position as (_ & _ & H).
  exact (H (fst s) (snd s) sell (opened_row buy (Some 1%Z) 1.2500%Q)
           1.2550%Q eq_refl eq_refl eq_refl).
Defined.

Lemma close_trade_no_position (h : heap) (m : TradeModel) :
  current_trade m = [] -> close_trade h m = m.
Proof. intro H. unfold close_trade. now rewrite H. Qed.

Lemma close_trade_twice (h : heap) (m : TradeModel) :
  close_trade h (close_trade h m) = close_trade h m.
Proof.
  destruct (close_trade_cases h m)
    as [H | (t & rest & p & _ & _ & _ & H)].
  - rewrite H. exact H.
  - rewrite H. now apply close_trade_no_position.
Qed.

Lemma ledger_extends_auto_trade (h : heap) (m : TradeModel) (l : loc)
      (cdt fi dist : Z) (prom : Q) :
  ledger_extends m (snd (auto_trade h m l cdt fi dist prom)).
Proof.
  apply preserved_auto_trade with (P := ledger_extends m).
  - intros m1 m2 Ht _ [a Ha]. exists a. congruence.
  - intros h' m' H. eapply ledger_extends_trans; [exact H |].
    apply ledger_extends_close_trade.
  - intros ty h' m' H. eapply ledger_extends_trans; [exact H |].
    apply ledger_extends_open_trade.
  - apply ledger_extends_refl.
Qed.

Lemma ledger_extends_step (s : heap * TradeModel) (op : Op) :
  ledger_extends (snd s) (snd (step s op)).
Proof.
  apply preserved_step with (P := ledger_extends (snd s)).
  - intros m1 m2 Ht _ [a Ha]. exists a. congruence.
  - intros h' m' H. eapply ledger_extends_trans; [exact H |].
    apply ledger_extends_close_trade.
  - intros ty h' m' H. eapply ledger_extends_trans; [exact H |].
    apply ledger_extends_open_trade.
  - apply ledger_extends_refl.
Qed.

(** C6. No command and no [auto_trade] call shortens the ledger; closing
    with no position open changes nothing at all; and a second close
    straight after a close changes nothing. *)
Theorem ledger_never_shrinks_close_twice :
  (forall (s : heap * TradeModel) (op : Op),
      length (trades (snd s)) <= length (trades (snd (step s op))))
  /\ (forall (h : heap) (m : TradeModel),
         length (trades m) <= length (trades (close_trade h m))
         /\ length (trades m) <= length (trades (buy_trade h m))
         /\ length (trades m) <= length (trades (sell_trade h m)))
  /\ (forall (h : heap) (m : TradeModel) (l : loc) (cdt fi dist : Z)
             (prom : Q),
         length (trades m)
         <= length (trades (snd (auto_trade h m l cdt fi dist prom))))
  /\ (forall (h : heap) (m : TradeModel),
         current_trade m = [] -> close_trade h m = m)
  /\ (forall (h : heap) (m : TradeModel),
         close_trade h (close_trade h m) = close_trade h m).
Proof.
  split; [| split; [| split; [| split]]].
  - intros s op. apply ledger_extends_length, ledger_extends_step.
  - intros h m. repeat split; apply ledger_extends_length.
    + apply ledger_extends_close_trade.
    + apply ledger_extends_open_trade.
    + apply ledger_extends_open_trade.
  - intros. apply ledger_extends_length, ledger_extends_auto_trade.
  - apply close_trade_no_position.
  - apply close_trade_twice.
Qed.

Lemma ledger_never_shrinks_close_twice_witness :
  let s := run [OpAutoTrade price_window 1 100 5 0.1%Q;
                OpSetCurrentDate 1; OpBuy; OpSetCurrentDate 2; OpClose] in
  current_trade (snd s) = []
  /\ length (trades (snd s)) = 1
  /\ close_trade (fst s) (snd s) = snd s.
Proof.
  intro s.
  destruct ledger_never_shrinks_close_twice as (_ & _ & _ & H & _).
  split; [reflexivity | split; [reflexivity |]].
  exact (H (fst s) (snd s) eq_refl).
Defined.

(** ** What [auto_trade] does to the caller's window (C10) *)

Lemma iloc_last_app {A : Type} (l : list A) (a : A) :
  iloc_last (l ++ [a]) = Some a.
Proof. unfold iloc_last. now rewrite rev_app_distr. Qed.

Lemma iloc_last_cases {A : Type} (l : list A) :
  (l = [] /\ iloc_last l = None)
  \/ exists (l' : list A) (a : A), l = l' ++ [a] /\ iloc_last l = Some a.
Proof.
  induction l as [| a l' _] using rev_ind.
  - now left.
  - right. exists l', a. split; [reflexivity | apply iloc_last_app].
Qed.

Lemma iloc_last_In {A : Type} (l : list A) (a : A) :
  iloc_last l = Some a -> In a l.
Proof.
  destruct (iloc_last_cases l) as [[_ H] | (l' & b & -> & H)];
    rewrite H; [discriminate |].
  intros [= ->]. apply in_or_app. right. now left.
Qed.

(** [df.loc[i, 'Signal'] = v] touches one cell. *)
Lemma loc_set_Signal_rows_spec (v : option SignalValue) :
  forall (rs : list Bar) (i j : nat) (b : Bar),
    nth_error rs j = Some b ->
    exists b' : Bar,
      nth_error (loc_set_Signal_rows rs i v) j = Some b'
      /\ bar_Time b' = bar_Time b
      /\ bar_Close b' = bar_Close b
      /\ bar_Others b' = bar_Others b
      /\ (j <> i -> b' = b)
      /\ (j = i -> bar_Signal b' = v).
Proof.
  induction rs as [| r rs IH]; intros i j b Hj.
  - destruct j; discriminate.
  - destruct i as [| i], j as [| j]; simpl in *.
    + injection Hj as <-. exists (set_Signal r v). now repeat split.
    + exists b. repeat split; auto. intros [=].
    + injection Hj as <-. exists r. repeat split; auto. intros [=].
    + destruct (IH i j b Hj) as (b' & H1 & H2 & H3 & H4 & H5 & H6).
      exists b'. repeat split; auto.
Qed.

Lemma length_loc_set_Signal_rows (v : option SignalValue) :
  forall (rs : list Bar) (i : nat),
    length (loc_set_Signal_rows rs i v) = length rs.
Proof.
  induction rs as [| r rs IH]; intros [| i]; simpl; auto.
Qed.

Lemma auto_trade_heap (h : heap) (m : TradeModel) (l : loc) (df : DataFrame)
      (cdt fi dist : Z) (prom : Q) :
  deref h l = Some df ->
  let h' := fst (auto_trade h m l cdt fi dist prom) in
  deref h' l = Some (window_after df dist prom)
  /\ deref h' (length h) = Some df
  /\ (forall l' : loc, l' < length h -> l' <> l -> deref h' l' = deref h l').
Proof.
  intros H h'. pose proof (deref_Some_lt _ _ H) as Hlt.
  subst h'. rewrite auto_trade_unfold with (df := df) by assumption.
  unfold window_after.
  assert (A1 : forall l', l' < length h ->
                          deref (h ++ [df]) l' = deref h l')
    by (intros; now apply deref_app_old).
  assert (A2 : forall l', l' < length h ->
                          deref (h ++ [df] ++ [df]) l' = deref h l')
    by (intros; unfold deref; now rewrite nth_error_app1).
  assert (B2 : deref (h ++ [df] ++ [df]) (length h) = Some df)
    by (unfold deref; rewrite nth_error_app2 by lia;
        now rewrite Nat.sub_diag).
  destruct (iloc_last (rows df)) as [ndp |]; simpl fst.
  - destruct (detect df dist prom true) as [[sig | s] | e]; simpl fst.
    + split; [rewrite A2; assumption |]. split; [exact B2 |]. auto.
    + split; [| split].
      * apply deref_store_same. rewrite !length_app. simpl. lia.
      * rewrite deref_store_other by lia. exact B2.
      * intros l' Hl' Hne. rewrite deref_store_other by congruence. auto.
    + split; [rewrite A2; assumption |]. split; [exact B2 |]. auto.
  - split; [rewrite A1; assumption |].
    split; [apply deref_app_new |]. auto.
Qed.

(** C10. [auto_trade] sets [model.data] to a new object holding the window
    as it was passed. In the caller's own frame the one cell it may write
    is 'Signal' of the last row, which receives the detector's result (when
    the window has a row and the detector returns); every 'Time', 'Close'
    and other cell, every 'Signal' cell of another row, the set of columns
    and the number of rows are as before, and so is every other object of
    the store. The detector allocates its copy and leaves each existing
    object, its input included, as it was. *)
Theorem auto_trade_writes_last_Signal_only :
  forall (h : heap) (m : TradeModel) (l : loc) (df : DataFrame)
         (cdt fi dist : Z) (prom : Q),
    deref h l = Some df ->
    let h' := fst (auto_trade h m l cdt fi dist prom) in
    let m' := snd (auto_trade h m l cdt fi dist prom) in
    (data m' = Some (length h) /\ length h <> l
     /\ deref h' (length h) = Some df)
    /\ (exists d' : DataFrame,
           deref h' l = Some d'
           /\ has_Time d' = has_Time df
           /\ has_Close d' = has_Close df
           /\ length (rows d') = length (rows df)
           /\ (forall (j : nat) (b : Bar),
                  nth_error (rows df) j = Some b ->
                  exists b' : Bar,
                    nth_error (rows d') j = Some b'
                    /\ bar_Time b' = bar_Time b
                    /\ bar_Close b' = bar_Close b
                    /\ bar_Others b' = bar_Others b
                    /\ (S j <> length (rows df) -> b' = b)
                    /\ (forall s : SignalValue,
                           S j = length (rows df) ->
                           detect df dist prom true = Ok (SignalLast s) ->
                           bar_Signal b' = Some s)))
    /\ (forall l' : loc, l' < length h -> l' <> l ->
                         deref h' l' = deref h l')
    /\ (forall (rolling : bool) (l' : loc),
           l' < length h ->
           deref (fst (find_peaks_and_valleys h l dist prom rolling)) l'
           = deref h l').
Proof.
  intros h m l df cdt fi dist prom H h' m'.
  pose proof (deref_Some_lt _ _ H) as Hlt.
  destruct (auto_trade_heap h m l cdt fi dist prom H) as (Hw & Hd & Ho).
  fold h' in Hw, Hd, Ho.
  split; [| split; [| split]].
  - split; [| split; [lia | exact Hd]].
    subst m'. rewrite auto_trade_unfold with (df := df) by assumption.
    destruct (iloc_last (rows df)) as [ndp |]; [| reflexivity].
    destruct (detect df dist prom true) as [[sig | s] | e];
      try reflexivity.
    cbv zeta. simpl snd.
    apply preserved_trade_on_window
      with (P := fun m' => data m' = Some (length h)).
    + intros h0 m0 Hm.
      destruct (close_trade_cases h0 m0)
        as [-> | (t & rest & p & _ & _ & _ & ->)]; exact Hm.
    + intros ty h0 m0 Hm.
      assert (H0 : data (if negb (is_empty (current_trade m0))
                         then close_trade h0 m0 else m0) = Some (length h)).
      { destruct (negb (is_empty (current_trade m0))); [| exact Hm].
        destruct (close_trade_cases h0 m0)
          as [-> | (t & rest & p & _ & _ & _ & ->)]; exact Hm. }
      destruct (open_trade_cases ty h0 m0) as [-> | (p & _ & ->)];
        exact H0.
    + reflexivity.
  - exists (window_after df dist prom). split; [exact Hw |].
    unfold window_after.
    destruct (iloc_last (rows df)) as [ndp |] eqn:El.
    2:{ repeat split; auto. intros j b Hj. exists b.
        repeat split; auto. intros s Hs.
        destruct (iloc_last_cases (rows df)) as [[E _] | (r & a & _ & E)];
          [| congruence].
        rewrite E in Hj. destruct j; discriminate. }
    destruct (detect df dist prom true) as [[sig | s] | e] eqn:Ed.
    1,3: repeat split; auto; intros j b Hj; exists b;
      repeat split; auto; intros s' _ [=].
    simpl. rewrite length_loc_set_Signal_rows.
    repeat split; auto.
    intros j b Hj.
    assert (Hjlt : j < length (rows df))
      by (apply nth_error_Some; congruence).
    destruct (@loc_set_Signal_rows_spec (Some s) (rows df)
                (length (rows df) - 1) j b Hj)
      as (b' & H1 & H2 & H3 & H4 & H5 & H6).
    exists b'. repeat split; auto.
    + intro Hne. apply H5. lia.
    + intros s' Hs [= <-]. apply H6. lia.
  - exact Ho.
  - intros rolling l' Hl'.
    rewrite find_peaks_and_valleys_eq with (df := df) by assumption.
    simpl fst. now apply deref_app_old.
Qed.

Lemma auto_trade_writes_last_Signal_only_witness :
  let r := auto_trade [price_window] TradeModel_init 0 3 100 5 0.1%Q in
  data (snd r) = Some 1
  /\ deref (fst r) 1 = Some price_window
  /\ deref (fst r) 0 = Some (loc_set_Signal price_window 2 (Some Neutral)).
Proof.
  intro r.
  destruct (@auto_trade_writes_last_Signal_only [price_window]
              TradeModel_init 0 price_window 3%Z 100%Z 5%Z 0.1%Q eq_refl)
    as ((Hd & _ & Hc) & _).
  split; [exact Hd | split; [exact Hc | reflexivity]].
Defined.

(** ** The decision taken by [auto_trade] (C1, C2, C7) *)

(** Once the window has a row and the detector has returned, the call
    decides on the written window, with the 'Time' of the last row as
    current date, and prices come from the copy taken at entry. *)
Lemma auto_trade_decides (h : heap) (m : TradeModel) (l : loc)
      (df : DataFrame) (cdt fi dist : Z) (prom : Q) (last : Bar)
      (s : SignalValue) :
  deref h l = Some df ->
  iloc_last (rows df) = Some last ->
  detect df dist prom true = Ok (SignalLast s) ->
  let m1 := mkTradeModel (trades m) (current_trade m) (current_date m)
                         (Some (length h)) in
  let h' := fst (auto_trade h m l cdt fi dist prom) in
  snd (auto_trade h m l cdt fi dist prom)
  = trade_on_window h' m1 (rows (window_after df dist prom))
                    (bar_Time last) fi.
Proof.
  intros H Hl Hd m1 h'. subst h'.
  rewrite auto_trade_unfold with (df := df) by assumption.
  unfold window_after. rewrite Hl, Hd. reflexivity.
Qed.

Lemma get_close_price_copy (h' : heap) (m : TradeModel) (c : loc)
      (df : DataFrame) (date : option Z) (p : Q) :
  data m = Some c ->
  deref h' c = Some df ->
  loc_Close_at df date = Ok p ->
  get_close_price h' m date = Ok (Some p).
Proof.
  intros Hc Hd Hp. unfold get_close_price. now rewrite Hc, Hd, Hp.
Qed.

Lemma open_trade_no_position (ty : TradeType) (h : heap) (m : TradeModel)
      (p : Q) :
  current_trade m = [] ->
  get_close_price h m (current_date m) = Ok (Some p) ->
  open_trade ty h m
  = with_current_trade m [opened_row ty (current_date m) p].
Proof.
  intros Hct Hp. unfold open_trade. rewrite Hct. simpl. now rewrite Hp.
Qed.

(** C7. A Long position is open, the detector has returned, the most
    recent candidate with a buy or sell signal is a sell signal within
    [furthest_index] rows of the window's end, and the window has a bar at
    the model's current date closing at [p]. Then [auto_trade] appends
    exactly one row to the ledger, the Long closed at [p] with profit
    [p - entry_price], and leaves one open position of type 'sell' entered
    at [p] on the current date. *)
Theorem flip_long_to_short :
  forall (h : heap) (m : TradeModel) (l : loc) (df : DataFrame)
         (cdt fi dist : Z) (prom : Q) (s : SignalValue) (last : Bar)
         (t : Trade) (i : nat) (b : Bar) (p : Q),
    deref h l = Some df ->
    iloc_last (rows df) = Some last ->
    detect df dist prom true = Ok (SignalLast s) ->
    current_trade m = [t] ->
    type t = buy ->
    status t = open ->
    iloc_last
      (valid_signals
         (signals_since_last_trade (rows (window_after df dist prom))
                                   (latest_trade_date m) (bar_Time last)))
    = Some (i, b) ->
    bar_Signal b = Some Sell ->
    (Z.of_nat (length (rows df) - 1) - Z.of_nat i <= fi)%Z ->
    loc_Close_at df (current_date m) = Ok p ->
    let m' := snd (auto_trade h m l cdt fi dist prom) in
    exists c o : Trade,
      trades m' = trades m ++ [c]
      /\ type c = buy /\ status c = closed
      /\ entry_price c = entry_price t
      /\ exit_price c = Some p
      /\ profit c = Some (p - entry_price t)%Q
      /\ current_trade m' = [o]
      /\ type o = sell /\ status o = open
      /\ entry_price o = p
      /\ entry_date o = current_date m.
Proof.
  intros h m l df cdt fi dist prom s last t i b p
         H Hl Hd Hct Hty Hst Hsel Hsig Hrec Hp m'.
  subst m'.
  rewrite auto_trade_decides with (df := df) (last := last) (s := s)
    by assumption.
  destruct (auto_trade_heap h m l cdt fi dist prom H) as (_ & Hcopy & _).
  set (h' := fst (auto_trade h m l cdt fi dist prom)) in *.
  set (m1 := mkTradeModel (trades m) (current_trade m) (current_date m)
                          (Some (length h))).
  assert (Hlen : length (rows (window_after df dist prom))
                 = length (rows df)).
  { unfold window_after. rewrite Hl, Hd. simpl.
    apply length_loc_set_Signal_rows. }
  unfold trade_on_window.
  change (latest_trade_date m1) with (latest_trade_date m).
  rewrite Hsel, Hsig, Hlen.
  apply Z.leb_le in Hrec. rewrite Hrec.
  unfold trade_on_signal. change (current_trade m1) with (current_trade m).
  rewrite Hct. change (iloc_last [t]) with (Some t). cbv iota beta.
  rewrite Hty. cbn [SignalValue_eqb andb].
  assert (Hp1 : get_close_price h' m1 (current_date m1) = Ok (Some p))
    by (apply get_close_price_copy with (c := length h) (df := df); auto).
  unfold sell_trade.
  rewrite (@close_trade_success h' m1 t [] p Hct Hst Hp1).
  rewrite open_trade_no_position with (p := p); [| reflexivity |].
  - exists (closed_row t (current_date m) p),
           (opened_row sell (current_date m) p).
    simpl. unfold closed_row. rewrite Hty. simpl. repeat split.
  - simpl. rewrite get_close_price_data with (m' := m1) by reflexivity.
    exact Hp1.
Qed.

Lemma flip_long_to_short_witness :
  let s0 := run [OpAutoTrade spike_window 0 (-1) 5 0.1%Q;
                 OpSetCurrentDate 1; OpBuy; OpSetCurrentDate 5] in
  let h := fst s0 ++ [spike_window] in
  let m' := snd (auto_trade h (snd s0) (length (fst s0)) 5 100 5 0.1%Q) in
  current_trade (snd s0) = [opened_row buy (Some 1%Z) 1]
  /\ exists c o : Trade,
      trades m' = trades (snd s0) ++ [c]
      /\ type c = buy /\ status c = closed
      /\ entry_price c = 1%Q
      /\ exit_price c = Some 1%Q
      /\ profit c = Some (1 - 1)%Q
      /\ current_trade m' = [o]
      /\ type o = sell /\ status o = open
      /\ entry_price o = 1%Q
      /\ entry_date o = Some 5%Z.
Proof.
  intros s0 h m'. split; [reflexivity |].
  apply (@flip_long_to_short h (snd s0) (length (fst s0)) spike_window
           5%Z 100%Z 5%Z 0.1%Q Neutral (mkBar 5 1 (Some Neutral) [])
           (opened_row buy (Some 1%Z) 1) 3 (mkBar 3 2 (Some Sell) []) 1%Q);
    try reflexivity.
  vm_compute. discriminate.
Defined.

(** C2, as the code has it. When the selected candidate lies more than
    [furthest_index] rows before the window's end, [auto_trade] opens no
    position. With no position open, or with a position whose type agrees
    with the signal (buy/Buy, sell/Sell), the ledger and the live position
    stay as they were. With a position of the other type, the position is
    closed by [close_trade] (line 133 runs before the recency test) and
    nothing is opened. *)
Theorem stale_signal_opens_nothing :
  forall (h : heap) (m : TradeModel) (l : loc) (df : DataFrame)
         (cdt fi dist : Z) (prom : Q) (s : SignalValue) (last : Bar)
         (i : nat) (b : Bar),
    deref h l = Some df ->
    iloc_last (rows df) = Some last ->
    detect df dist prom true = Ok (SignalLast s) ->
    iloc_last
      (valid_signals
         (signals_since_last_trade (rows (window_after df dist prom))
                                   (latest_trade_date m) (bar_Time last)))
    = Some (i, b) ->
    (fi < Z.of_nat (length (rows df) - 1) - Z.of_nat i)%Z ->
    let h' := fst (auto_trade h m l cdt fi dist prom) in
    let m' := snd (auto_trade h m l cdt fi dist prom) in
    let m1 := mkTradeModel (trades m) (current_trade m) (current_date m)
                           (Some (length h)) in
    (bar_Signal b = Some Buy \/ bar_Signal b = Some Sell)
    /\ m' = match iloc_last (current_trade m) with
            | None => m1
            | Some t =>
                match bar_Signal b, type t with
                | Some Buy, buy => m1
                | Some Sell, sell => m1
                | _, _ => close_trade h' m1
                end
            end
    /\ (current_trade m = [] ->
        trades m' = trades m /\ current_trade m' = [])
    /\ (forall x : Trade, In x (current_trade m') -> In x (current_trade m)).
Proof.
  intros h m l df cdt fi dist prom s last i b H Hl Hd Hsel Hstale h' m' m1.
  assert (Hvalid : bar_Signal b = Some Buy \/ bar_Signal b = Some Sell).
  { apply iloc_last_In in Hsel. unfold valid_signals in Hsel.
    apply filter_In in Hsel. destruct Hsel as [_ Hv]. simpl in Hv.
    destruct (bar_Signal b) as [[| |] |]; try discriminate; auto. }
  assert (Hm' : m' = match iloc_last (current_trade m) with
                     | None => m1
                     | Some t =>
                         match bar_Signal b, type t with
                         | Some Buy, buy => m1
                         | Some Sell, sell => m1
                         | _, _ => close_trade h' m1
                         end
                     end).
  { subst m' h'.
    rewrite auto_trade_decides with (df := df) (last := last) (s := s)
      by assumption.
    fold m1.
    assert (Hlen : length (rows (window_after df dist prom))
                   = length (rows df)).
    { unfold window_after. rewrite Hl, Hd. simpl.
      apply length_loc_set_Signal_rows. }
    unfold trade_on_window.
    change (latest_trade_date m1) with (latest_trade_date m).
    rewrite Hsel, Hlen.
    assert (Hr : (Z.of_nat (length (rows df) - 1) - Z.of_nat i <=? fi)%Z
                 = false) by (apply Z.leb_gt; exact Hstale).
    rewrite Hr. unfold trade_on_signal.
    change (current_trade m1) with (current_trade m).
    destruct Hvalid as [-> | ->];
      destruct (iloc_last (current_trade m)) as [t |];
      try destruct (type t); reflexivity. }
  split; [exact Hvalid |]. split; [exact Hm' |]. split.
  - intro Hct. rewrite Hm', Hct. simpl. auto.
  - intros x. rewrite Hm'.
    assert (Hc : In x (current_trade (close_trade h' m1)) ->
                 In x (current_trade m)).
    { destruct (close_trade_cases h' m1)
        as [-> | (t & rest & p & _ & _ & _ & ->)]; simpl; tauto. }
    destruct (iloc_last (current_trade m)) as [t |]; [| simpl; tauto].
    destruct (bar_Signal b) as [[| |] |], (type t); simpl; tauto.
Qed.

Lemma stale_signal_opens_nothing_witness :
  let h := [spike_window] in
  let m' := snd (auto_trade h TradeModel_init 0 5 1 5 0.1%Q) in
  trades m' = [] /\ current_trade m' = [].
Proof.
  intros h m'.
  assert (H : deref h 0 = Some spike_window) by reflexivity.
  assert (Hl : iloc_last (rows spike_window)
               = Some (mkBar 5 1 (Some Neutral) [])) by reflexivity.
  assert (Hd : detect spike_window 5 0.1%Q true = Ok (SignalLast Neutral))
    by (vm_compute; reflexivity).
  assert (Hsel : iloc_last
                   (valid_signals
                      (signals_since_last_trade
                         (rows (window_after spike_window 5 0.1%Q))
                         (latest_trade_date TradeModel_init) 5))
                 = Some (3, mkBar 3 2 (Some Sell) []))
    by (vm_compute; reflexivity).
  assert (Hstale : (1 < Z.of_nat (length (rows spike_window) - 1)
                        - Z.of_nat 3)%Z) by (vm_compute; reflexivity).
  destruct (@stale_signal_opens_nothing h TradeModel_init 0 spike_window
              5%Z 1%Z 5%Z 0.1%Q Neutral (mkBar 5 1 (Some Neutral) [])
              3 (mkBar 3 2 (Some Sell) []) H Hl Hd Hsel Hstale)
    as (_ & _ & Hn & _).
  exact (Hn eq_refl).
Defined.

(** The claim itself fails with a Long open: the stale sell signal at
    index 3 (two rows before the end, [furthest_index = 1]) closes the
    position, so the ledger grows and the live position is cleared. *)
Lemma stale_signal_closes_counterexample :
  let s0 := run [OpAutoTrade spike_window 0 (-1) 5 0.1%Q;
                 OpSetCurrentDate 1; OpBuy; OpSetCurrentDate 5] in
  let h := fst s0 ++ [spike_window] in
  let m := snd s0 in
  let furthest_index := 1%Z in
  let m' := snd (auto_trade h m (length (fst s0)) 5 furthest_index 5 0.1%Q) in
  trades m = []
  /\ current_trade m = [opened_row buy (Some 1%Z) 1]
  /\ iloc_last
       (valid_signals
          (signals_since_last_trade (rows (window_after spike_window 5 0.1%Q))
                                    (latest_trade_date m) 5))
     = Some (3, mkBar 3 2 (Some Sell) [])
  /\ (furthest_index < Z.of_nat (length (rows spike_window) - 1) - Z.of_nat 3)%Z
  /\ length (trades m') = 1
  /\ current_trade m' = []
  /\ trades m' <> trades m
  /\ current_trade m' <> current_trade m.
Proof.
  vm_compute.
  repeat (split; [reflexivity |]).
  split; intro E; discriminate E.
Qed.

(** ** The boundary [latest_trade_date] and the candidate rows (C1) *)

Lemma In_combine_seq {A : Type} (rs : list A) :
  forall (k i : nat) (b : A),
    In (i, b) (combine (seq k (length rs)) rs)
    <-> k <= i /\ nth_error rs (i - k) = Some b.
Proof.
  induction rs as [| r rs IH]; intros k i b; simpl.
  - split; [contradiction |]. intros [_ H]. destruct (i - k); discriminate.
  - rewrite IH. split.
    + intros [E | [Hle Hn]].
      * injection E as <- <-. split; [lia |]. now rewrite Nat.sub_diag.
      * split; [lia |]. replace (i - k) with (S (i - S k)) by lia.
        exact Hn.
    + intros [Hle Hn]. destruct (Nat.eq_dec i k) as [-> | Hne].
      * left. rewrite Nat.sub_diag in Hn. simpl in Hn. congruence.
      * right. split; [lia |].
        replace (i - k) with (S (i - S k)) in Hn by lia. exact Hn.
Qed.

Lemma In_indexed (rs : list Bar) (i : nat) (b : Bar) :
  In (i, b) (indexed rs) <-> nth_error rs i = Some b.
Proof.
  unfold indexed. rewrite In_combine_seq, Nat.sub_0_r.
  split; [tauto | split; [lia | assumption]].
Qed.

(** C1, as the code has it. The boundary is the entry date of the position
    held in [current_trade] and is [None] as soon as no position is open,
    whatever the ledger holds: a closed trade leaves no boundary. The
    candidate rows are exactly the rows of the window whose 'Time' is at
    most the current date and, when there is a boundary, strictly after
    it; the current date is the 'Time' of the window's last row, the
    argument [current_datetime] not being read. *)
Theorem latest_trade_date_of_open_position :
  (forall m : TradeModel,
      current_trade m = [] -> latest_trade_date m = None)
  /\ (forall (h : heap) (m : TradeModel),
         current_trade (close_trade h m) = [] ->
         latest_trade_date (close_trade h m) = None)
  /\ (forall (m : TradeModel) (t : Trade),
         iloc_last (current_trade m) = Some t ->
         latest_trade_date m = entry_date t)
  /\ (forall (rs : list Bar) (boundary : option Z) (current_date : Z)
             (i : nat) (b : Bar),
         In (i, b) (signals_since_last_trade rs boundary current_date)
         <-> nth_error rs i = Some b
             /\ (bar_Time b <= current_date)%Z
             /\ (forall d : Z, boundary = Some d -> (d < bar_Time b)%Z))
  /\ (forall (h : heap) (m : TradeModel) (l : loc) (df : DataFrame)
             (cdt cdt' fi dist : Z) (prom : Q) (last : Bar) (s : SignalValue),
         deref h l = Some df ->
         iloc_last (rows df) = Some last ->
         detect df dist prom true = Ok (SignalLast s) ->
         auto_trade h m l cdt fi dist prom = auto_trade h m l cdt' fi dist prom
         /\ snd (auto_trade h m l cdt fi dist prom)
            = trade_on_window
                (fst (auto_trade h m l cdt fi dist prom))
                (mkTradeModel (trades m) (current_trade m) (current_date m)
                              (Some (length h)))
                (rows (window_after df dist prom)) (bar_Time last) fi).
Proof.
  split; [| split; [| split; [| split]]].
  - intros m H. unfold latest_trade_date. now rewrite H.
  - intros h m H. unfold latest_trade_date. now rewrite H.
  - intros m t H. unfold latest_trade_date. now rewrite H.
  - intros rs boundary cd i b. unfold signals_since_last_trade.
    destruct boundary as [d |]; rewrite filter_In, In_indexed; simpl.
    + rewrite andb_true_iff, Z.ltb_lt, Z.leb_le. split.
      * intros (Hn & Hlt & Hle). repeat split; auto.
        intros d' [= <-]. exact Hlt.
      * intros (Hn & Hle & Hb). repeat split; auto.
    + rewrite Z.leb_le. split.
      * intros (Hn & Hle). repeat split; auto. discriminate.
      * intros (Hn & Hle & _). auto.
  - intros h m l df cdt cdt' fi dist prom last s H Hl Hd.
    split; [reflexivity |].
    now apply auto_trade_decides with (s := s).
Qed.

Lemma latest_trade_date_of_open_position_witness :
  let s0 := run [OpAutoTrade spike_window 0 (-1) 5 0.1%Q;
                 OpSetCurrentDate 1; OpBuy; OpSetCurrentDate 5] in
  latest_trade_date (snd s0) = Some 1%Z
  /\ latest_trade_date (close_trade (fst s0) (snd s0)) = None.
Proof.
  intro s0.
  destruct latest_trade_date_of_open_position as (_ & Hc & Ho & _).
  split.
  - apply (Ho (snd s0) (opened_row buy (Some 1%Z) 1)).
    vm_compute. reflexivity.
  - apply Hc. vm_compute. reflexivity.
Defined.

(** The claim itself fails once the only trade is closed: the most recent
    trade ever opened was entered at date 1, yet the boundary is [None]
    and the row at date 0 is again a candidate. *)
Lemma closed_trade_boundary_counterexample :
  let s := run [OpAutoTrade spike_window 0 (-1) 5 0.1%Q;
                OpSetCurrentDate 1; OpBuy; OpSetCurrentDate 5; OpClose] in
  let m := snd s in
  length (trades m) = 1
  /\ current_trade m = []
  /\ spec_last_trade_time m = Some 1%Z
  /\ latest_trade_date m = None
  /\ latest_trade_date m <> spec_last_trade_time m
  /\ In (0, mkBar 0 1 (Some Neutral) [])
        (signals_since_last_trade (rows spike_window)
                                  (latest_trade_date m) 5)
  /\ ~ In (0, mkBar 0 1 (Some Neutral) [])
          (signals_since_last_trade (rows spike_window)
                                    (spec_last_trade_time m) 5).
Proof.
  vm_compute.
  repeat (split; [reflexivity |]).
  split; [intro E; discriminate E |].
  split; [now left |].
  intro H. repeat (destruct H as [H | H]; [discriminate H |]). exact H.
Qed.

(* ================================================================== *)
(** * Further properties of the trade engine *)

(** ** Price lookup *)

Lemma filter_first_match {A : Type} (f : A -> bool) :
  forall (l : list A) (b : A) (rest : list A),
    filter f l = b :: rest ->
    exists pre post : list A,
      l = pre ++ b :: post /\ f b = true
      /\ (forall a : A, In a pre -> f a = false).
Proof.
  induction l as [| a l IH]; intros b rest H; simpl in H; [discriminate |].
  destruct (f a) eqn:Ea.
  - injection H as <- _. exists [], l. repeat split; auto.
    intros a' [].
  - destruct (IH b rest H) as (pre & post & -> & Hb & Hpre).
    exists (a :: pre), post. repeat split; auto.
    intros a' [<- | Hin]; auto.
Qed.

Lemma filter_nil_none {A : Type} (f : A -> bool) (l : list A) :
  filter f l = [] <-> forall a : A, In a l -> f a = false.
Proof.
  induction l as [| a l IH]; simpl.
  - split; [intros _ a [] | reflexivity].
  - destruct (f a) eqn:Ea.
    + split; [discriminate |]. intro H. specialize (H a (or_introl eq_refl)).
      congruence.
    + rewrite IH. split.
      * intros H a' [<- | Hin]; auto.
      * intros H a' Hin. apply H. now right.
Qed.

(** [get_close_price] on a model whose data is set: it never raises; it
    returns a price exactly when both columns exist and some row carries
    the date, and the price is the 'Close' of the first such row; it
    returns [None] exactly when a column is missing or no row carries the
    date. *)
Theorem get_close_price_first_match :
  forall (h : heap) (m : TradeModel) (l : loc) (df : DataFrame)
         (date : option Z),
    data m = Some l ->
    deref h l = Some df ->
    (forall e : exn, get_close_price h m date <> Raise e)
    /\ (forall p : Q,
           get_close_price h m date = Ok (Some p) ->
           has_Time df = true /\ has_Close df = true
           /\ exists (pre post : list Bar) (b : Bar),
               rows df = pre ++ b :: post
               /\ Some (bar_Time b) = date
               /\ bar_Close b = p
               /\ forall a : Bar, In a pre -> Some (bar_Time a) <> date)
    /\ (get_close_price h m date = Ok None <->
        has_Time df = false \/ has_Close df = false
        \/ forall a : Bar, In a (rows df) -> Some (bar_Time a) <> date).
Proof.
  intros h m l df date Hd Hl.
  assert (Tis : forall a : Bar,
             Time_is date a = true <-> Some (bar_Time a) = date).
  { intro a. unfold Time_is. destruct date as [d |].
    - rewrite Z.eqb_eq. split; congruence.
    - split; discriminate. }
  assert (Tnot : forall a : Bar,
             Time_is date a = false <-> Some (bar_Time a) <> date).
  { intro a. rewrite <- Tis. destruct (Time_is date a); split; congruence. }
  unfold get_close_price, loc_Close_at. rewrite Hd, Hl.
  destruct (has_Time df), (has_Close df);
    try (split; [discriminate | split; [discriminate |]];
         split; [intros _ | reflexivity]; auto).
  destruct (filter (Time_is date) (rows df)) as [| b rest] eqn:Ef.
  - split; [discriminate |]. split; [discriminate |].
    split; [intros _ | reflexivity]. right. right.
    intros a Ha. apply Tnot. revert a Ha. now apply filter_nil_none.
  - destruct (filter_first_match _ _ Ef) as (pre & post & Hrows & Hb & Hpre).
    split; [discriminate |]. split.
    + intros p [= <-]. repeat split.
      exists pre, post, b. repeat split; auto.
      * now apply Tis.
      * intros a Ha. apply Tnot. now apply Hpre.
    + split; [discriminate |].
      intros [H | [H | H]]; try discriminate.
      exfalso. apply (H b); [| now apply Tis].
      rewrite Hrows. apply in_or_app. right. now left.
Qed.

Lemma get_close_price_first_match_witness :
  let s := run [OpAutoTrade price_window 1 100 5 0.1%Q] in
  get_close_price (fst s) (snd s) (Some 7%Z) = Ok None
  /\ forall e : exn, get_close_price (fst s) (snd s) (Some 2%Z) <> Raise e.
Proof.
  intro s.
  destruct (@get_close_price_first_match (fst s) (snd s) 1 price_window
              (Some 7%Z) eq_refl eq_refl) as (_ & _ & Hn).
  destruct (@get_close_price_first_match (fst s) (snd s) 1 price_window
              (Some 2%Z) eq_refl eq_refl) as (Hr & _).
  split; [| exact Hr].
  apply Hn. right. right. intros a Ha.
  simpl in Ha. destruct Ha as [<- | [<- | [<- | []]]]; discriminate.
Defined.

(** ** Opening without a price *)

(** When no close price can be had for the current date, [buy_trade] and
    [sell_trade] change nothing: no position is opened and the position
    already open, which the call tries to close first, is kept. *)
Theorem open_trade_without_price_unchanged :
  forall (h : heap) (m : TradeModel),
    (forall p : Q, get_close_price h m (current_date m) <> Ok (Some p)) ->
    buy_trade h m = m /\ sell_trade h m = m /\ close_trade h m = m.
Proof.
  intros h m Hno.
  assert (Hc : close_trade h m = m).
  { destruct (close_trade_cases h m)
      as [H | (t & rest & p & _ & _ & Hp & _)]; [exact H |].
    exfalso. exact (Hno p Hp). }
  assert (Ho : forall ty, open_trade ty h m = m).
  { intro ty. unfold open_trade. rewrite Hc.
    destruct (negb (is_empty (current_trade m)));
      destruct (get_close_price h m (current_date m)) as [[p |] | e];
      try reflexivity; exfalso; exact (Hno p eq_refl). }
  split; [apply Ho | split; [apply Ho | exact Hc]].
Qed.

Lemma open_trade_without_price_unchanged_witness :
  let s := run [OpAutoTrade price_window 1 100 5 0.1%Q;
                OpSetCurrentDate 1; OpBuy; OpSetCurrentDate 7] in
  current_trade (snd s) = [opened_row buy (Some 1%Z) 1.2500%Q]
  /\ sell_trade (fst s) (snd s) = snd s.
Proof.
  intro s. split; [reflexivity |].
  apply (@open_trade_without_price_unchanged (fst s) (snd s)).
  intros p. vm_compute. discriminate.
Defined.

(** ** The detector never marks the ends of the window *)

Lemma detect_rolling_inv (df : DataFrame) (distance : Z) (prominence : Q)
      (r : Signals) :
  detect df distance prominence true = Ok r ->
  exists (close_scaled : list Q) (peak_indices valley_indices : list nat)
         (s : SignalValue),
    length close_scaled = length (rows df)
    /\ Scipy.find_peaks close_scaled distance prominence = Ok peak_indices
    /\ Scipy.find_peaks (map Qopp close_scaled) distance prominence
       = Ok valley_indices
    /\ iloc_last (signal_array (length (rows df)) peak_indices valley_indices)
       = Some s
    /\ r = SignalLast s.
Proof.
  unfold detect, column_Close, column_Time.
  destruct (has_Close df); [| discriminate].
  destruct (has_Time df); [| discriminate].
  destruct (MinMaxScaler.fit_transform (map bar_Close (rows df)))
    as [cs |] eqn:Ef; [| discriminate].
  assert (Hlen : length cs = length (rows df)).
  { unfold MinMaxScaler.fit_transform in Ef.
    destruct (map bar_Close (rows df)) as [| x0 rest] eqn:Em;
      [discriminate |].
    injection Ef as <-.
    apply (f_equal (@length Q)) in Em. rewrite length_map in Em.
    simpl in *. rewrite length_map. lia. }
  destruct (Scipy.find_peaks cs distance prominence) as [pk |] eqn:Ep;
    [| discriminate].
  destruct (Scipy.find_peaks (map Qopp cs) distance prominence)
    as [vl |] eqn:Ev; [| discriminate].
  rewrite Hlen.
  destruct (rev (signal_array (length (rows df)) pk vl)) as [| s rest] eqn:Er;
    [discriminate |].
  intros [= <-]. exists cs, pk, vl, s. repeat split; auto.
  unfold iloc_last. now rewrite Er.
Qed.

Lemma iloc_last_nth {A : Type} (l : list A) (a d : A) :
  iloc_last l = Some a -> nth (length l - 1) l d = a.
Proof.
  destruct (iloc_last_cases l) as [[_ H] | (l' & b & -> & H)];
    rewrite H; [discriminate |].
  intros [= ->]. rewrite length_app. simpl.
  replace (length l' + 1 - 1) with (length l') by lia.
  rewrite app_nth2 by lia. now rewrite Nat.sub_diag.
Qed.

Lemma length_signal_array (n : nat) (pk vl : list nat) :
  length (signal_array n pk vl) = n.
Proof.
  unfold signal_array. now rewrite !length_assign, repeat_length.
Qed.

Lemma find_peaks_ge_1 (x : list Q) (distance : Z) (prominence : Q)
      (peaks : list nat) (m : nat) :
  Scipy.find_peaks x distance prominence = Ok peaks ->
  In m peaks ->
  1 <= m.
Proof.
  intros H Hin.
  destruct (find_peaks_plateau x distance prominence m H Hin)
    as (l & r & Hl & Hlm & _).
  lia.
Qed.

Lemma rolling_signal_is_neutral_aux (df : DataFrame) (distance : Z)
      (prominence : Q) (s : SignalValue) :
  detect df distance prominence true = Ok (SignalLast s) -> s = Neutral.
Proof.
  intro H.
  destruct (detect_rolling_inv _ _ _ H)
    as (cs & pk & vl & s' & Hlen & Hp & Hv & Hlast & [= <-]).
  apply iloc_last_nth with (d := Neutral) in Hlast.
  rewrite length_signal_array in Hlast. rewrite <- Hlast.
  unfold signal_array.
  rewrite nth_assign_notin.
  - rewrite nth_assign_notin; [apply nth_repeat |].
    intro Hin. pose proof (@find_peaks_lt _ _ _ _ _ Hp Hin). lia.
  - intro Hin. pose proof (@find_peaks_lt _ _ _ _ _ Hv Hin) as Hlt.
    rewrite length_map in Hlt. lia.
Qed.

Lemma rolling_signal_is_neutral_full (df : DataFrame) (distance : Z)
      (prominence : Q) (signal : list SignalValue) :
  detect df distance prominence false = Ok (SignalArray signal) ->
  detect df distance prominence true = Ok (SignalLast Neutral).
Proof.
  intro H.
  destruct (detect df distance prominence true) as [[sig | s] | e] eqn:E.
  - destruct (detect_rolling_inv _ _ _ E) as (_ & _ & _ & s & _ & _ & _ & _ & [=]).
  - now rewrite (rolling_signal_is_neutral_aux _ _ _ E).
  - exfalso. revert H E. unfold detect.
    destruct (column_Close df); [| discriminate].
    destruct (column_Time df); [| discriminate].
    destruct (MinMaxScaler.fit_transform a) as [cs |] eqn:Ef;
      [| discriminate].
    destruct (Scipy.find_peaks cs distance prominence); [| discriminate].
    destruct (Scipy.find_peaks (map Qopp cs) distance prominence);
      [| discriminate].
    intros _.
    destruct (rev (signal_array (length cs) a1 a2)) as [| s rest] eqn:Er;
      [| discriminate].
    intros _.
    apply (f_equal (@length SignalValue)) in Er.
    rewrite length_rev, length_signal_array in Er. simpl in Er.
    unfold MinMaxScaler.fit_transform in Ef.
    destruct a; [discriminate |]. injection Ef as <-. discriminate Er.
Qed.

(** With [rolling] set the detector, whenever it returns, returns 1.0
    (neutral): scipy never reports the last sample as a peak, so the value
    that [auto_trade] writes into the last row is always neutral. A window
    on which the full array is computed is one on which the rolling call
    returns too. *)
Theorem rolling_signal_is_neutral :
  forall (df : DataFrame) (distance : Z) (prominence : Q),
    (forall r : Signals,
        detect df distance prominence true = Ok r -> r = SignalLast Neutral)
    /\ (forall signal : list SignalValue,
           detect df distance prominence false = Ok (SignalArray signal) ->
           detect df distance prominence true = Ok (SignalLast Neutral)).
Proof.
  intros df distance prominence.
  assert (R : forall r, detect df distance prominence true = Ok r ->
                        r = SignalLast Neutral).
  { intros r H.
    destruct (detect_rolling_inv _ _ _ H)
      as (cs & pk & vl & s & Hlen & Hp & Hv & Hlast & ->).
    f_equal.
    apply iloc_last_nth with (d := Neutral) in Hlast.
    rewrite length_signal_array in Hlast. rewrite <- Hlast.
    unfold signal_array.
    rewrite nth_assign_notin.
    - rewrite nth_assign_notin; [apply nth_repeat |].
      intro Hin. pose proof (@find_peaks_lt _ _ _ _ _ Hp Hin). lia.
    - intro Hin. pose proof (@find_peaks_lt _ _ _ _ _ Hv Hin) as Hlt.
      rewrite length_map in Hlt. lia. }
  split; [exact R |].
  intros signal H.
  destruct (detect df distance prominence true) as [r | e] eqn:E.
  - now rewrite (R r eq_refl).
  - exfalso. revert H E. unfold detect.
    destruct (column_Close df); [| discriminate].
    destruct (column_Time df); [| discriminate].
    destruct (MinMaxScaler.fit_transform a) as [cs |] eqn:Ef;
      [| discriminate].
    destruct (Scipy.find_peaks cs distance prominence); [| discriminate].
    destruct (Scipy.find_peaks (map Qopp cs) distance prominence);
      [| discriminate].
    intros _.
    destruct (rev (signal_array (length cs) a1 a2)) as [| s rest] eqn:Er;
      [| discriminate].
    intros _.
    apply (f_equal (@length SignalValue)) in Er.
    rewrite length_rev, length_signal_array in Er. simpl in Er.
    unfold MinMaxScaler.fit_transform in Ef.
    destruct a; [discriminate |]. injection Ef as <-. discriminate Er.
Qed.

(** In the full signal array the first and the last entry are neutral, and
    the array is as long as the window. *)
Theorem signal_array_ends_neutral :
  forall (df : DataFrame) (distance : Z) (prominence : Q)
         (signal : list SignalValue),
    detect df distance prominence false = Ok (SignalArray signal) ->
    length signal = length (rows df)
    /\ nth 0 signal Neutral = Neutral
    /\ nth (length signal - 1) signal Neutral = Neutral.
Proof.
  intros df distance prominence signal H.
  destruct (detect_array_inv _ _ _ H) as (cs & pk & vl & Hlen & Hp & Hv & ->).
  rewrite length_signal_array. split; [reflexivity |].
  unfold signal_array. split.
  - rewrite nth_assign_notin.
    + rewrite nth_assign_notin; [apply nth_repeat |].
      intro Hin. pose proof (find_peaks_ge_1 _ _ _ _ Hp Hin). lia.
    + intro Hin. pose proof (find_peaks_ge_1 _ _ _ _ Hv Hin). lia.
  - rewrite nth_assign_notin.
    + rewrite nth_assign_notin; [apply nth_repeat |].
      intro Hin. pose proof (@find_peaks_lt _ _ _ _ _ Hp Hin). lia.
    + intro Hin. pose proof (@find_peaks_lt _ _ _ _ _ Hv Hin) as Hlt.
      rewrite length_map in Hlt. lia.
Qed.

Lemma signal_array_ends_neutral_witness :
  nth 0 [Neutral; Neutral; Neutral; Sell; Neutral; Neutral] Neutral = Neutral
  /\ nth 5 [Neutral; Neutral; Neutral; Sell; Neutral; Neutral] Neutral
     = Neutral.
Proof.
  assert (H : detect spike_window 1 0.1%Q false
              = Ok (SignalArray
                      [Neutral; Neutral; Neutral; Sell; Neutral; Neutral]))
    by (vm_compute; reflexivity).
  destruct (@signal_array_ends_neutral spike_window 1%Z 0.1%Q _ H)
    as (_ & H0 & H5).
  split; [exact H0 | exact H5].
Defined.

Lemma rolling_signal_is_neutral_witness :
  detect spike_window 5 0.1%Q true = Ok (SignalLast Neutral).
Proof.
  destruct (rolling_signal_is_neutral spike_window 1%Z 0.1%Q) as [_ H].
  destruct (rolling_signal_is_neutral spike_window 5%Z 0.1%Q) as [H5 _].
  destruct (detect spike_window 5 0.1%Q true) as [r | e] eqn:E.
  - now rewrite (H5 r eq_refl).
  - vm_compute in E. discriminate E.
Defined.

(** ** More on the decision taken by [auto_trade] *)

Lemma In_signals_since_last_trade (rs : list Bar) (boundary : option Z)
      (current_date : Z) (i : nat) (b : Bar) :
  In (i, b) (signals_since_last_trade rs boundary current_date)
  <-> nth_error rs i = Some b
      /\ (bar_Time b <= current_date)%Z
      /\ (forall d : Z, boundary = Some d -> (d < bar_Time b)%Z).
Proof.
  unfold signals_since_last_trade.
  destruct boundary as [d |]; rewrite filter_In, In_indexed; simpl.
  - rewrite andb_true_iff, Z.ltb_lt, Z.leb_le. split.
    + intros (Hn & Hlt & Hle). repeat split; auto.
      intros d' [= <-]. exact Hlt.
    + intros (Hn & Hle & Hb). repeat split; auto.
  - rewrite Z.leb_le. split.
    + intros (Hn & Hle). repeat split; auto. discriminate.
    + intros (Hn & Hle & _). auto.
Qed.

(** The selected candidate is a row of the window with a buy or sell
    signal, inside the time bounds. *)
Lemma selected_candidate (rs : list Bar) (boundary : option Z)
      (current_date : Z) (i : nat) (b : Bar) :
  iloc_last (valid_signals (signals_since_last_trade rs boundary current_date))
  = Some (i, b) ->
  nth_error rs i = Some b
  /\ (bar_Signal b = Some Buy \/ bar_Signal b = Some Sell)
  /\ (bar_Time b <= current_date)%Z
  /\ (forall d : Z, boundary = Some d -> (d < bar_Time b)%Z).
Proof.
  intro H. apply iloc_last_In in H. unfold valid_signals in H.
  apply filter_In in H. destruct H as [Hin Hv]. simpl in Hv.
  apply In_signals_since_last_trade in Hin.
  destruct Hin as (Hn & Hle & Hb). repeat split; auto.
  destruct (bar_Signal b) as [[| |] |]; try discriminate; auto.
Qed.

Lemma no_candidate (rs : list Bar) (boundary : option Z) (current_date : Z) :
  (forall (i : nat) (b : Bar),
      nth_error rs i = Some b ->
      (bar_Time b <= current_date)%Z ->
      (forall d : Z, boundary = Some d -> (d < bar_Time b)%Z) ->
      isin_0_2 (bar_Signal b) = false) ->
  iloc_last (valid_signals (signals_since_last_trade rs boundary current_date))
  = None.
Proof.
  intro H.
  destruct (iloc_last _) as [[i b] |] eqn:E; [| reflexivity].
  exfalso. apply iloc_last_In in E. unfold valid_signals in E.
  apply filter_In in E. destruct E as [Hin Hv]. simpl in Hv.
  apply In_signals_since_last_trade in Hin.
  destruct Hin as (Hn & Hle & Hb). rewrite (H i b Hn Hle Hb) in Hv.
  discriminate.
Qed.

Lemma window_after_rows (df : DataFrame) (dist : Z) (prom : Q) (last : Bar)
      (s : SignalValue) :
  iloc_last (rows df) = Some last ->
  detect df dist prom true = Ok (SignalLast s) ->
  length (rows (window_after df dist prom)) = length (rows df)
  /\ forall (j : nat) (b' : Bar),
      nth_error (rows (window_after df dist prom)) j = Some b' ->
      exists b : Bar,
        nth_error (rows df) j = Some b
        /\ bar_Time b' = bar_Time b
        /\ (S j <> length (rows df) -> b' = b)
        /\ (S j = length (rows df) -> bar_Signal b' = Some Neutral).
Proof.
  intros Hl Hd.
  assert (Hs : s = Neutral).
  { destruct (rolling_signal_is_neutral_aux df dist prom Hd). reflexivity. }
  subst s. unfold window_after. rewrite Hl, Hd. simpl.
  split; [apply length_loc_set_Signal_rows |].
  intros j b' Hj.
  assert (Hjlt : j < length (rows df)).
  { rewrite <- (length_loc_set_Signal_rows (Some Neutral) (rows df)
                  (length (rows df) - 1)).
    apply nth_error_Some. congruence. }
  destruct (nth_error (rows df) j) as [b |] eqn:Eb;
    [| apply nth_error_None in Eb; lia].
  destruct (@loc_set_Signal_rows_spec (Some Neutral) (rows df)
              (length (rows df) - 1) j b Eb)
    as (b2 & H1 & H2 & H3 & H4 & H5 & H6).
  rewrite Hj in H1. injection H1 as <-.
  exists b. repeat split; auto.
  - intro Hne. apply H5. lia.
  - intro He. apply H6. lia.
Qed.

Lemma trade_on_window_selected (h : heap) (m : TradeModel) (rs : list Bar)
      (cd fi : Z) (i : nat) (b : Bar) :
  iloc_last (valid_signals
               (signals_since_last_trade rs (latest_trade_date m) cd))
  = Some (i, b) ->
  trade_on_window h m rs cd fi
  = trade_on_signal h m (bar_Signal b)
      (Z.of_nat (length rs - 1) - Z.of_nat i <=? fi)%Z.
Proof. intro H. unfold trade_on_window. now rewrite H. Qed.

Lemma trade_on_window_none (h : heap) (m : TradeModel) (rs : list Bar)
      (cd fi : Z) :
  iloc_last (valid_signals
               (signals_since_last_trade rs (latest_trade_date m) cd))
  = None ->
  trade_on_window h m rs cd fi = m.
Proof. intro H. unfold trade_on_window. now rewrite H. Qed.

(** No redundant re-entry: when the position held already has the type the
    selected signal asks for (buy for a buy signal, sell for a sell
    signal), [auto_trade] neither closes nor opens, whatever the recency;
    only [model.data] is renewed. *)
Theorem no_redundant_reentry :
  forall (h : heap) (m : TradeModel) (l : loc) (df : DataFrame)
         (cdt fi dist : Z) (prom : Q) (s : SignalValue) (last : Bar)
         (t : Trade) (i : nat) (b : Bar),
    deref h l = Some df ->
    iloc_last (rows df) = Some last ->
    detect df dist prom true = Ok (SignalLast s) ->
    iloc_last (current_trade m) = Some t ->
    iloc_last
      (valid_signals
         (signals_since_last_trade (rows (window_after df dist prom))
                                   (latest_trade_date m) (bar_Time last)))
    = Some (i, b) ->
    (bar_Signal b = Some Buy /\ type t = buy)
    \/ (bar_Signal b = Some Sell /\ type t = sell) ->
    snd (auto_trade h m l cdt fi dist prom)
    = mkTradeModel (trades m) (current_trade m) (current_date m)
                   (Some (length h)).
Proof.
  intros h m l df cdt fi dist prom s last t i b H Hl Hd Ht Hsel Hagree.
  rewrite auto_trade_decides with (df := df) (last := last) (s := s)
    by assumption.
  rewrite trade_on_window_selected with (i := i) (b := b) by exact Hsel.
  unfold trade_on_signal. simpl current_trade. rewrite Ht.
  destruct Hagree as [[-> ->] | [-> ->]]; reflexivity.
Qed.

Lemma no_redundant_reentry_witness :
  let s0 := run [OpAutoTrade spike_window 0 (-1) 5 0.1%Q;
                 OpSetCurrentDate 1; OpSell; OpSetCurrentDate 5] in
  let h := fst s0 ++ [spike_window] in
  snd (auto_trade h (snd s0) (length (fst s0)) 5 100 5 0.1%Q)
  = mkTradeModel [] [opened_row sell (Some 1%Z) 1] (Some 5%Z) (Some 4).
Proof.
  intros s0 h.
  assert (H : deref h (length (fst s0)) = Some spike_window) by reflexivity.
  assert (Hl : iloc_last (rows spike_window)
               = Some (mkBar 5 1 (Some Neutral) [])) by reflexivity.
  assert (Hd : detect spike_window 5 0.1%Q true = Ok (SignalLast Neutral))
    by (vm_compute; reflexivity).
  assert (Ht : iloc_last (current_trade (snd s0))
               = Some (opened_row sell (Some 1%Z) 1))
    by (vm_compute; reflexivity).
  assert (Hsel : iloc_last
                   (valid_signals
                      (signals_since_last_trade
                         (rows (window_after spike_window 5 0.1%Q))
                         (latest_trade_date (snd s0)) 5))
                 = Some (3, mkBar 3 2 (Some Sell) []))
    by (vm_compute; reflexivity).
  exact (@no_redundant_reentry h (snd s0) (length (fst s0)) spike_window
           5%Z 100%Z 5%Z 0.1%Q Neutral _ _ 3 _ H Hl Hd Ht Hsel
           (or_intror (conj eq_refl eq_refl))).
Defined.

Lemma no_candidate_no_action_aux :
  forall (h : heap) (m : TradeModel) (l : loc) (df : DataFrame)
         (cdt fi dist : Z) (prom : Q) (last : Bar),
    deref h l = Some df ->
    iloc_last (rows df) = Some last ->
    (forall (j : nat) (b : Bar),
        nth_error (rows df) j = Some b ->
        S j <> length (rows df) ->
        (bar_Time b <= bar_Time last)%Z ->
        (forall d : Z, latest_trade_date m = Some d -> (d < bar_Time b)%Z) ->
        bar_Signal b <> Some Buy /\ bar_Signal b <> Some Sell) ->
    snd (auto_trade h m l cdt fi dist prom)
    = mkTradeModel (trades m) (current_trade m) (current_date m)
                   (Some (length h)).
Proof.
  intros h m l df cdt fi dist prom last H Hl Hnone.
  destruct (detect df dist prom true) as [[sig | s] | e] eqn:Hd.
  1,3: rewrite auto_trade_unfold with (df := df) by assumption;
       rewrite Hl, Hd; reflexivity.
  rewrite auto_trade_decides with (df := df) (last := last) (s := s)
    by assumption.
  apply trade_on_window_none. apply no_candidate.
  intros j b' Hj Hle Hb.
  destruct (window_after_rows df dist prom Hl Hd) as [_ Hrows].
  destruct (Hrows j b' Hj) as (b & Hn & Ht & Hsame & Hlast).
  destruct (Nat.eq_dec (S j) (length (rows df))) as [E | E].
  - now rewrite (Hlast E).
  - rewrite (Hsame E) in *.
    destruct (Hnone j b Hn E Hle Hb) as [H1 H2].
    destruct (bar_Signal b) as [[| |] |]; try reflexivity; congruence.
Qed.

(** When no row before the last one, inside the time bounds, carries a buy
    or sell signal, [auto_trade] takes no action: the last row itself never
    counts, since the signal written into it is neutral. *)
Theorem no_candidate_no_action :
  forall (h : heap) (m : TradeModel) (l : loc) (df : DataFrame)
         (cdt fi dist : Z) (prom : Q) (last : Bar),
    deref h l = Some df ->
    iloc_last (rows df) = Some last ->
    (forall (j : nat) (b : Bar),
        nth_error (rows df) j = Some b ->
        S j <> length (rows df) ->
        (bar_Time b <= bar_Time last)%Z ->
        (forall d : Z, latest_trade_date m = Some d -> (d < bar_Time b)%Z) ->
        bar_Signal b <> Some Buy /\ bar_Signal b <> Some Sell) ->
    snd (auto_trade h m l cdt fi dist prom)
    = mkTradeModel (trades m) (current_trade m) (current_date m)
                   (Some (length h)).
Proof. exact no_candidate_no_action_aux. Qed.

Lemma no_candidate_no_action_witness :
  snd (auto_trade [price_window] TradeModel_init 0 3 100 5 0.1%Q)
  = mkTradeModel [] [] None (Some 1).
Proof.
  apply (@no_candidate_no_action [price_window] TradeModel_init 0
           price_window 3%Z 100%Z 5%Z 0.1%Q (mkBar 3 1.2480 None []));
    try reflexivity.
  intros j b Hj _ _ _.
  destruct j as [| [| [| j]]]; simpl in Hj;
    try (destruct j; discriminate);
    injection Hj as <-; split; discriminate.
Defined.

(** From a flat book, a recent buy signal opens a Long and a recent sell
    signal a Short, entered on the model's current date at the close the
    window shows for that date; the ledger is not touched. *)
Theorem open_from_flat :
  forall (h : heap) (m : TradeModel) (l : loc) (df : DataFrame)
         (cdt fi dist : Z) (prom : Q) (s : SignalValue) (last : Bar)
         (i : nat) (b : Bar) (p : Q),
    deref h l = Some df ->
    iloc_last (rows df) = Some last ->
    detect df dist prom true = Ok (SignalLast s) ->
    current_trade m = [] ->
    iloc_last
      (valid_signals
         (signals_since_last_trade (rows (window_after df dist prom))
                                   (latest_trade_date m) (bar_Time last)))
    = Some (i, b) ->
    (Z.of_nat (length (rows df) - 1) - Z.of_nat i <= fi)%Z ->
    loc_Close_at df (current_date m) = Ok p ->
    let m' := snd (auto_trade h m l cdt fi dist prom) in
    trades m' = trades m
    /\ (bar_Signal b = Some Buy ->
        current_trade m' = [opened_row buy (current_date m) p])
    /\ (bar_Signal b = Some Sell ->
        current_trade m' = [opened_row sell (current_date m) p]).
Proof.
  intros h m l df cdt fi dist prom s last i b p
         H Hl Hd Hct Hsel Hrec Hp m'.
  subst m'.
  rewrite auto_trade_decides with (df := df) (last := last) (s := s)
    by assumption.
  destruct (auto_trade_heap h m l cdt fi dist prom H) as (_ & Hcopy & _).
  set (h' := fst (auto_trade h m l cdt fi dist prom)) in *.
  set (m1 := mkTradeModel (trades m) (current_trade m) (current_date m)
                          (Some (length h))).
  rewrite trade_on_window_selected with (i := i) (b := b) by exact Hsel.
  destruct (window_after_rows df dist prom Hl Hd) as [Hlen _].
  rewrite Hlen. apply Z.leb_le in Hrec. rewrite Hrec.
  assert (Hp1 : get_close_price h' m1 (current_date m1) = Ok (Some p))
    by (apply get_close_price_copy with (c := length h) (df := df); auto).
  assert (Ho : forall ty, open_trade ty h' m1
                          = with_current_trade m1
                              [opened_row ty (current_date m) p])
    by (intro ty;
        apply (@open_trade_no_position ty h' m1 p Hct Hp1)).
  destruct (selected_candidate _ _ _ Hsel) as (_ & Hv & _).
  unfold trade_on_signal, buy_trade, sell_trade.
  change (current_trade m1) with (current_trade m). rewrite Hct.
  change (iloc_last (@nil Trade)) with (@None Trade).
  destruct Hv as [-> | ->]; cbn [SignalValue_eqb andb]; rewrite Ho;
    simpl; repeat split; auto; discriminate.
Qed.

Lemma open_from_flat_witness :
  let m' := snd (auto_trade [spike_window]
                   (set_current_date TradeModel_init 5) 0 5 100 5 0.1%Q) in
  trades m' = [] /\ current_trade m' = [opened_row sell (Some 5%Z) 1].
Proof.
  intro m'.
  assert (Hd : detect spike_window 5 0.1%Q true = Ok (SignalLast Neutral))
    by (vm_compute; reflexivity).
  assert (Hsel : iloc_last
                   (valid_signals
                      (signals_since_last_trade
                         (rows (window_after spike_window 5 0.1%Q))
                         (latest_trade_date
                            (set_current_date TradeModel_init 5)) 5))
                 = Some (3, mkBar 3 2 (Some Sell) []))
    by (vm_compute; reflexivity).
  assert (Hrec : (Z.of_nat (length (rows spike_window) - 1) - Z.of_nat 3
                  <= 100)%Z) by (vm_compute; discriminate).
  destruct (@open_from_flat [spike_window]
              (set_current_date TradeModel_init 5) 0 spike_window
              5%Z 100%Z 5%Z 0.1%Q Neutral (mkBar 5 1 (Some Neutral) [])
              3 (mkBar 3 2 (Some Sell) []) 1%Q
              eq_refl eq_refl Hd eq_refl Hsel Hrec eq_refl)
    as (Ht & _ & Hs).
  split; [exact Ht | exact (Hs eq_refl)].
Defined.

Lemma close_trade_keeps_no_new_position (h : heap) (m : TradeModel)
      (x : Trade) :
  In x (current_trade (close_trade h m)) -> In x (current_trade m).
Proof.
  destruct (close_trade_cases h m)
    as [-> | (t & rest & p & _ & _ & _ & ->)]; simpl; tauto.
Qed.

(** The candidate that [auto_trade] selects is never the last row of the
    window, so its distance from the window's end is at least one row; with
    [furthest_index <= 0] the call therefore never opens a position,
    whatever the window and the model. *)
Theorem never_acts_on_last_row :
  forall (h : heap) (m : TradeModel) (l : loc) (df : DataFrame)
         (cdt fi dist : Z) (prom : Q),
    deref h l = Some df ->
    (forall (s : SignalValue) (last : Bar) (i : nat) (b : Bar),
        iloc_last (rows df) = Some last ->
        detect df dist prom true = Ok (SignalLast s) ->
        iloc_last
          (valid_signals
             (signals_since_last_trade (rows (window_after df dist prom))
                                       (latest_trade_date m) (bar_Time last)))
        = Some (i, b) ->
        S i < length (rows df)
        /\ (1 <= Z.of_nat (length (rows df) - 1) - Z.of_nat i)%Z)
    /\ ((fi <= 0)%Z ->
        forall x : Trade,
          In x (current_trade (snd (auto_trade h m l cdt fi dist prom))) ->
          In x (current_trade m)).
Proof.
  intros h m l df cdt fi dist prom H.
  assert (A : forall (s : SignalValue) (last : Bar) (i : nat) (b : Bar),
             iloc_last (rows df) = Some last ->
             detect df dist prom true = Ok (SignalLast s) ->
             iloc_last
               (valid_signals
                  (signals_since_last_trade
                     (rows (window_after df dist prom))
                     (latest_trade_date m) (bar_Time last)))
             = Some (i, b) ->
             S i < length (rows df)).
  { intros s last i b Hl Hd Hsel.
    destruct (selected_candidate _ _ _ Hsel) as (Hn & Hv & _).
    destruct (window_after_rows df dist prom Hl Hd) as [Hlen Hrows].
    destruct (Hrows i b Hn) as (b0 & Hn0 & _ & _ & Hlast).
    assert (i < length (rows df)) by (apply nth_error_Some; congruence).
    destruct (Nat.eq_dec (S i) (length (rows df))) as [E | E]; [| lia].
    rewrite (Hlast E) in Hv. destruct Hv; discriminate. }
  split.
  - intros s last i b Hl Hd Hsel.
    pose proof (A s last i b Hl Hd Hsel). split; [assumption | lia].
  - intros Hfi x.
    destruct (iloc_last (rows df)) as [last |] eqn:Hl.
    2:{ rewrite auto_trade_unfold with (df := df) by assumption.
        rewrite Hl. simpl. tauto. }
    destruct (detect df dist prom true) as [[sig | s] | e] eqn:Hd.
    1,3: rewrite auto_trade_unfold with (df := df) by assumption;
         rewrite Hl, Hd; simpl; tauto.
    rewrite auto_trade_decides with (df := df) (last := last) (s := s)
      by assumption.
    set (h3 := fst (auto_trade h m l cdt fi dist prom)).
    set (m1 := mkTradeModel (trades m) (current_trade m) (current_date m)
                            (Some (length h))).
    destruct (iloc_last
                (valid_signals
                   (signals_since_last_trade
                      (rows (window_after df dist prom))
                      (latest_trade_date m1) (bar_Time last))))
      as [[i b] |] eqn:Hsel.
    + rewrite trade_on_window_selected with (i := i) (b := b) by exact Hsel.
      pose proof (A s last i b eq_refl eq_refl Hsel) as Hi.
      destruct (window_after_rows df dist prom Hl Hd) as [Hlen _].
      rewrite Hlen.
      assert (Hr : (Z.of_nat (length (rows df) - 1) - Z.of_nat i <=? fi)%Z
                   = false) by (apply Z.leb_gt; lia).
      rewrite Hr. unfold trade_on_signal.
      change (current_trade m1) with (current_trade m).
      destruct (bar_Signal b) as [[| |] |]; try tauto;
        destruct (iloc_last (current_trade m)) as [t |]; try tauto;
        destruct (type t); simpl; try tauto;
        apply close_trade_keeps_no_new_position.
    + rewrite trade_on_window_none by exact Hsel. simpl. tauto.
Qed.

Lemma never_acts_on_last_row_witness :
  current_trade (snd (auto_trade [spike_window]
                        (set_current_date TradeModel_init 5) 0 5 0 5 0.1%Q))
  = [].
Proof.
  destruct (@never_acts_on_last_row [spike_window]
              (set_current_date TradeModel_init 5) 0 spike_window
              5%Z 0%Z 5%Z 0.1%Q eq_refl) as [_ H].
  specialize (H ltac:(lia)).
  destruct (current_trade
              (snd (auto_trade [spike_window]
                      (set_current_date TradeModel_init 5) 0 5 0 5 0.1%Q)))
    as [| x ct]; [reflexivity |].
  exfalso. exact (H x (or_introl eq_refl)).
Defined.

(** Signals are consumed through the boundary: when the open position was
    entered at or after the 'Time' of the window's last row, no row is a
    candidate and [auto_trade] takes no action. *)
Theorem boundary_at_window_end_no_action :
  forall (h : heap) (m : TradeModel) (l : loc) (df : DataFrame)
         (cdt fi dist : Z) (prom : Q) (last : Bar) (d : Z),
    deref h l = Some df ->
    iloc_last (rows df) = Some last ->
    latest_trade_date m = Some d ->
    (bar_Time last <= d)%Z ->
    snd (auto_trade h m l cdt fi dist prom)
    = mkTradeModel (trades m) (current_trade m) (current_date m)
                   (Some (length h)).
Proof.
  intros h m l df cdt fi dist prom last d H Hl Hb Hle.
  apply no_candidate_no_action_aux with (df := df) (last := last); auto.
  intros j b _ _ Hj Hd. specialize (Hd d Hb). lia.
Qed.

Lemma boundary_at_window_end_no_action_witness :
  let s0 := run [OpAutoTrade spike_window 0 (-1) 5 0.1%Q;
                 OpSetCurrentDate 5; OpSell] in
  let h := fst s0 ++ [spike_window] in
  snd (auto_trade h (snd s0) (length (fst s0)) 5 100 5 0.1%Q)
  = mkTradeModel [] [opened_row sell (Some 5%Z) 1] (Some 5%Z) (Some 4).
Proof.
  intros s0 h.
  assert (H : deref h (length (fst s0)) = Some spike_window) by reflexivity.
  assert (Hb : latest_trade_date (snd s0) = Some 5%Z)
    by (vm_compute; reflexivity).
  exact (@boundary_at_window_end_no_action h (snd s0) (length (fst s0))
           spike_window 5%Z 100%Z 5%Z 0.1%Q (mkBar 5 1 (Some Neutral) [])
           5%Z H eq_refl Hb ltac:(simpl; lia)).
Defined.

(** ** The ledger in every reachable state *)

Lemma rows_ok_close_trade (h : heap) (m : TradeModel) :
  Forall ledger_row_ok (trades m) /\ Forall live_row_ok (current_trade m)
  /\ length (current_trade m) <= 1 ->
  Forall ledger_row_ok (trades (close_trade h m))
  /\ Forall live_row_ok (current_trade (close_trade h m))
  /\ length (current_trade (close_trade h m)) <= 1.
Proof.
  intros (Hl & Hc & Hlen).
  destruct (close_trade_cases h m)
    as [-> | (t & rest & p & Hct & Hst & _ & ->)]; [auto |].
  rewrite Hct in Hlen. simpl in Hlen.
  assert (rest = []) as -> by (destruct rest; simpl in *; [auto | lia]).
  simpl. repeat split; auto.
  apply Forall_app. split; [exact Hl |].
  constructor; [| constructor].
  split; [reflexivity |]. exists p. simpl. split; reflexivity.
Qed.

Lemma rows_ok_open_trade (ty : TradeType) (h : heap) (m : TradeModel) :
  Forall ledger_row_ok (trades m) /\ Forall live_row_ok (current_trade m)
  /\ length (current_trade m) <= 1 ->
  Forall ledger_row_ok (trades (open_trade ty h m))
  /\ Forall live_row_ok (current_trade (open_trade ty h m))
  /\ length (current_trade (open_trade ty h m)) <= 1.
Proof.
  intro Hm.
  assert (H0 : let m0 := if negb (is_empty (current_trade m))
                         then close_trade h m else m in
               Forall ledger_row_ok (trades m0)
               /\ Forall live_row_ok (current_trade m0)
               /\ length (current_trade m0) <= 1)
    by (simpl; destruct (negb (is_empty (current_trade m)));
        [now apply rows_ok_close_trade | exact Hm]).
  destruct (open_trade_cases ty h m) as [-> | (p & _ & ->)]; [exact H0 |].
  destruct H0 as (Hl & _ & _). simpl. repeat split; auto.
  constructor; [| constructor]. now repeat split.
Qed.

(** In every state reached from a new model by any sequence of commands
    and [auto_trade] calls, every ledger row is 'closed' and carries an
    exit price and the matching profit (exit - entry for 'buy',
    entry - exit for 'sell'), and the live position, if any, is 'open' with
    empty exit columns. *)
Theorem reachable_rows_ok :
  forall ops : list Op,
    Forall ledger_row_ok (trades (snd (run ops)))
    /\ Forall live_row_ok (current_trade (snd (run ops))).
Proof.
  intro ops.
  set (P := fun m : TradeModel =>
              Forall ledger_row_ok (trades m)
              /\ Forall live_row_ok (current_trade m)
              /\ length (current_trade m) <= 1).
  assert (G : forall s, P (snd s) -> P (snd (fold_left step ops s))).
  { induction ops as [| op ops IH]; intros s Hs; simpl; [exact Hs |].
    apply IH. apply preserved_step with (P := P); auto.
    - unfold P. intros m m' -> ->. auto.
    - intros h m. apply rows_ok_close_trade.
    - intros ty h m. apply rows_ok_open_trade. }
  destruct (G ([], TradeModel_init)) as (H1 & H2 & _).
  - unfold P. simpl. repeat split; auto.
  - split; assumption.
Qed.

Lemma trades_open_trade (ty : TradeType) (h : heap) (m : TradeModel) :
  trades (open_trade ty h m) = trades m
  \/ trades (open_trade ty h m) = trades (close_trade h m).
Proof.
  destruct (open_trade_cases ty h m) as [-> | (p & _ & ->)];
    destruct (negb (is_empty (current_trade m))); simpl; auto.
Qed.

Lemma trades_trade_on_signal (h : heap) (m : TradeModel)
      (s : option SignalValue) (recent : bool) :
  trades (trade_on_signal h m s recent) = trades m
  \/ trades (trade_on_signal h m s recent) = trades (close_trade h m).
Proof.
  destruct (trade_on_signal_cases h m s recent)
    as [-> | [-> | [[ty ->] | [ty ->]]]]; auto.
  - apply trades_open_trade.
  - right. destruct (trades_open_trade ty h (close_trade h m)) as [-> | ->];
      [reflexivity | now rewrite close_trade_twice].
Qed.

Lemma trades_auto_trade (h : heap) (m : TradeModel) (l : loc)
      (cdt fi dist : Z) (prom : Q) :
  trades (snd (auto_trade h m l cdt fi dist prom)) = trades m
  \/ exists (h' : heap) (m1 : TradeModel),
      trades m1 = trades m /\ current_trade m1 = current_trade m
      /\ trades (snd (auto_trade h m l cdt fi dist prom))
         = trades (close_trade h' m1).
Proof.
  unfold auto_trade.
  assert (Hs : trades (snd (set_data h m l)) = trades m
               /\ current_trade (snd (set_data h m l)) = current_trade m)
    by (unfold set_data; destruct (copy h l) as [[h' l'] |]; simpl; auto).
  destruct (set_data h m l) as [h1 m1]. simpl in Hs. destruct Hs as [Ht Hc].
  destruct (deref h1 l) as [d0 |]; [| now left].
  destruct (iloc_last (rows d0)) as [ndp |]; [| now left].
  destruct (find_peaks_and_valleys h1 l dist prom true)
    as [h2 [[sig | s] | e]]; try (now left).
  destruct (deref (write_last_Signal h2 l (Some s)) l) as [d |];
    [| now left].
  simpl snd. unfold trade_on_window.
  destruct (iloc_last _) as [[i b] |]; [| now left].
  destruct (trades_trade_on_signal (write_last_Signal h2 l (Some s)) m1
              (bar_Signal b)
              (Z.of_nat (length (rows d) - 1) - Z.of_nat i <=? fi)%Z)
    as [E | E]; rewrite E; [now left |].
  right. now exists (write_last_Signal h2 l (Some s)), m1.
Qed.

Lemma close_trade_adds_at_most_one (h : heap) (m : TradeModel) :
  length (current_trade m) <= 1 ->
  exists added : list Trade,
    trades (close_trade h m) = trades m ++ added /\ length added <= 1.
Proof.
  intro Hlen.
  destruct (close_trade_cases h m)
    as [-> | (t & rest & p & Hct & _ & _ & ->)].
  - exists []. rewrite app_nil_r. simpl. auto.
  - rewrite Hct in Hlen. simpl in Hlen.
    assert (rest = []) as -> by (destruct rest; simpl in *; [auto | lia]).
    eexists. simpl. split; [reflexivity | simpl; lia].
Qed.

(** Each command and each [auto_trade] call, run in a reachable state,
    leaves the rows already in the ledger as they are and appends at most
    one row; a flip closes once and never twice. *)
Theorem each_step_appends_at_most_one_row :
  forall (ops : list Op) (op : Op),
  exists added : list Trade,
    trades (snd (run (ops ++ [op]))) = trades (snd (run ops)) ++ added
    /\ length added <= 1.
Proof.
  intros ops op. unfold run. rewrite fold_left_app. simpl.
  fold (run ops).
  pose proof (well_formed_run ops) as (Hlen & _ & _).
  destruct (run ops) as [h m]. simpl in *.
  assert (Hsame : forall m' : TradeModel,
             trades m' = trades m ->
             exists added, trades m' = trades m ++ added
                           /\ length added <= 1).
  { intros m' E. exists []. rewrite app_nil_r. simpl. auto. }
  assert (Hclose : forall (h' : heap) (m1 m' : TradeModel),
             current_trade m1 = current_trade m ->
             trades m1 = trades m ->
             trades m' = trades (close_trade h' m1) ->
             exists added, trades m' = trades m ++ added
                           /\ length added <= 1).
  { intros h' m1 m' Hc Ht E. rewrite E, <- Ht.
    apply close_trade_adds_at_most_one. now rewrite Hc. }
  destruct op as [date | | | | w cdt fi pd pp]; simpl.
  - now apply Hsame.
  - destruct (trades_open_trade buy h m) as [E | E];
      [now apply Hsame | now apply Hclose with (h' := h) (m1 := m)].
  - destruct (trades_open_trade sell h m) as [E | E];
      [now apply Hsame | now apply Hclose with (h' := h) (m1 := m)].
  - now apply Hclose with (h' := h) (m1 := m).
  - destruct (trades_auto_trade (h ++ [w]) m (length h) cdt fi pd pp)
      as [E | (h' & m1 & Ht & Hc & E)].
    + now apply Hsame.
    + now apply Hclose with (h' := h') (m1 := m1).
Qed.

(** ** Windows on which the detector finds nothing *)

Lemma local_maxima_loop_no_rise (x : list Q) (i_max : nat) :
  (forall i : nat, 1 <= i < i_max ->
                   Qltb (nthQ x (i - 1)) (nthQ x i) = false) ->
  forall (fuel i : nat),
    1 <= i -> Scipy.local_maxima_loop fuel x i i_max = [].
Proof.
  intros Hflat. induction fuel as [| fuel IH]; intros i Hi; simpl;
    [reflexivity |].
  destruct (i <? i_max) eqn:E; [| reflexivity].
  apply Nat.ltb_lt in E. rewrite Hflat by lia. apply IH. lia.
Qed.

Lemma find_peaks_no_maxima (x : list Q) (distance : Z) (prominence : Q) :
  (1 <= distance)%Z ->
  Scipy.local_maxima_1d x = [] ->
  Scipy.find_peaks x distance prominence = Ok [].
Proof.
  intros Hd H. unfold Scipy.find_peaks.
  replace (distance <? 1)%Z with false by (symmetry; apply Z.ltb_ge; lia).
  rewrite H. reflexivity.
Qed.

Lemma Qltb_irrefl_eq (a b : Q) : (a == b)%Q -> Qltb a b = false.
Proof.
  intro E. destruct (Qltb a b) eqn:L; [| reflexivity].
  apply Qltb_lt in L. lra.
Qed.

Lemma nthQ_map (g : Q -> Q) (X : list Q) (i : nat) :
  i < length X -> nthQ (map g X) i = g (nthQ X i).
Proof.
  intro H. unfold nthQ.
  rewrite nth_indep with (d' := g 0%Q) by (now rewrite length_map).
  apply map_nth.
Qed.

(** A window of one or two rows, or one whose closes are all equal, has no
    interior extremum: for any [distance >= 1] the detector returns an
    all-neutral array, and neutral for the rolling call. *)
Theorem flat_or_short_window_all_neutral :
  forall (df : DataFrame) (distance : Z) (prominence : Q),
    has_Time df = true ->
    has_Close df = true ->
    rows df <> [] ->
    (1 <= distance)%Z ->
    length (rows df) <= 2
    \/ (forall b b' : Bar, In b (rows df) -> In b' (rows df) ->
                           (bar_Close b == bar_Close b')%Q) ->
    detect df distance prominence false
    = Ok (SignalArray (repeat Neutral (length (rows df))))
    /\ detect df distance prominence true = Ok (SignalLast Neutral).
Proof.
  intros df distance prominence HT HC Hne Hd Hcase.
  assert (Hfull : detect df distance prominence false
                  = Ok (SignalArray (repeat Neutral (length (rows df))))).
  { unfold detect, column_Close, column_Time. rewrite HT, HC.
    destruct (map bar_Close (rows df)) as [| x0 rest] eqn:Em.
    { destruct (rows df); [congruence | discriminate]. }
    unfold MinMaxScaler.fit_transform.
    set (g := fun x : Q => (x * _ + _)%Q).
    assert (Hlen : length (map g (x0 :: rest)) = length (rows df))
      by (rewrite length_map, <- Em; apply length_map).
    assert (Hmax : forall y : list Q,
               length y = length (rows df) ->
               (forall i j : nat, i < length y -> j < length y ->
                                  (nthQ y i == nthQ y j)%Q)
               \/ length y <= 2 ->
               Scipy.local_maxima_1d y = []).
    { intros y Hy Hc. unfold Scipy.local_maxima_1d.
      apply local_maxima_loop_no_rise; [| lia].
      intros i Hi. destruct Hc as [Hc | Hc]; [| lia].
      apply Qltb_irrefl_eq. apply Hc; lia. }
    assert (Hflat : (forall i j : nat,
                        i < length (map g (x0 :: rest)) ->
                        j < length (map g (x0 :: rest)) ->
                        (nthQ (map g (x0 :: rest)) i
                         == nthQ (map g (x0 :: rest)) j)%Q)
                    \/ length (map g (x0 :: rest)) <= 2).
    { destruct Hcase as [Hs | Hc]; [right; lia | left].
      intros i j Hi Hj. rewrite length_map in Hi, Hj.
      rewrite !nthQ_map by assumption. unfold g.
      assert (E : (nthQ (x0 :: rest) i == nthQ (x0 :: rest) j)%Q).
      { rewrite <- Em. unfold nthQ.
        rewrite <- Em in Hi, Hj. rewrite length_map in Hi, Hj.
        change 0%Q with (bar_Close (mkBar 0 0 None [])).
        rewrite !map_nth. apply Hc; apply nth_In; assumption. }
      rewrite E. reflexivity. }
    rewrite (find_peaks_no_maxima _ prominence Hd (Hmax _ Hlen Hflat)).
    assert (Hflat' : (forall i j : nat,
                         i < length (map Qopp (map g (x0 :: rest))) ->
                         j < length (map Qopp (map g (x0 :: rest))) ->
                         (nthQ (map Qopp (map g (x0 :: rest))) i
                          == nthQ (map Qopp (map g (x0 :: rest))) j)%Q)
                     \/ length (map Qopp (map g (x0 :: rest))) <= 2).
    { destruct Hflat as [Hf | Hs]; [left | right; now rewrite length_map].
      intros i j Hi Hj. rewrite length_map in Hi, Hj.
      rewrite !nthQ_map_Qopp. rewrite (Hf i j Hi Hj). reflexivity. }
    rewrite find_peaks_no_maxima;
      [| exact Hd | apply Hmax; [now rewrite length_map | exact Hflat']].
    rewrite Hlen. reflexivity. }
  split; [exact Hfull |].
  destruct (rolling_signal_is_neutral_full df distance prominence Hfull).
  reflexivity.
Qed.

Lemma flat_or_short_window_all_neutral_witness :
  let df := mkDataFrame true true
              [mkBar 1 1.5 None []; mkBar 2 (3 # 2) None [];
               mkBar 3 (6 # 4) None []] in
  detect df 5 0.1%Q false = Ok (SignalArray [Neutral; Neutral; Neutral])
  /\ detect df 5 0.1%Q true = Ok (SignalLast Neutral).
Proof.
  intro df.
  apply (@flat_or_short_window_all_neutral df 5%Z 0.1%Q);
    try reflexivity; try discriminate; try lia.
  right. intros b b' Hb Hb'.
  simpl in Hb, Hb'.
  destruct Hb as [<- | [<- | [<- | []]]];
    destruct Hb' as [<- | [<- | [<- | []]]]; reflexivity.
Defined.

(** [peaks_distance < 1] is rejected by scipy: on a window with rows and
    both columns the detector raises ValueError, and [auto_trade] then
    neither closes nor opens anything. *)
Theorem distance_below_one_is_rejected :
  forall (h : heap) (m : TradeModel) (l : loc) (df : DataFrame)
         (cdt fi distance : Z) (prominence : Q) (rolling : bool),
    deref h l = Some df ->
    has_Time df = true ->
    has_Close df = true ->
    rows df <> [] ->
    (distance < 1)%Z ->
    snd (find_peaks_and_valleys h l distance prominence rolling)
    = Raise ValueError
    /\ snd (auto_trade h m l cdt fi distance prominence)
       = mkTradeModel (trades m) (current_trade m) (current_date m)
                      (Some (length h)).
Proof.
  intros h m l df cdt fi distance prominence rolling H HT HC Hne Hd.
  assert (Hdet : forall r, detect df distance prominence r
                           = Raise ValueError).
  { intro r. unfold detect, column_Close, column_Time. rewrite HT, HC.
    destruct (map bar_Close (rows df)) as [| x0 rest] eqn:Em.
    { destruct (rows df); [congruence | discriminate]. }
    unfold MinMaxScaler.fit_transform, Scipy.find_peaks.
    replace (distance <? 1)%Z with true
      by (symmetry; apply Z.ltb_lt; exact Hd).
    reflexivity. }
  split.
  - rewrite find_peaks_and_valleys_eq with (df := df) by assumption.
    apply Hdet.
  - rewrite auto_trade_unfold with (df := df) by assumption.
    rewrite Hdet. now destruct (iloc_last (rows df)).
Qed.

Lemma distance_below_one_is_rejected_witness :
  snd (find_peaks_and_valleys [spike_window] 0 0 0.1%Q false)
  = Raise ValueError
  /\ snd (auto_trade [spike_window] TradeModel_init 0 5 100 0 0.1%Q)
     = mkTradeModel [] [] None (Some 1).
Proof.
  apply (@distance_below_one_is_rejected [spike_window] TradeModel_init 0
           spike_window 5%Z 100%Z 0%Z 0.1%Q false);
    try reflexivity; discriminate.
Defined.

(** ** The scaled closes *)








(* ================================================================== *)
(** * Properties of the indicator functions *)

(** ** crossover and crossunder *)

Lemma length_zip_with {A B C : Type} (f : A -> B -> C) :
  forall (x : list A) (y : list B),
    length x = length y -> length (zip_with f x y) = length x.
Proof.
  induction x as [| a x IH]; intros [| b y] H; simpl in *; try lia.
  f_equal. apply IH. lia.
Qed.

Lemma nth_zip_with {A B C : Type} (f : A -> B -> C) (da : A) (db : B)
      (dc : C) :
  forall (x : list A) (y : list B) (i : nat),
    length x = length y -> i < length x ->
    nth i (zip_with f x y) dc = f (nth i x da) (nth i y db).
Proof.
  induction x as [| a x IH]; intros [| b y] i H Hi; simpl in *; try lia.
  destruct i as [| i]; [reflexivity |]. apply IH; lia.
Qed.

Lemma length_shift (x : Series) (n : Z) : length (shift x n) = length x.
Proof. unfold shift. now rewrite length_map, length_seq. Qed.

Lemma nth_map_lt {A B : Type} (f : A -> B) (d : B) (d0 : A) :
  forall (l : list A) (i : nat),
    i < length l -> nth i (map f l) d = f (nth i l d0).
Proof.
  induction l as [| a l IH]; intros [| i] H; simpl in *; try lia; auto.
  apply IH. lia.
Qed.

Lemma nth_shift (x : Series) (n : Z) (i : nat) :
  i < length x ->
  nth i (shift x n) None
  = if (0 <=? Z.of_nat i - n)%Z && (Z.of_nat i - n <? Z.of_nat (length x))%Z
    then nth (Z.to_nat (Z.of_nat i - n)) x None
    else None.
Proof.
  intro Hi. unfold shift.
  rewrite nth_map_lt with (d0 := 0) by (now rewrite length_seq).
  now rewrite seq_nth.
Qed.

Lemma crossover_nth (x y : Series) (cd : option Z) :
  length x = length y ->
  exists r : list bool,
    crossover x y cd = Ok r
    /\ length r = length x
    /\ forall i : nat,
        i < length x ->
        nth i r false
        = cell_gt (nth i x None) (nth i y None)
          && cell_lt (nth i (shift x (shift_value_of cd)) None)
                     (nth i (shift y (shift_value_of cd)) None).
Proof.
  intro H. unfold crossover, series_op. fold (shift_value_of cd).
  rewrite H, Nat.eqb_refl. rewrite !length_shift, H, Nat.eqb_refl.
  rewrite !length_zip_with by (rewrite ?length_shift; lia).
  rewrite length_shift, H, Nat.eqb_refl.
  eexists. split; [reflexivity |]. split.
  - rewrite length_zip_with; rewrite !length_zip_with;
      rewrite ?length_shift; lia.
  - intros i Hi.
    rewrite nth_zip_with with (da := false) (db := false)
      by (rewrite !length_zip_with; rewrite ?length_shift; lia).
    rewrite nth_zip_with with (da := None) (db := None) by lia.
    rewrite nth_zip_with with (da := None) (db := None)
      by (rewrite ?length_shift; lia).
    reflexivity.
Qed.

Lemma crossunder_nth (x y : Series) (cd : option Z) :
  length x = length y ->
  exists r : list bool,
    crossunder x y cd = Ok r
    /\ length r = length x
    /\ forall i : nat,
        i < length x ->
        nth i r false
        = cell_lt (nth i x None) (nth i y None)
          && cell_gt (nth i (shift x (shift_value_of cd)) None)
                     (nth i (shift y (shift_value_of cd)) None).
Proof.
  intro H. unfold crossunder, series_op. fold (shift_value_of cd).
  rewrite H, Nat.eqb_refl. rewrite !length_shift, H, Nat.eqb_refl.
  rewrite !length_zip_with by (rewrite ?length_shift; lia).
  rewrite length_shift, H, Nat.eqb_refl.
  eexists. split; [reflexivity |]. split.
  - rewrite length_zip_with; rewrite !length_zip_with;
      rewrite ?length_shift; lia.
  - intros i Hi.
    rewrite nth_zip_with with (da := false) (db := false)
      by (rewrite !length_zip_with; rewrite ?length_shift; lia).
    rewrite nth_zip_with with (da := None) (db := None) by lia.
    rewrite nth_zip_with with (da := None) (db := None)
      by (rewrite ?length_shift; lia).
    reflexivity.
Qed.

Lemma cell_lt_spec (a b : option Q) :
  cell_lt a b = true
  <-> exists u v : Q, a = Some u /\ b = Some v /\ (u < v)%Q.
Proof.
  unfold cell_lt. destruct a as [u |], b as [v |].
  - rewrite Qltb_lt. split.
    + intro H. now exists u, v.
    + intros (u' & v' & [= <-] & [= <-] & H). exact H.
  - split; [discriminate | intros (u' & v' & _ & [=] & _)].
  - split; [discriminate | intros (u' & v' & [=] & _)].
  - split; [discriminate | intros (u' & v' & [=] & _)].
Qed.

(** What a crossover is: on two Series of the same length the result has
    that length, and row [i] is True exactly when [x] is strictly above [y]
    at [i] and was strictly below it [s] rows earlier, [s] being
    [cross_distance] (1 when it is [None]), all four values being present;
    Series of different lengths are refused. *)
Theorem crossover_meaning :
  forall (x y : Series) (cd : option Z),
    (length x <> length y -> crossover x y cd = Raise ValueError)
    /\ (length x = length y ->
        exists r : list bool,
          crossover x y cd = Ok r
          /\ length r = length x
          /\ forall i : nat,
              i < length x ->
              (nth i r false = true
               <-> exists (u v u0 v0 : Q) (j : nat),
                   Z.of_nat j = (Z.of_nat i - shift_value_of cd)%Z
                   /\ j < length x
                   /\ nth i x None = Some u /\ nth i y None = Some v
                   /\ nth j x None = Some u0 /\ nth j y None = Some v0
                   /\ (v < u)%Q /\ (u0 < v0)%Q)).
Proof.
  intros x y cd. split.
  - intro Hne. unfold crossover, series_op.
    replace (length x =? length y) with false; [reflexivity |].
    symmetry. now apply Nat.eqb_neq.
  - intro H. destruct (crossover_nth x y cd H) as (r & Hr & Hlen & Hnth).
    exists r. split; [exact Hr |]. split; [exact Hlen |].
    intros i Hi. rewrite (Hnth i Hi), andb_true_iff.
    unfold cell_gt. rewrite !cell_lt_spec.
    rewrite !nth_shift by lia. rewrite <- H.
    set (n := shift_value_of cd).
    destruct ((0 <=? Z.of_nat i - n)%Z
              && (Z.of_nat i - n <? Z.of_nat (length x))%Z) eqn:E.
    + apply andb_true_iff in E. destruct E as [E1 E2].
      apply Z.leb_le in E1. apply Z.ltb_lt in E2.
      split.
      * intros [(v & u & Hv & Hu & Hlt) (u0 & v0 & Hu0 & Hv0 & Hlt0)].
        exists u, v, u0, v0, (Z.to_nat (Z.of_nat i - n)).
        repeat split; auto; lia.
      * intros (u & v & u0 & v0 & j & Hj & Hjl & Hu & Hv & Hu0 & Hv0
                & Hlt & Hlt0).
        assert (Z.to_nat (Z.of_nat i - n) = j) as -> by lia.
        split; [now exists v, u | now exists u0, v0].
    + split.
      * intros [_ (u0 & v0 & [=] & _)].
      * intros (u & v & u0 & v0 & j & Hj & Hjl & _).
        exfalso. apply andb_false_iff in E. destruct E as [E | E].
        -- apply Z.leb_gt in E. lia.
        -- apply Z.ltb_ge in E. lia.
Qed.

Lemma crossover_meaning_witness :
  crossover [Some 1; Some 3]%Q [Some 2; Some 2]%Q None = Ok [false; true].
Proof.
  destruct (crossover_meaning [Some 1; Some 3]%Q [Some 2; Some 2]%Q None)
    as [_ H].
  destruct (H eq_refl) as (r & Hr & _).
  rewrite Hr. f_equal. vm_compute in Hr. now injection Hr as <-.
Defined.

(** A row is never both a crossover and a crossunder, whatever the two
    distances; with the default distance the first row is never either,
    and with distance 0 no row is. *)
Theorem crossover_crossunder_exclusive :
  forall (x y : Series) (cd cd' : option Z) (r r' : list bool),
    crossover x y cd = Ok r ->
    crossunder x y cd' = Ok r' ->
    (forall i : nat, nth i r false = true -> nth i r' false = false)
    /\ (forall n : Z, (1 <= n)%Z -> shift_value_of cd = n ->
                      forall i : nat, (Z.of_nat i < n)%Z ->
                                      nth i r false = false)
    /\ (shift_value_of cd = 0%Z -> forall i : nat, nth i r false = false).
Proof.
  intros x y cd cd' r r' Hr Hr'.
  assert (H : length x = length y).
  { destruct (Nat.eq_dec (length x) (length y)) as [E | E]; [exact E |].
    unfold crossover, series_op in Hr.
    replace (length x =? length y) with false in Hr
      by (symmetry; now apply Nat.eqb_neq).
    discriminate. }
  destruct (crossover_nth x y cd H) as (r0 & E0 & Hlen & Hnth).
  rewrite Hr in E0. injection E0 as <-.
  destruct (crossunder_nth x y cd' H) as (r1 & E1 & Hlen' & Hnth').
  rewrite Hr' in E1. injection E1 as <-.
  assert (Hout : forall i, length x <= i -> nth i r false = false)
    by (intros i Hi; apply nth_overflow; lia).
  split; [| split].
  - intros i Hi.
    destruct (Nat.lt_ge_cases i (length x)) as [Hlt | Hge];
      [| apply nth_overflow; lia].
    rewrite (Hnth i Hlt) in Hi. rewrite (Hnth' i Hlt).
    apply andb_true_iff in Hi. destruct Hi as [Hgt _].
    unfold cell_gt in Hgt. apply cell_lt_spec in Hgt.
    destruct Hgt as (v & u & Hv & Hu & Hlt1).
    rewrite Hv, Hu. simpl.
    replace (Qltb u v) with false; [reflexivity |].
    symmetry. destruct (Qltb u v) eqn:E; [| reflexivity].
    apply Qltb_lt in E. lra.
  - intros n Hn Hs i Hi.
    destruct (Nat.lt_ge_cases i (length x)) as [Hlt | Hge]; [| auto].
    rewrite (Hnth i Hlt), Hs, !nth_shift by lia.
    replace (0 <=? Z.of_nat i - n)%Z with false
      by (symmetry; apply Z.leb_gt; lia).
    simpl. apply andb_false_r.
  - intros Hs i.
    destruct (Nat.lt_ge_cases i (length x)) as [Hlt | Hge]; [| auto].
    rewrite (Hnth i Hlt), Hs, !nth_shift by lia.
    rewrite Z.sub_0_r, Nat2Z.id.
    replace ((0 <=? Z.of_nat i)%Z && (Z.of_nat i <? Z.of_nat (length x))%Z)
      with true by (symmetry; apply andb_true_iff; split;
                    [apply Z.leb_le | apply Z.ltb_lt]; lia).
    rewrite <- H.
    replace ((0 <=? Z.of_nat i)%Z && (Z.of_nat i <? Z.of_nat (length x))%Z)
      with true by (symmetry; apply andb_true_iff; split;
                    [apply Z.leb_le | apply Z.ltb_lt]; lia).
    unfold cell_gt.
    destruct (cell_lt (nth i y None) (nth i x None)) eqn:E1;
      [| reflexivity].
    apply cell_lt_spec in E1. destruct E1 as (v & u & Hv & Hu & Hlt1).
    rewrite Hv, Hu. simpl.
    destruct (Qltb u v) eqn:E; [| reflexivity].
    apply Qltb_lt in E. lra.
Qed.

Lemma crossover_crossunder_exclusive_witness :
  nth 1 [false; false] false = false.
Proof.
  assert (Hr : crossover [Some 1; Some 3]%Q [Some 2; Some 2]%Q None
               = Ok [false; true]) by reflexivity.
  assert (Hr' : crossunder [Some 1; Some 3]%Q [Some 2; Some 2]%Q None
                = Ok [false; false]) by reflexivity.
  destruct (crossover_crossunder_exclusive _ _ _ _ Hr Hr') as (H & _).
  exact (H 1 eq_refl).
Defined.

(** ** handle_nan *)

Lemma fill_row_nil (cur : list (option Q)) : fill_row [] cur = cur.
Proof.
  induction cur as [| c cur IH]; simpl; [reflexivity |].
  rewrite IH. now destruct c.
Qed.

Lemma length_fill_row (cur : list (option Q)) :
  forall prev : list (option Q), length (fill_row prev cur) = length cur.
Proof.
  induction cur as [| c cur IH]; intro prev; simpl; auto.
Qed.

Lemma fill_row_complete (cur : list (option Q)) :
  forall prev : list (option Q),
    complete cur = true -> fill_row prev cur = cur.
Proof.
  induction cur as [| c cur IH]; intros prev H; simpl in *; [reflexivity |].
  apply andb_true_iff in H. destruct H as [Hc H].
  rewrite (IH _ H). destruct c; [reflexivity | discriminate].
Qed.

Lemma fill_row_prev_complete (cur : list (option Q)) :
  forall prev : list (option Q),
    complete prev = true -> length cur <= length prev ->
    complete (fill_row prev cur) = true.
Proof.
  induction cur as [| c cur IH]; intros prev H Hlen; simpl in *;
    [reflexivity |].
  destruct prev as [| p prev]; simpl in *; [lia |].
  apply andb_true_iff in H. destruct H as [Hp H].
  rewrite (IH prev H) by lia.
  destruct c; simpl; [reflexivity | now rewrite Hp].
Qed.

Lemma ffill_from_complete (df : Cells) :
  forall prev : list (option Q),
    forallb complete df = true -> ffill_from prev df = df.
Proof.
  induction df as [| r df IH]; intros prev H; simpl in *; [reflexivity |].
  apply andb_true_iff in H. destruct H as [Hr H].
  rewrite (fill_row_complete _ prev Hr). now rewrite IH.
Qed.

Lemma filter_all_true {A : Type} (f : A -> bool) (l : list A) :
  forallb f l = true -> filter f l = l.
Proof.
  induction l as [| a l IH]; simpl; intro H; [reflexivity |].
  apply andb_true_iff in H. destruct H as [Ha H].
  now rewrite Ha, IH.
Qed.

Lemma forallb_filter {A : Type} (f : A -> bool) (l : list A) :
  forallb f (filter f l) = true.
Proof.
  induction l as [| a l IH]; simpl; [reflexivity |].
  destruct (f a) eqn:E; simpl; [now rewrite E |]. exact IH.
Qed.

(** Once a forward-filled row is complete, so is every later row. *)
Lemma ffill_from_after_complete (w : nat) (df : Cells) :
  forall prev : list (option Q),
    rectangular w df ->
    complete prev = true -> length prev = w ->
    forallb complete (ffill_from prev df) = true.
Proof.
  induction df as [| r df IH]; intros prev Hrect Hp Hlen; simpl;
    [reflexivity |].
  inversion Hrect as [| r0 df0 Hr Hdf]; subst.
  assert (Hc : complete (fill_row prev r) = true)
    by (apply fill_row_prev_complete; [exact Hp | lia]).
  rewrite Hc. simpl. apply IH; auto. now rewrite length_fill_row.
Qed.

Lemma dropna_cons (r : list (option Q)) (df : Cells) :
  dropna (r :: df) = if complete r then r :: dropna df else dropna df.
Proof. reflexivity. Qed.

Lemma ffill_from_suffix (w : nat) (df : Cells) :
  forall prev : list (option Q),
    rectangular w df ->
    exists k : nat,
      k <= length df
      /\ dropna (ffill_from prev df) = skipn k (ffill_from prev df)
      /\ forallb (fun r => negb (complete r))
                 (firstn k (ffill_from prev df)) = true.
Proof.
  induction df as [| r df IH]; intros prev Hrect.
  - exists 0. simpl. auto.
  - inversion Hrect as [| r0 df0 Hr Hdf]; subst.
    change (ffill_from prev (r :: df))
      with (fill_row prev r :: ffill_from (fill_row prev r) df).
    destruct (complete (fill_row prev r)) eqn:Hc.
    + exists 0. split; [simpl; lia |]. split; [| reflexivity].
      rewrite dropna_cons, Hc. unfold skipn. f_equal.
      apply filter_all_true.
      apply ffill_from_after_complete with (w := length r); auto.
      now rewrite length_fill_row.
    + destruct (IH (fill_row prev r) Hdf) as (k & Hk & Hd & Hf).
      exists (S k). split; [simpl; lia |]. split.
      * rewrite dropna_cons, Hc. exact Hd.
      * change (firstn (S k) (fill_row prev r
                              :: ffill_from (fill_row prev r) df))
          with (fill_row prev r
                :: firstn k (ffill_from (fill_row prev r) df)).
        cbn [forallb]. now rewrite Hc, Hf.
Qed.

(** [handle_nan] loses leading rows only: on a rectangular frame its
    result is the forward-filled frame without its first [k] rows, each of
    which still has a NaN; the rows kept have none, and the frame never
    grows. *)
Theorem handle_nan_drops_leading_rows :
  forall (w : nat) (df : Cells),
    rectangular w df ->
    exists k : nat,
      k <= length df
      /\ handle_nan df = skipn k (ffill df)
      /\ length (handle_nan df) = length df - k
      /\ forallb (fun r => negb (complete r)) (firstn k (ffill df)) = true
      /\ forallb complete (handle_nan df) = true.
Proof.
  intros w df Hrect. unfold handle_nan, ffill.
  destruct (ffill_from_suffix [] Hrect) as (k & Hk & Hd & Hf).
  exists k. split; [exact Hk |]. split; [exact Hd |]. split.
  - rewrite Hd, length_skipn. f_equal.
    clear. generalize (@nil (option Q)).
    induction df as [| r df IH]; intro prev; simpl; auto.
  - split; [exact Hf |]. apply forallb_filter.
Qed.

Lemma handle_nan_drops_leading_rows_witness :
  let df := [[None; Some 1]; [Some 2; None]; [None; Some 3]]%Q in
  rectangular 2 df
  /\ exists k : nat,
      k <= length df
      /\ handle_nan df = skipn k (ffill df)
      /\ length (handle_nan df) = length df - k
      /\ forallb (fun r => negb (complete r)) (firstn k (ffill df)) = true
      /\ forallb complete (handle_nan df) = true.
Proof.
  intro df.
  assert (H : rectangular 2 df) by (repeat constructor).
  split; [exact H |].
  exact (@handle_nan_drops_leading_rows 2 df H).
Defined.

(** A frame without NaN passes through [handle_nan] unchanged, so
    [handle_nan] applied twice is [handle_nan] applied once. *)
Theorem handle_nan_idempotent :
  (forall df : Cells, forallb complete df = true -> handle_nan df = df)
  /\ (forall df : Cells, handle_nan (handle_nan df) = handle_nan df).
Proof.
  assert (A : forall df : Cells,
             forallb complete df = true -> handle_nan df = df).
  { intros df H. unfold handle_nan, ffill, dropna.
    rewrite ffill_from_complete by exact H.
    now apply filter_all_true. }
  split; [exact A |].
  intro df. apply A. unfold handle_nan, dropna. apply forallb_filter.
Qed.

Lemma handle_nan_idempotent_witness :
  handle_nan [[Some 2; Some 1]; [Some 2; Some 3]]%Q
  = [[Some 2; Some 1]; [Some 2; Some 3]]%Q.
Proof.
  destruct handle_nan_idempotent as [H _]. apply H. reflexivity.
Defined.

Lemma nth_fill_row (cur : list (option Q)) :
  forall (prev : list (option Q)) (j : nat),
    nth j (fill_row prev cur) None
    = if j <? length cur
      then fill_cell (nth j prev None) (nth j cur None)
      else None.
Proof.
  induction cur as [| c cur IH]; intros prev j; simpl.
  - now destruct j.
  - destruct j as [| j].
    + now destruct prev.
    + rewrite IH. destruct prev; simpl; [| reflexivity].
      now destruct j.
Qed.

Lemma complete_nth (r : list (option Q)) :
  complete r = true
  <-> forall j : nat, j < length r -> is_valid (nth j r None) = true.
Proof.
  unfold complete. induction r as [| c r IH]; simpl.
  - split; [intros _ j Hj; lia | reflexivity].
  - rewrite andb_true_iff, IH. split.
    + intros [Hc H] [| j] Hj; [exact Hc | apply H; lia].
    + intro H. split; [apply (H 0); lia |].
      intros j Hj. apply (H (S j)). lia.
Qed.

Lemma last_ffill_complete (w : nat) (df : Cells) :
  forall prev : list (option Q),
    rectangular w df -> df <> [] ->
    (complete (last (ffill_from prev df) []) = true
     <-> forall j : nat,
         j < w ->
         is_valid (nth j prev None) = true
         \/ exists r : list (option Q),
             In r df /\ is_valid (nth j r None) = true).
Proof.
  induction df as [| r df IH]; intros prev Hrect Hne; [congruence |].
  inversion Hrect as [| r0 df0 Hr Hdf]; subst.
  assert (Hcell : forall j, j < length r ->
             is_valid (nth j (fill_row prev r) None) = true
             <-> is_valid (nth j prev None) = true
                 \/ is_valid (nth j r None) = true).
  { intros j Hj. rewrite nth_fill_row.
    replace (j <? length r) with true by (symmetry; now apply Nat.ltb_lt).
    unfold fill_cell. destruct (nth j r None); simpl; intuition congruence. }
  destruct df as [| r2 df].
  - simpl. rewrite complete_nth, length_fill_row. split.
    + intros H j Hj. pose proof (H j Hj) as Hv.
      apply Hcell in Hv; [| exact Hj].
      destruct Hv as [Hv | Hv]; [now left | right].
      exists r. split; [now left | exact Hv].
    + intros H j Hj. apply Hcell; [exact Hj |].
      destruct (H j Hj) as [Hp | (r' & [<- | []] & Hv)]; auto.
  - change (last (ffill_from prev (r :: r2 :: df)) [])
      with (last (ffill_from (fill_row prev r) (r2 :: df)) []).
    rewrite (IH (fill_row prev r) Hdf) by discriminate. split.
    + intros H j Hj. destruct (H j Hj) as [Hv | (r' & Hin & Hv)].
      * apply Hcell in Hv; [| exact Hj].
        destruct Hv as [Hv | Hv]; [now left | right].
        exists r. split; [now left | exact Hv].
      * right. exists r'. split; [now right | exact Hv].
    + intros H j Hj. destruct (H j Hj) as [Hv | (r' & [<- | Hin] & Hv)].
      * left. apply Hcell; auto.
      * left. apply Hcell; auto.
      * right. now exists r'.
Qed.

Lemma last_In_nonempty {A : Type} (l : list A) (d : A) :
  l <> [] -> In (last l d) l.
Proof.
  induction l as [| a l IH]; intro H; [congruence |].
  destruct l as [| b l]; [now left |].
  right. apply IH. discriminate.
Qed.

Lemma dropna_nonempty_last (w : nat) (df : Cells) :
  forall prev : list (option Q),
    rectangular w df -> df <> [] ->
    (dropna (ffill_from prev df) <> []
     <-> complete (last (ffill_from prev df) []) = true).
Proof.
  induction df as [| r df IH]; intros prev Hrect Hne; [congruence |].
  inversion Hrect as [| r0 df0 Hr Hdf]; subst.
  change (ffill_from prev (r :: df))
    with (fill_row prev r :: ffill_from (fill_row prev r) df).
  rewrite dropna_cons.
  destruct df as [| r2 df].
  - simpl. destruct (complete (fill_row prev r)); simpl;
      split; congruence.
  - change (last (fill_row prev r
                  :: ffill_from (fill_row prev r) (r2 :: df)) [])
      with (last (ffill_from (fill_row prev r) (r2 :: df)) []).
    destruct (complete (fill_row prev r)) eqn:Hc.
    + split; [intros _ | discriminate].
      assert (Hall : forallb complete
                       (ffill_from (fill_row prev r) (r2 :: df)) = true)
        by (apply ffill_from_after_complete with (w := length r); auto;
            now rewrite length_fill_row).
      rewrite forallb_forall in Hall. apply Hall.
      apply last_In_nonempty. simpl. discriminate.
    + apply IH; [exact Hdf | discriminate].
Qed.

(** On a non-empty rectangular frame, [handle_nan]
    returns at least one row exactly when every column holds a value
    somewhere: a column that is NaN throughout empties the whole result. *)
Theorem handle_nan_nonempty_iff (w : nat) (df : Cells)
    (Hrect : rectangular w df) (Hne : df <> []) :
  handle_nan df <> []
  <-> forall j : nat,
        j < w ->
        exists r : list (option Q),
          In r df /\ is_valid (nth j r None) = true.
Proof.
  unfold handle_nan, ffill.
  rewrite (@dropna_nonempty_last w df [] Hrect Hne).
  rewrite (@last_ffill_complete w df [] Hrect Hne).
  split; intros H j Hj.
  - destruct (H j Hj) as [Hv | Hv]; [destruct j; discriminate | exact Hv].
  - right. exact (H j Hj).
Qed.

Lemma handle_nan_nonempty_iff_witness :
  handle_nan [[None; Some 1%Q]; [Some 2%Q; None]] <> [].
Proof.
  refine (proj2 (@handle_nan_nonempty_iff
                   2 [[None; Some 1%Q]; [Some 2%Q; None]] _ _) _).
  - repeat constructor.
  - discriminate.
  - intros j Hj.
    destruct j as [| [| j]]; [| | lia].
    + exists [Some 2%Q; None]. split; [right; now left | reflexivity].
    + exists [None; Some 1%Q]. split; [now left | reflexivity].
Defined.

(* ================================================================== *)
(** * Properties of the exponentially weighted indicators *)

(** ** Exponentially weighted means *)

Lemma com_of_span_inv (span : Z) (c : Q) :
  com_of_span span = Ok c ->
  (1 <= span)%Z /\ (0 <= c)%Q.
Proof.
  unfold com_of_span. destruct (span <? 1)%Z eqn:E; [discriminate |].
  intro H. injection H as <-. apply Z.ltb_ge in E. split; [exact E |].
  assert (H1 : (1 <= inject_Z span)%Q).
  { change 1%Q with (inject_Z 1). rewrite <- Zle_Qle. exact E. }
  apply Qle_shift_div_l; [reflexivity | lra].
Qed.

Lemma com_of_span_ok (span : Z) :
  (1 <= span)%Z -> exists c : Q, com_of_span span = Ok c.
Proof.
  intro H. unfold com_of_span.
  replace (span <? 1)%Z with false by (symmetry; apply Z.ltb_ge; exact H).
  eauto.
Qed.

Lemma alpha_range (com : Q) :
  (0 <= com)%Q -> (0 < 1 / (1 + com) /\ 1 / (1 + com) <= 1)%Q.
Proof.
  intro H. split.
  - apply Qlt_shift_div_l; lra.
  - apply Qle_shift_div_r; lra.
Qed.

Lemma length_ewm_from (alpha : Q) (xs : list Q) :
  forall w : Q, length (ewm_from alpha w xs) = length xs.
Proof.
  induction xs as [| x xs IH]; intro w; simpl; [reflexivity |].
  now rewrite IH.
Qed.

Lemma length_ewm_mean (com : Q) (xs : list Q) :
  length (ewm_mean com xs) = length xs.
Proof.
  destruct xs as [| x xs]; simpl; [reflexivity |].
  now rewrite length_ewm_from.
Qed.

(** A weighted mean stays between the bounds of what it averages. *)
Lemma ewm_from_bounds (alpha lo hi : Q) (xs : list Q) :
  (0 <= alpha)%Q -> (alpha <= 1)%Q ->
  forall w : Q,
    (lo <= w)%Q -> (w <= hi)%Q ->
    Forall (fun x => lo <= x /\ x <= hi)%Q xs ->
    Forall (fun x => lo <= x /\ x <= hi)%Q (ewm_from alpha w xs).
Proof.
  intros Ha0 Ha1.
  induction xs as [| x xs IH]; intros w Hlo Hhi Hxs; simpl;
    [constructor |].
  inversion Hxs as [| x0 xs0 [Hx1 Hx2] Hrest]; subst.
  assert (H : (lo <= (1 - alpha) * w + alpha * x
               /\ (1 - alpha) * w + alpha * x <= hi)%Q) by (split; nra).
  constructor; [exact H |].
  apply IH; [apply H | apply H | exact Hrest].
Qed.

Lemma ewm_mean_bounds (com lo hi : Q) (xs : list Q) :
  (0 <= com)%Q ->
  Forall (fun x => lo <= x /\ x <= hi)%Q xs ->
  Forall (fun x => lo <= x /\ x <= hi)%Q (ewm_mean com xs).
Proof.
  intros Hc Hxs. destruct xs as [| x xs]; simpl; [constructor |].
  inversion Hxs as [| x0 xs0 Hx Hrest]; subst.
  destruct (alpha_range Hc) as [Ha0 Ha1].
  constructor; [exact Hx |].
  apply ewm_from_bounds; first [exact Hrest | apply Hx | lra].
Qed.

(** Adding a constant to every value adds it to every mean. *)
Lemma ewm_from_shift (alpha c : Q) (xs xs' : list Q) :
  Forall2 (fun a b => b == a + c)%Q xs xs' ->
  forall w w' : Q,
    (w' == w + c)%Q ->
    Forall2 (fun a b => b == a + c)%Q
            (ewm_from alpha w xs) (ewm_from alpha w' xs').
Proof.
  induction 1 as [| x x' xs xs' Hx Hxs IH]; intros w w' Hw; simpl;
    [constructor |].
  assert (H : ((1 - alpha) * w' + alpha * x'
               == (1 - alpha) * w + alpha * x + c)%Q).
  { rewrite Hw, Hx. ring. }
  constructor; [exact H |]. apply IH. exact H.
Qed.

Lemma ewm_mean_shift (com c : Q) (xs xs' : list Q) :
  Forall2 (fun a b => b == a + c)%Q xs xs' ->
  Forall2 (fun a b => b == a + c)%Q (ewm_mean com xs) (ewm_mean com xs').
Proof.
  intro H. destruct H as [| x x' xs xs' Hx Hxs]; simpl; [constructor |].
  constructor; [exact Hx |]. now apply ewm_from_shift.
Qed.

Lemma zip_with_Qminus_shift (c : Q) (a a' : list Q) :
  Forall2 (fun u v => v == u + c)%Q a a' ->
  forall b b' : list Q,
    Forall2 (fun u v => v == u + c)%Q b b' ->
    Forall2 (fun u v => v == u + 0)%Q
            (zip_with Qminus a b) (zip_with Qminus a' b').
Proof.
  induction 1 as [| x x' a a' Hx Ha IH]; intros b b' Hb; simpl;
    [constructor |].
  destruct Hb as [| y y' b b' Hy Hb]; [constructor |].
  constructor; [rewrite Hx, Hy; ring | now apply IH].
Qed.

Lemma zip_with_Qminus_bounds (lo hi : Q) (a : list Q) :
  Forall (fun x => lo <= x /\ x <= hi)%Q a ->
  forall b : list Q,
    Forall (fun x => lo <= x /\ x <= hi)%Q b ->
    Forall (fun x => - (hi - lo) <= x /\ x <= hi - lo)%Q
           (zip_with Qminus a b).
Proof.
  induction 1 as [| x a Hx Ha IH]; intros b Hb; simpl; [constructor |].
  destruct Hb as [| y b Hy Hb]; [constructor |].
  constructor; [split; lra | now apply IH].
Qed.

Lemma length_zip_with_same {A B C : Type} (f : A -> B -> C) (x : list A) :
  forall y : list B,
    length y = length x -> length (zip_with f x y) = length x.
Proof.
  induction x as [| a x IH]; intros [| b y] H; simpl in *;
    try reflexivity; try discriminate.
  f_equal. apply IH. lia.
Qed.

(** ** MACD *)

Lemma macd_features_inv (df : DataFrame) (s l g : Z) (r : list Q) :
  macd_features df s l g = Ok r ->
  exists c_short c_long c_signal : Q,
    has_Close df = true
    /\ com_of_span s = Ok c_short
    /\ com_of_span l = Ok c_long
    /\ com_of_span g = Ok c_signal
    /\ r = ewm_mean c_signal
             (zip_with Qminus
                (ewm_mean c_short (map bar_Close (rows df)))
                (ewm_mean c_long (map bar_Close (rows df)))).
Proof.
  unfold macd_features, column_Close.
  destruct (has_Close df); [| discriminate].
  destruct (com_of_span s) as [cs |]; [| discriminate].
  destruct (com_of_span l) as [cl |]; [| discriminate].
  destruct (com_of_span g) as [cg |]; [| discriminate].
  intro H. injection H as <-. exists cs, cl, cg. auto.
Qed.

(** [macd_features] returns exactly when the window has a 'Close' column
    and the three spans are at least 1 (a missing column raises KeyError, a
    span below 1 ValueError).  The series returned has one value per row,
    and no value exceeds in magnitude the spread between the lowest and
    the highest close: on constant closes the MACD is zero throughout. *)
Theorem macd_features_range :
  forall (df : DataFrame) (short_window long_window signal_window : Z),
    (has_Close df = false ->
     macd_features df short_window long_window signal_window
     = Raise KeyError)
    /\ (has_Close df = true ->
        (short_window < 1 \/ long_window < 1 \/ signal_window < 1)%Z ->
        macd_features df short_window long_window signal_window
        = Raise ValueError)
    /\ (has_Close df = true ->
        (1 <= short_window)%Z -> (1 <= long_window)%Z ->
        (1 <= signal_window)%Z ->
        exists r : list Q,
          macd_features df short_window long_window signal_window = Ok r
          /\ length r = length (rows df)
          /\ forall lo hi : Q,
              (forall b : Bar, In b (rows df) ->
                               lo <= bar_Close b /\ bar_Close b <= hi)%Q ->
              Forall (fun v => - (hi - lo) <= v /\ v <= hi - lo)%Q r).
Proof.
  intros df s l g. split; [| split].
  - intro H. unfold macd_features, column_Close. now rewrite H.
  - intros H Hw. unfold macd_features, column_Close. rewrite H.
    unfold com_of_span.
    destruct (s <? 1)%Z eqn:Es; [reflexivity |].
    destruct (l <? 1)%Z eqn:El; [reflexivity |].
    destruct (g <? 1)%Z eqn:Eg; [reflexivity |].
    apply Z.ltb_ge in Es, El, Eg. lia.
  - intros H Hs Hl Hg.
    destruct (com_of_span_ok Hs) as [cs Ecs].
    destruct (com_of_span_ok Hl) as [cl Ecl].
    destruct (com_of_span_ok Hg) as [cg Ecg].
    destruct (@com_of_span_inv _ _ Ecs) as [_ Hcs].
    destruct (@com_of_span_inv _ _ Ecl) as [_ Hcl].
    destruct (@com_of_span_inv _ _ Ecg) as [_ Hcg].
    eexists. split; [| split].
    + unfold macd_features, column_Close. rewrite H, Ecs, Ecl, Ecg.
      reflexivity.
    + rewrite length_ewm_mean, length_zip_with_same;
        rewrite !length_ewm_mean; [now rewrite length_map | reflexivity].
    + intros lo hi Hb.
      assert (Hc : Forall (fun x => lo <= x /\ x <= hi)%Q
                          (map bar_Close (rows df))).
      { apply Forall_forall. intros x Hx. apply in_map_iff in Hx.
        destruct Hx as (b & <- & Hin). now apply Hb. }
      apply ewm_mean_bounds; [exact Hcg |].
      apply zip_with_Qminus_bounds; now apply ewm_mean_bounds.
Qed.

Lemma macd_features_range_witness :
  exists r : list Q,
    macd_features price_window 12 26 9 = Ok r
    /\ length r = 3
    /\ Forall (fun v => - (1.2550 - 1.2480) <= v /\ v <= 1.2550 - 1.2480)%Q
              r.
Proof.
  destruct (macd_features_range price_window 12 26 9) as (_ & _ & H).
  destruct H as (r & Hr & Hlen & Hb); try reflexivity; try lia.
  exists r. split; [exact Hr |]. split; [exact Hlen |].
  apply Hb. intros b Hin. simpl in Hin.
  destruct Hin as [<- | [<- | [<- | []]]]; simpl; split; lra.
Defined.

(** The MACD depends on price differences only: two windows whose closes
    differ by one constant throughout have the same MACD, row by row. *)
Theorem macd_translation_invariant :
  forall (df df' : DataFrame) (short_window long_window signal_window : Z)
         (c : Q) (r : list Q),
    has_Close df' = true ->
    Forall2 (fun b b' => bar_Close b' == bar_Close b + c)%Q
            (rows df) (rows df') ->
    macd_features df short_window long_window signal_window = Ok r ->
    exists r' : list Q,
      macd_features df' short_window long_window signal_window = Ok r'
      /\ Forall2 Qeq r r'.
Proof.
  intros df df' s l g c r H' Hrows Hr.
  destruct (macd_features_inv _ _ _ _ Hr)
    as (cs & cl & cg & _ & Ecs & Ecl & Ecg & ->).
  eexists. split.
  - unfold macd_features, column_Close. rewrite H', Ecs, Ecl, Ecg.
    reflexivity.
  - assert (Hc : Forall2 (fun a b => b == a + c)%Q
                         (map bar_Close (rows df))
                         (map bar_Close (rows df'))).
    { clear - Hrows. induction Hrows; simpl; constructor; auto. }
    assert (Hz := zip_with_Qminus_shift
                    (ewm_mean_shift cs Hc) (ewm_mean_shift cl Hc)).
    assert (Hm := ewm_mean_shift cg Hz).
    clear - Hm. induction Hm as [| x y a b Hxy Hab IH]; constructor; auto.
    rewrite Hxy. ring.
Qed.

Lemma macd_translation_invariant_witness :
  let df' :=
    mkDataFrame true true
      (map (fun b => mkBar (bar_Time b) (bar_Close b + 1)%Q
                           (bar_Signal b) (bar_Others b))
           (rows price_window)) in
  match macd_features price_window 12 26 9 with
  | Ok r => exists r' : list Q,
      macd_features df' 12 26 9 = Ok r' /\ Forall2 Qeq r r'
  | Raise _ => False
  end.
Proof.
  intro df'.
  destruct (macd_features price_window 12 26 9) as [r | e] eqn:E;
    [| vm_compute in E; discriminate].
  apply (@macd_translation_invariant price_window df' 12 26 9 1%Q r).
  - reflexivity.
  - simpl. repeat constructor; simpl; reflexivity.
  - exact E.
Defined.

(** ** RSI *)

Lemma com_of_com_inv (c c' : Q) :
  com_of_com c = Ok c' -> c' = c /\ (0 <= c)%Q.
Proof.
  unfold com_of_com. destruct (Qltb c 0) eqn:E; [discriminate |].
  intro H. injection H as <-. split; [reflexivity |].
  destruct (Qlt_le_dec c 0) as [L | L]; [| exact L].
  apply Qltb_lt in L. congruence.
Qed.

Lemma ewm_from_nonneg (alpha : Q) (xs : list Q) :
  (0 <= alpha)%Q -> (alpha <= 1)%Q ->
  forall w : Q,
    (0 <= w)%Q -> Forall (Qle 0) xs ->
    Forall (Qle 0) (ewm_from alpha w xs).
Proof.
  intros Ha0 Ha1.
  induction xs as [| x xs IH]; intros w Hw Hxs; simpl; [constructor |].
  inversion Hxs as [| x0 xs0 Hx Hrest]; subst.
  assert (H : (0 <= (1 - alpha) * w + alpha * x)%Q) by nra.
  constructor; [exact H |]. now apply IH.
Qed.

Lemma ewm_mean_nonneg (com : Q) (xs : list Q) :
  (0 <= com)%Q -> Forall (Qle 0) xs -> Forall (Qle 0) (ewm_mean com xs).
Proof.
  intros Hc Hxs. destruct xs as [| x xs]; simpl; [constructor |].
  inversion Hxs as [| x0 xs0 Hx Hrest]; subst.
  destruct (alpha_range Hc) as [Ha0 Ha1].
  constructor; [exact Hx |].
  apply ewm_from_nonneg; first [exact Hrest | exact Hx | lra].
Qed.




Lemma length_diff_from (xs : list Q) :
  forall prev : Q, length (diff_from prev xs) = length xs.
Proof.
  induction xs as [| x xs IH]; intro prev; simpl; [reflexivity |].
  now rewrite IH.
Qed.

Lemma length_diff (x : list Q) : length (diff x) = length x.
Proof.
  destruct x as [| x0 xs]; simpl; [reflexivity |].
  now rewrite length_diff_from.
Qed.



Lemma gain_of_spec (d : option Q) :
  (0 <= gain_of d)%Q
  /\ (gain_of d == 0 <-> forall v : Q, d = Some v -> v <= 0)%Q.
Proof.
  unfold gain_of, cell_gt, cell_lt. destruct d as [v |].
  - destruct (Qltb 0 v) eqn:E.
    + apply Qltb_lt in E. split; [lra |]. split.
      * intros E0 v' [= <-]. lra.
      * intro H. specialize (H v eq_refl). lra.
    + assert (L : (v <= 0)%Q).
      { destruct (Qlt_le_dec 0 v) as [L | L]; [| exact L].
        apply Qltb_lt in L. congruence. }
      split; [lra |]. split; [| reflexivity].
      intros _ v' [= <-]. exact L.
  - split; [lra |]. split; [discriminate | reflexivity].
Qed.

Lemma loss_of_spec (d : option Q) :
  (0 <= loss_of d)%Q
  /\ (loss_of d == 0 <-> forall v : Q, d = Some v -> 0 <= v)%Q.
Proof.
  unfold loss_of, cell_lt. destruct d as [v |].
  - destruct (Qltb v 0) eqn:E.
    + apply Qltb_lt in E. split; [lra |]. split.
      * intros E0 v' [= <-]. lra.
      * intro H. specialize (H v eq_refl). lra.
    + assert (L : (0 <= v)%Q).
      { destruct (Qlt_le_dec v 0) as [L | L]; [| exact L].
        apply Qltb_lt in L. congruence. }
      split; [lra |]. split; [| reflexivity].
      intros _ v' [= <-]. exact L.
  - split; [lra |]. split; [discriminate | reflexivity].
Qed.



Lemma Forall_gain_nonneg (s : Series) : Forall (Qle 0) (map gain_of s).
Proof.
  apply Forall_forall. intros v Hv. apply in_map_iff in Hv.
  destruct Hv as (d & <- & _). apply gain_of_spec.
Qed.

Lemma Forall_loss_nonneg (s : Series) : Forall (Qle 0) (map loss_of s).
Proof.
  apply Forall_forall. intros v Hv. apply in_map_iff in Hv.
  destruct Hv as (d & <- & _). apply loss_of_spec.
Qed.

(** The value of [100 - 100 / (1 + g / l)] on floats, for averages that are
    not negative. *)
Lemma rsi_value_cases (g l : Q) :
  (0 <= g)%Q -> (0 <= l)%Q ->
  let v := sub_const 100 (div_const 100 (add_const 1 (xdiv g l))) in
  (l == 0 -> g == 0 -> v = NaN)%Q
  /\ (l == 0 -> ~ g == 0 -> exists q : Q, v = Fin q /\ q == 100)%Q
  /\ (~ l == 0 ->
      exists q : Q, v = Fin q /\ q == 100 * g / (g + l))%Q.
Proof.
  intros Hg Hl v. subst v. unfold xdiv.
  destruct (Qeq_bool l 0) eqn:El.
  - apply Qeq_bool_iff in El.
    destruct (Qeq_bool g 0) eqn:Eg.
    + apply Qeq_bool_iff in Eg. simpl. split; [reflexivity |].
      split; [intros _ H; contradiction | intro H; contradiction].
    + apply Qeq_bool_neq in Eg. simpl. split; [intros _ H; contradiction |].
      split; [| intro H; contradiction].
      intros _ _. eexists. split; [reflexivity | ring].
  - apply Qeq_bool_neq in El.
    split; [intro H; contradiction |].
    split; [intro H; contradiction |]. intros _.
    assert (Hl0 : (0 < l)%Q).
    { destruct (Qlt_le_dec 0 l) as [L | L]; [exact L |].
      exfalso. apply El. lra. }
    assert (Hq : (0 <= g / l)%Q) by (apply Qle_shift_div_l; lra).
    cbn [add_const div_const]. unfold xdiv.
    destruct (Qeq_bool (1 + g / l) 0) eqn:E1.
    + apply Qeq_bool_iff in E1. lra.
    + cbn [sub_const]. eexists. split; [reflexivity |].
      field. split; lra.
Qed.

Lemma rsi_features_inv (x : list Q) (period : Z) (r : list xfloat) :
  rsi_features x period = Ok r ->
  (1 <= period)%Z
  /\ length r = length x
  /\ forall t : nat,
      t < length x ->
      nth t r NaN
      = sub_const 100
          (div_const 100
             (add_const 1
                (xdiv (nth t (ewm_mean (inject_Z period - 1)
                                       (map gain_of (diff x))) 0%Q)
                      (nth t (ewm_mean (inject_Z period - 1)
                                       (map loss_of (diff x))) 0%Q)))).
Proof.
  unfold rsi_features.
  destruct (com_of_com (inject_Z period - 1)) as [com |] eqn:E;
    [| discriminate].
  apply com_of_com_inv in E. destruct E as [-> Hc].
  intro H. injection H as <-.
  assert (Hlen : length (ewm_mean (inject_Z period - 1)
                                  (map gain_of (diff x)))
                 = length (ewm_mean (inject_Z period - 1)
                                    (map loss_of (diff x)))).
  { now rewrite !length_ewm_mean, !length_map. }
  assert (Hg : length (ewm_mean (inject_Z period - 1)
                                (map gain_of (diff x))) = length x).
  { now rewrite length_ewm_mean, length_map, length_diff. }
  split; [| split].
  - assert (H1 : (inject_Z 1 <= inject_Z period)%Q)
      by (change (inject_Z 1) with 1%Q; lra).
    now rewrite <- Zle_Qle in H1.
  - rewrite length_map, length_zip_with by exact Hlen. exact Hg.
  - intros t Ht.
    rewrite nth_map_lt with (d0 := NaN)
      by (rewrite length_zip_with by exact Hlen; lia).
    rewrite nth_zip_with with (da := 0%Q) (db := 0%Q);
      [reflexivity | exact Hlen | lia].
Qed.

Lemma rsi_averages_nonneg (x : list Q) (period : Z) (t : nat) :
  (1 <= period)%Z ->
  (0 <= nth t (ewm_mean (inject_Z period - 1) (map gain_of (diff x))) 0
   /\ 0 <= nth t (ewm_mean (inject_Z period - 1) (map loss_of (diff x))) 0)%Q.
Proof.
  intro Hp.
  assert (Hc : (0 <= inject_Z period - 1)%Q).
  { assert (H1 : (inject_Z 1 <= inject_Z period)%Q)
      by (rewrite <- Zle_Qle; exact Hp).
    change (inject_Z 1) with 1%Q in H1. lra. }
  split.
  - destruct (Nat.lt_ge_cases t
                (length (ewm_mean (inject_Z period - 1)
                                  (map gain_of (diff x))))) as [L | L].
    + assert (F := ewm_mean_nonneg Hc (Forall_gain_nonneg (diff x))).
      rewrite Forall_forall in F. apply F. now apply nth_In.
    + rewrite nth_overflow by exact L. lra.
  - destruct (Nat.lt_ge_cases t
                (length (ewm_mean (inject_Z period - 1)
                                  (map loss_of (diff x))))) as [L | L].
    + assert (F := ewm_mean_nonneg Hc (Forall_loss_nonneg (diff x))).
      rewrite Forall_forall in F. apply F. now apply nth_In.
    + rewrite nth_overflow by exact L. lra.
Qed.

(** [rsi_features] raises ValueError for a period below 1.  Otherwise it
    returns one value per price: the first is NaN, and every value is
    either NaN or a number between 0 and 100; no infinity is returned,
    although the relative strength itself is infinite when no loss has
    occurred. *)
Theorem rsi_features_range :
  forall (price_data : list Q) (period : Z),
    ((period < 1)%Z -> rsi_features price_data period = Raise ValueError)
    /\ ((1 <= period)%Z ->
        exists rsi : list xfloat,
          rsi_features price_data period = Ok rsi
          /\ length rsi = length price_data
          /\ (price_data <> [] -> nth 0 rsi (Fin 0) = NaN)
          /\ forall t : nat,
              t < length price_data ->
              nth t rsi NaN = NaN
              \/ exists q : Q,
                  nth t rsi NaN = Fin q /\ (0 <= q /\ q <= 100)%Q).
Proof.
  intros x period. split.
  - intro Hp. unfold rsi_features, com_of_com.
    replace (Qltb (inject_Z period - 1) 0) with true; [reflexivity |].
    symmetry. apply Qltb_lt.
    assert (H1 : (inject_Z period < inject_Z 1)%Q)
      by (rewrite <- Zlt_Qlt; exact Hp).
    change (inject_Z 1) with 1%Q in H1. lra.
  - intro Hp.
    destruct (rsi_features x period) as [r | e] eqn:E.
    + exists r. split; [reflexivity |].
      destruct (@rsi_features_inv _ _ _ E) as (_ & Hlen & Hnth).
      split; [exact Hlen |]. split.
      * intro Hne. destruct x as [| x0 xs]; [congruence |].
        rewrite nth_indep with (d' := NaN) by (rewrite Hlen; simpl; lia).
        rewrite Hnth by (simpl; lia). reflexivity.
      * intros t Ht. rewrite Hnth by exact Ht.
        destruct (rsi_averages_nonneg x t Hp) as [Hg Hl].
        destruct (rsi_value_cases Hg Hl) as (A & B & C).
        set (g := nth t (ewm_mean (inject_Z period - 1)
                                  (map gain_of (diff x))) 0%Q) in *.
        set (l := nth t (ewm_mean (inject_Z period - 1)
                                  (map loss_of (diff x))) 0%Q) in *.
        destruct (Qeq_dec l 0) as [El | El].
        -- destruct (Qeq_dec g 0) as [Eg | Eg].
           ++ left. now apply A.
           ++ right. destruct (B El Eg) as (q & -> & Hq).
              exists q. split; [reflexivity | lra].
        -- right. destruct (C El) as (q & -> & Hq).
           exists q. split; [reflexivity |].
           assert (Hl0 : (0 < l)%Q).
           { destruct (Qlt_le_dec 0 l) as [L | L]; [exact L |].
             exfalso. apply El. lra. }
           rewrite Hq. split.
           ++ apply Qle_shift_div_l; nra.
           ++ apply Qle_shift_div_r; nra.
    + exfalso. unfold rsi_features, com_of_com in E.
      destruct (Qltb (inject_Z period - 1) 0) eqn:L; [| discriminate].
      apply Qltb_lt in L.
      assert (H1 : (inject_Z 1 <= inject_Z period)%Q)
        by (rewrite <- Zle_Qle; exact Hp).
      change (inject_Z 1) with 1%Q in H1. lra.
Qed.

Lemma rsi_features_range_witness :
  exists rsi : list xfloat,
    rsi_features [1; 2; 1]%Q 14 = Ok rsi
    /\ length rsi = 3
    /\ ([1; 2; 1]%Q <> [] -> nth 0 rsi (Fin 0) = NaN)
    /\ forall t : nat,
        t < 3 ->
        nth t rsi NaN = NaN
        \/ exists q : Q, nth t rsi NaN = Fin q /\ (0 <= q /\ q <= 100)%Q.
Proof.
  destruct (rsi_features_range [1; 2; 1]%Q 14) as [_ H].
  apply H. lia.
Defined.



(* ================================================================== *)
(** * The recency test and the replay driver *)

Lemma trade_on_window_short (h : heap) (m : TradeModel) (rs : list Bar)
      (cd fi fi' : Z) :
  rs <> [] ->
  (Z.of_nat (length rs) <= fi + 1)%Z ->
  (Z.of_nat (length rs) <= fi' + 1)%Z ->
  trade_on_window h m rs cd fi = trade_on_window h m rs cd fi'.
Proof.
  intros Hne Hfi Hfi'. unfold trade_on_window.
  destruct (iloc_last
              (valid_signals
                 (signals_since_last_trade rs (latest_trade_date m) cd)))
    as [[i b] |]; [| reflexivity].
  assert (Hlen : 1 <= length rs) by (destruct rs; [congruence | simpl; lia]).
  replace (Z.of_nat (length rs - 1) - Z.of_nat i <=? fi)%Z with true
    by (symmetry; apply Z.leb_le; lia).
  replace (Z.of_nat (length rs - 1) - Z.of_nat i <=? fi')%Z with true
    by (symmetry; apply Z.leb_le; lia).
  reflexivity.
Qed.

Lemma auto_trade_short_window (h : heap) (m : TradeModel) (l : loc)
      (df : DataFrame) (cdt fi fi' dist : Z) (prom : Q) :
  deref h l = Some df ->
  (Z.of_nat (length (rows df)) <= fi + 1)%Z ->
  (Z.of_nat (length (rows df)) <= fi' + 1)%Z ->
  auto_trade h m l cdt fi dist prom = auto_trade h m l cdt fi' dist prom.
Proof.
  intros H Hfi Hfi'.
  rewrite !auto_trade_unfold with (df := df) by assumption.
  destruct (iloc_last (rows df)) as [ndp |] eqn:El; [| reflexivity].
  destruct (detect df dist prom true) as [[sig | s] | e]; try reflexivity.
  cbv zeta. f_equal.
  assert (Hlen : length (rows (loc_set_Signal df (length (rows df) - 1)
                                              (Some s)))
                 = length (rows df))
    by apply length_loc_set_Signal_rows.
  apply trade_on_window_short.
  - intro E. rewrite E in Hlen. simpl in Hlen.
    destruct (rows df); [discriminate | discriminate].
  - now rewrite Hlen.
  - now rewrite Hlen.
Qed.

(** The recency test only matters on long windows: on a window of at most
    [furthest_index + 1] rows every selected signal counts as recent, so
    [auto_trade] does the same for every such [furthest_index]. *)
Theorem furthest_index_irrelevant_on_short_window :
  forall (h : heap) (m : TradeModel) (l : loc) (df : DataFrame)
         (cdt fi fi' dist : Z) (prom : Q),
    deref h l = Some df ->
    (Z.of_nat (length (rows df)) <= fi + 1)%Z ->
    (Z.of_nat (length (rows df)) <= fi' + 1)%Z ->
    auto_trade h m l cdt fi dist prom = auto_trade h m l cdt fi' dist prom.
Proof.
  intros h m l df cdt fi fi' dist prom H Hfi Hfi'.
  now apply auto_trade_short_window with (df := df).
Qed.

Lemma furthest_index_irrelevant_on_short_window_witness :
  auto_trade [spike_window] TradeModel_init 0 5 5 1 0.1%Q
  = auto_trade [spike_window] TradeModel_init 0 5 100 1 0.1%Q.
Proof.
  apply (@furthest_index_irrelevant_on_short_window
           [spike_window] TradeModel_init 0 spike_window 5 5 100 1 0.1%Q).
  - reflexivity.
  - simpl. lia.
  - simpl. lia.
Defined.

Lemma length_tail (n : nat) (rs : list Bar) : length (tail n rs) <= n.
Proof. unfold tail. rewrite length_skipn. lia. Qed.

(** In the replay the window handed to [auto_trade] has at most 50 rows
    while [furthest_index] is left at 100, so the staleness test never
    holds a trade back: the call does what [auto_trade] does on the last
    50 rows with any [furthest_index] from 49 on.  Without a row at
    [current_datetime], or with auto trading off, nothing is done. *)
Theorem replay_window_is_never_stale :
  forall (h : heap) (m : TradeModel) (self_df : DataFrame)
         (current_datetime fi : Z),
    (49 <= fi)%Z ->
    let df_window :=
      mkDataFrame (has_Time self_df) (has_Close self_df)
                  (tail 50 (rows self_df)) in
    increment_plot_auto_trade h m self_df false current_datetime = (h, m)
    /\ ((forall b : Bar, In b (rows self_df) ->
                         bar_Time b <> current_datetime) ->
        increment_plot_auto_trade h m self_df true current_datetime
        = (h, m))
    /\ (has_Time self_df = true ->
        (exists b : Bar, In b (rows self_df)
                         /\ bar_Time b = current_datetime) ->
        increment_plot_auto_trade h m self_df true current_datetime
        = auto_trade (h ++ [df_window]) m (length h) current_datetime
                     fi 5 0.1%Q).
Proof.
  intros h m df cdt fi Hfi w. split; [reflexivity |]. split.
  - intro Hno. unfold increment_plot_auto_trade, column_Time.
    destruct (has_Time df); [| reflexivity].
    replace (existsb (Z.eqb cdt) (map bar_Time (rows df))) with false;
      [reflexivity |].
    symmetry. apply not_true_is_false. intro E.
    apply existsb_exists in E. destruct E as (t & Hin & Ht).
    apply in_map_iff in Hin. destruct Hin as (b & <- & Hb).
    apply Z.eqb_eq in Ht. apply (Hno b Hb). congruence.
  - intros HT (b & Hb & Hbt).
    assert (Ec : column_Time df = Ok (map bar_Time (rows df)))
      by (unfold column_Time; now rewrite HT).
    unfold increment_plot_auto_trade. rewrite Ec.
    replace (existsb (Z.eqb cdt) (map bar_Time (rows df))) with true.
    + cbn [negb alloc]. fold w.
      apply auto_trade_short_window with (df := w).
      * apply deref_app_new.
      * pose proof (length_tail 50 (rows df)). subst w. simpl. lia.
      * pose proof (length_tail 50 (rows df)). subst w. simpl. lia.
    + symmetry. apply existsb_exists. exists (bar_Time b). split.
      * now apply in_map.
      * apply Z.eqb_eq. congruence.
Qed.

Lemma replay_window_is_never_stale_witness :
  increment_plot_auto_trade [] TradeModel_init spike_window true 5
  = auto_trade ([] ++ [mkDataFrame true true (tail 50 (rows spike_window))])
               TradeModel_init 0 5 49 5 0.1%Q.
Proof.
  assert (Hfi : (49 <= 49)%Z) by lia.
  destruct (@replay_window_is_never_stale [] TradeModel_init spike_window
              5 49 Hfi) as (_ & _ & H).
  apply H.
  - reflexivity.
  - exists (mkBar 5 1 (Some Neutral) []). split; [| reflexivity].
    simpl. do 5 right. now left.
Defined.

(* ================================================================== *)
(** * Properties of the configuration manager *)






(** What a configuration file that is missing, unreadable or not an object
    leads to.  Without a file, or with one that cannot be read as JSON, the
    manager falls back to the default path, and so it does when the object
    in the file has no 'data_path'.  When the file holds JSON that is not an
    object, [get_data_path] raises AttributeError; [save_config] then keeps
    the configuration, stores nothing and leaves the file empty, so that a
    manager created afterwards falls back to the default path. *)
Theorem config_fallback :
  get_data_path (_load_config Absent)
  = Ok (JString "src/data/GBP_USD_M15.pkl")
  /\ get_data_path (_load_config Unreadable)
     = Ok (JString "src/data/GBP_USD_M15.pkl")
  /\ (forall d : list (string * json),
        dict_get d "data_path" = None ->
        get_data_path (_load_config (Holds (JObject d)))
        = Ok (JString "src/data/GBP_USD_M15.pkl"))
  /\ (forall v : json,
        (forall d : list (string * json), v <> JObject d) ->
        get_data_path (_load_config (Holds v)) = Raise AttributeError
        /\ forall data_path : string,
            save_config true (_load_config (Holds v)) (Holds v) data_path
            = (v, Unreadable)
            /\ get_data_path (_load_config Unreadable)
               = Ok (JString "src/data/GBP_USD_M15.pkl"))
  /\ (forall (config : json) (f : file) (data_path : string),
        save_config false config f data_path = (config, f)).
Proof.
  split; [reflexivity |]. split; [reflexivity |]. split; [| split].
  - intros d H. simpl. now rewrite H.
  - intros v Hv. destruct v as [| b | n | s | items | d];
      try (split; [reflexivity | intro p; split; reflexivity]).
    exfalso. now apply (Hv d).
  - reflexivity.
Qed.

Lemma config_fallback_witness :
  get_data_path (_load_config (Holds (JArray []))) = Raise AttributeError.
Proof.
  destruct config_fallback as (_ & _ & _ & H & _).
  apply (H (JArray [])). intros d. discriminate.
Defined.
